(** * A shallow embedding of [lib/routing.py] (kodi-plugin-routing)

    The router compiles route patterns such as [/videos/<path:rest>] into
    regular expressions, dispatches paths to view functions and generates
    URLs back from view functions and arguments.

    Conventions of the embedding (Python 3 semantics throughout):
    - a Python [str] is a [string]; its characters are the code points 0..255;
    - the part of the [re] module the router relies on is embedded as a
      backtracking matcher over a syntax tree, together with a parser for
      the fragment of the regular-expression syntax that the router writes
      itself; a construct outside that fragment gives [Unmodelled], never
      a guessed behaviour;
    - a call that may raise returns a [result]; [None] results are [option];
    - a [dict] is an association list in insertion order, keys unique;
    - keyword and positional argument values are strings. *)

From Stdlib Require Import String Ascii List Bool Arith Lia NArith.
Import ListNotations.
Open Scope string_scope.

(** ** Outcomes of a call *)

Inductive exn : Type :=
| ReError
| TypeError
| KeyError (key : string)
| ValueError
| IndexError
| RoutingError (msg : string).

Inductive result (A : Type) : Type :=
| Ok (a : A)
| Raise (e : exn)
| Unmodelled.

Arguments Ok {A} a.
Arguments Raise {A} e.
Arguments Unmodelled {A}.

Definition bind {A B : Type} (x : result A) (f : A -> result B) : result B :=
  match x with
  | Ok a => f a
  | Raise e => Raise e
  | Unmodelled => Unmodelled
  end.

Notation "x <- c1 ;; c2" := (bind c1 (fun x => c2))
  (at level 61, c1 at next level, right associativity).

(** ** Characters *)

Definition code (c : ascii) : N := N_of_ascii c.

Definition in_range (lo hi c : ascii) : bool :=
  (code lo <=? code c)%N && (code c <=? code hi)%N.

Definition is_digit (c : ascii) : bool := in_range "0" "9" c.
Definition is_upper (c : ascii) : bool := in_range "A" "Z" c.
Definition is_lower (c : ascii) : bool := in_range "a" "z" c.
Definition is_alpha (c : ascii) : bool := is_upper c || is_lower c.
Definition is_ascii (c : ascii) : bool := (code c <? 128)%N.

Definition newline : ascii := "010".

Fixpoint forallb_str (p : ascii -> bool) (s : string) : bool :=
  match s with
  | EmptyString => true
  | String c s' => p c && forallb_str p s'
  end.

Fixpoint existsb_str (p : ascii -> bool) (s : string) : bool :=
  match s with
  | EmptyString => false
  | String c s' => p c || existsb_str p s'
  end.

Definition str_mem (c : ascii) (s : string) : bool :=
  existsb_str (Ascii.eqb c) s.

Fixpoint str_rev_app (s acc : string) : string :=
  match s with
  | EmptyString => acc
  | String c s' => str_rev_app s' (String c acc)
  end.

Definition str_rev (s : string) : string := str_rev_app s "".

(** ** Regular expressions: syntax *)

Module Re.

(** One member of a character set: a single character is the range from
    itself to itself. *)
Definition citem : Type := (ascii * ascii)%type.

Inductive regex : Type :=
| Eps
| Chr (c : ascii)
| Dot
| Cls (negate : bool) (items : list citem)
| Bol
| Eol
| Cat (r1 r2 : regex)
| Alt (r1 r2 : regex)
| Star (greedy : bool) (r : regex)
| Plus (greedy : bool) (r : regex)
| Opt (greedy : bool) (r : regex)
| Grp (index : nat) (r : regex).

Definition in_items (c : ascii) (items : list citem) : bool :=
  existsb (fun it => in_range (fst it) (snd it) c) items.

Definition cls_accepts (negate : bool) (items : list citem) (c : ascii) : bool :=
  xorb negate (in_items c items).

(** [nullable r] is [true] when [r] may match the empty string. *)
Fixpoint nullable (r : regex) : bool :=
  match r with
  | Eps | Bol | Eol => true
  | Chr _ | Dot | Cls _ _ => false
  | Cat r1 r2 => nullable r1 && nullable r2
  | Alt r1 r2 => nullable r1 || nullable r2
  | Star _ _ | Opt _ _ => true
  | Plus _ r1 => nullable r1
  | Grp _ r1 => nullable r1
  end.

(** ** Regular expressions: backtracking matcher

    The matcher is written in continuation-passing style: [k] is what has
    to match after [r].  The first successful path wins, as in [re]: the
    left branch of an alternation before the right one, more iterations
    before fewer for a greedy quantifier and fewer before more for a lazy
    one.  [pos] is the index of the current character in the whole
    subject, [s] what is left of the subject from there. *)

Definition caps : Type := list (nat * string).

Definition mres : Type := (nat * string * caps)%type.

Definition kont : Type := nat -> string -> caps -> option mres.

Definition kdone : kont := fun pos s c => Some (pos, s, c).

Fixpoint group (i : nat) (c : caps) : option string :=
  match c with
  | [] => None
  | (j, v) :: c' => if Nat.eqb i j then Some v else group i c'
  end.

Definition at_eol (s : string) : bool :=
  match s with
  | EmptyString => true
  | String c EmptyString => Ascii.eqb c newline
  | _ => false
  end.

(** Repetition of [body], at most [fuel] more times; an iteration has to
    consume at least one character. *)
Fixpoint rep_loop (body : kont -> kont) (greedy : bool) (k : kont)
         (fuel : nat) : kont :=
  fun pos s c =>
    match fuel with
    | O => k pos s c
    | S fuel' =>
        let again :=
          body (fun pos' s' c' =>
                  if Nat.ltb pos pos' then rep_loop body greedy k fuel' pos' s' c'
                  else None) in
        if greedy then
          match again pos s c with
          | Some res => Some res
          | None => k pos s c
          end
        else
          match k pos s c with
          | Some res => Some res
          | None => again pos s c
          end
    end.

Fixpoint mt (r : regex) (k : kont) {struct r} : kont :=
  match r with
  | Eps => k
  | Chr a =>
      fun pos s c =>
        match s with
        | String b s' => if Ascii.eqb a b then k (S pos) s' c else None
        | EmptyString => None
        end
  | Dot =>
      fun pos s c =>
        match s with
        | String b s' => if Ascii.eqb b newline then None else k (S pos) s' c
        | EmptyString => None
        end
  | Cls negate items =>
      fun pos s c =>
        match s with
        | String b s' =>
            if cls_accepts negate items b then k (S pos) s' c else None
        | EmptyString => None
        end
  | Bol => fun pos s c => if Nat.eqb pos 0 then k pos s c else None
  | Eol => fun pos s c => if at_eol s then k pos s c else None
  | Cat r1 r2 => mt r1 (mt r2 k)
  | Alt r1 r2 =>
      fun pos s c =>
        match mt r1 k pos s c with
        | Some res => Some res
        | None => mt r2 k pos s c
        end
  | Star greedy r1 =>
      fun pos s c => rep_loop (mt r1) greedy k (String.length s) pos s c
  | Plus greedy r1 =>
      mt r1 (fun pos s c => rep_loop (mt r1) greedy k (String.length s) pos s c)
  | Opt greedy r1 =>
      fun pos s c =>
        if greedy then
          match mt r1 k pos s c with
          | Some res => Some res
          | None => k pos s c
          end
        else
          match k pos s c with
          | Some res => Some res
          | None => mt r1 k pos s c
          end
  | Grp i r1 =>
      fun pos s c =>
        mt r1 (fun pos' s' c' =>
                 k pos' s' ((i, substring 0 (pos' - pos) s) :: c'))
           pos s c
  end.

(** A match attempt at one position. *)
Definition match_at (r : regex) (pos : nat) (s : string) : option mres :=
  mt r kdone pos s [].

(** [regex.search]: the leftmost position at which a match attempt
    succeeds.  The result is the start position, the end position and the
    captured groups. *)
Fixpoint search_from (r : regex) (pos : nat) (s : string)
  : option (nat * nat * caps) :=
  match match_at r pos s with
  | Some (pos', _, c) => Some (pos, pos', c)
  | None =>
      match s with
      | EmptyString => None
      | String _ s' => search_from r (S pos) s'
      end
  end.


(** ** Regular expressions: parser

    The parser reads the pattern one character at a time.  It covers
    literal characters, [.], [^], [$], [|], the quantifiers [*], [+], [?]
    and their lazy forms, character sets without escapes, and the groups
    [(...)], [(?:...)] and [(?P<name>...)].  A brace that does not open a
    counted repetition is a literal, as in [re].  Everything else
    (backslash escapes, counted repetitions, look-around, flags, possessive
    quantifiers, a quantifier on an expression that can match the empty
    string) is reported as outside the fragment. *)

Inductive fail : Type :=
| FError        (* [re.error] *)
| FUnmodelled.  (* outside the fragment *)

(** How the last item of a sequence may still be quantified. *)
Inductive qstate : Type :=
| QAtom      (* not quantified yet *)
| QGreedy    (* just quantified: a [?] makes it lazy *)
| QLazy      (* quantified, lazy *)
| QAnchor.   (* [^] or [$]: nothing to repeat *)

Record frame : Type := mkFrame {
  f_alts : list regex;              (* finished branches, last first *)
  f_cur : list (regex * qstate);    (* items of the current branch, last first *)
  f_grp : option nat                (* index of the capturing group, if any *)
}.

Inductive cmode : Type :=
| CStart                      (* just after [[] *)
| CItems                      (* before an item *)
| CPend (c1 : ascii)          (* after a character that may start a range *)
| CDash (c1 : ascii).         (* after a character and [-] *)

Inductive mode : Type :=
| MNormal
| MParen                      (* after [(] *)
| MParenQ                     (* after [(?] *)
| MParenQP                    (* after [(?P] *)
| MName (acc : string)        (* in [(?P<name], the name so far, last first *)
| MBrace                      (* after a brace *)
| MClass (negate : bool) (items : list citem) (cm : cmode).

Record pst : Type := mkPst {
  p_mode : mode;
  p_top : frame;
  p_stack : list frame;
  p_ngroups : nat;
  p_names : list (string * nat)
}.

Definition seq_of (cur : list (regex * qstate)) : regex :=
  fold_right Cat Eps (map fst (rev cur)).

Fixpoint alt_of (branches : list regex) : regex :=
  match branches with
  | [] => Eps
  | [r] => r
  | r :: rs => Alt r (alt_of rs)
  end.

Definition frame_regex (f : frame) : regex :=
  alt_of (rev (seq_of (f_cur f) :: f_alts f)).

Definition push_item (r : regex) (q : qstate) (st : pst) : pst :=
  let f := p_top st in
  mkPst MNormal (mkFrame (f_alts f) ((r, q) :: f_cur f) (f_grp f))
        (p_stack st) (p_ngroups st) (p_names st).

Definition open_group (capture : bool) (name : option string) (st : pst) : pst :=
  if capture then
    let i := S (p_ngroups st) in
    mkPst MNormal (mkFrame [] [] (Some i)) (p_top st :: p_stack st) i
          match name with
          | Some n => p_names st ++ [(n, i)]
          | None => p_names st
          end
  else
    mkPst MNormal (mkFrame [] [] None) (p_top st :: p_stack st)
          (p_ngroups st) (p_names st).

Definition close_group (st : pst) : fail + pst :=
  match p_stack st with
  | [] => inl FError
  | parent :: stack' =>
      let body := frame_regex (p_top st) in
      let item := match f_grp (p_top st) with
                  | Some i => Grp i body
                  | None => body
                  end in
      inr (mkPst MNormal
                 (mkFrame (f_alts parent) ((item, QAtom) :: f_cur parent)
                          (f_grp parent))
                 stack' (p_ngroups st) (p_names st))
  end.

Definition next_branch (st : pst) : pst :=
  let f := p_top st in
  mkPst MNormal (mkFrame (seq_of (f_cur f) :: f_alts f) [] (f_grp f))
        (p_stack st) (p_ngroups st) (p_names st).

Definition set_mode (m : mode) (st : pst) : pst :=
  mkPst m (p_top st) (p_stack st) (p_ngroups st) (p_names st).

Definition set_last (r : regex) (q : qstate) (st : pst) : pst :=
  let f := p_top st in
  mkPst MNormal (mkFrame (f_alts f) ((r, q) :: tl (f_cur f)) (f_grp f))
        (p_stack st) (p_ngroups st) (p_names st).

Definition make_lazy (r : regex) : regex :=
  match r with
  | Star _ r1 => Star false r1
  | Plus _ r1 => Plus false r1
  | Opt _ r1 => Opt false r1
  | _ => r
  end.

Definition quantify (q : ascii) (st : pst) : fail + pst :=
  match f_cur (p_top st) with
  | [] => inl FError
  | (r, QAnchor) :: _ => inl FError
  | (r, QLazy) :: _ => inl FError
  | (r, QGreedy) :: _ =>
      if Ascii.eqb q "?" then inr (set_last (make_lazy r) QLazy st)
      else if Ascii.eqb q "+" then inl FUnmodelled
      else inl FError
  | (r, QAtom) :: _ =>
      if nullable r then inl FUnmodelled
      else if Ascii.eqb q "*" then inr (set_last (Star true r) QGreedy st)
      else if Ascii.eqb q "+" then inr (set_last (Plus true r) QGreedy st)
      else inr (set_last (Opt true r) QGreedy st)
  end.

Definition step_normal (c : ascii) (st : pst) : fail + pst :=
  if Ascii.eqb c "(" then inr (set_mode MParen st)
  else if Ascii.eqb c ")" then close_group st
  else if Ascii.eqb c "|" then inr (next_branch st)
  else if Ascii.eqb c "*" || Ascii.eqb c "+" || Ascii.eqb c "?" then quantify c st
  else if Ascii.eqb c "." then inr (push_item Dot QAtom st)
  else if Ascii.eqb c "^" then inr (push_item Bol QAnchor st)
  else if Ascii.eqb c "$" then inr (push_item Eol QAnchor st)
  else if Ascii.eqb c "[" then inr (set_mode (MClass false [] CStart) st)
  else if Ascii.eqb c "{" then inr (set_mode MBrace st)
  else if Ascii.eqb c "\" then inl FUnmodelled
  else inr (push_item (Chr c) QAtom st).

(** A group name has to be an identifier. *)
Definition is_ident_start (c : ascii) : bool := is_alpha c || Ascii.eqb c "_".
Definition is_ident_char (c : ascii) : bool := is_ident_start c || is_digit c.

Definition is_identifier (n : string) : bool :=
  match n with
  | EmptyString => false
  | String c n' => is_ident_start c && forallb_str is_ident_char n'
  end.

Definition name_defined (n : string) (names : list (string * nat)) : bool :=
  existsb (fun e => String.eqb n (fst e)) names.

Definition close_name (acc : string) (st : pst) : fail + pst :=
  let n := str_rev acc in
  match n with
  | EmptyString => inl FError
  | _ =>
      if negb (forallb_str is_ascii n) then inl FUnmodelled
      else if negb (is_identifier n) then inl FError
      else if name_defined n (p_names st) then inl FError
      else inr (open_group true (Some n) st)
  end.

Definition close_class (negate : bool) (items : list citem) (st : pst) : pst :=
  push_item (Cls negate (rev items)) QAtom st.

Definition step_class (negate : bool) (items : list citem) (cm : cmode)
           (c : ascii) (st : pst) : fail + pst :=
  let start_item (c : ascii) : fail + pst :=
    if Ascii.eqb c "\" then inl FUnmodelled
    else inr (set_mode (MClass negate items (CPend c)) st) in
  match cm with
  | CStart =>
      if Ascii.eqb c "^" then inr (set_mode (MClass true items CItems) st)
      else start_item c
  | CItems =>
      if Ascii.eqb c "]" then
        match items with
        | [] => start_item c
        | _ => inr (close_class negate items st)
        end
      else start_item c
  | CPend c1 =>
      if Ascii.eqb c "-" then inr (set_mode (MClass negate items (CDash c1)) st)
      else if Ascii.eqb c "]" then inr (close_class negate ((c1, c1) :: items) st)
      else if Ascii.eqb c "\" then inl FUnmodelled
      else inr (set_mode (MClass negate ((c1, c1) :: items) (CPend c)) st)
  | CDash c1 =>
      if Ascii.eqb c "]" then
        inr (close_class negate (("-"%char, "-"%char) :: (c1, c1) :: items) st)
      else if Ascii.eqb c "\" then inl FUnmodelled
      else if (code c <? code c1)%N then inl FError
      else inr (set_mode (MClass negate ((c1, c) :: items) CItems) st)
  end.

Definition step (c : ascii) (st : pst) : fail + pst :=
  match p_mode st with
  | MNormal => step_normal c st
  | MParen =>
      if Ascii.eqb c "?" then inr (set_mode MParenQ st)
      else step_normal c (open_group true None st)
  | MParenQ =>
      if Ascii.eqb c "P" then inr (set_mode MParenQP st)
      else if Ascii.eqb c ":" then inr (open_group false None st)
      else inl FUnmodelled
  | MParenQP =>
      if Ascii.eqb c "<" then inr (set_mode (MName "") st)
      else inl FUnmodelled
  | MName acc =>
      if Ascii.eqb c ">" then close_name acc st
      else inr (set_mode (MName (String c acc)) st)
  | MBrace =>
      if is_digit c || Ascii.eqb c "," then inl FUnmodelled
      else step_normal c (push_item (Chr "{") QAtom st)
  | MClass negate items cm => step_class negate items cm c st
  end.

Fixpoint parse_loop (s : string) (st : pst) : fail + pst :=
  match s with
  | EmptyString => inr st
  | String c s' =>
      match step c st with
      | inl f => inl f
      | inr st' => parse_loop s' st'
      end
  end.

Definition parse_init : pst := mkPst MNormal (mkFrame [] [] None) [] 0 [].

Record compiled : Type := mkCompiled {
  re_ast : regex;
  re_groups : nat;
  re_names : list (string * nat)
}.

Definition parse_finish (st : pst) : result compiled :=
  match p_stack st with
  | _ :: _ => Raise ReError
  | [] =>
      match p_mode st with
      | MNormal =>
          Ok (mkCompiled (frame_regex (p_top st)) (p_ngroups st) (p_names st))
      | MBrace =>
          let st' := push_item (Chr "{") QAtom st in
          Ok (mkCompiled (frame_regex (p_top st')) (p_ngroups st') (p_names st'))
      | _ => Raise ReError
      end
  end.

(** [re.compile] *)
Definition compile (pattern : string) : result compiled :=
  match parse_loop pattern parse_init with
  | inl FError => Raise ReError
  | inl FUnmodelled => Unmodelled
  | inr st => parse_finish st
  end.

End Re.

(** ** The functions of [re] the router calls *)

Module PyRe.
Import Re.

(** A replacement template: literal characters and group references. *)
Inductive titem : Type :=
| TLit (c : ascii)
| TGroup (i : nat).

Definition digit_value (c : ascii) : nat := N.to_nat (code c - code "0").

(** Only the reference [\d] with a single digit from 1 to 9 is covered. *)
Fixpoint parse_template (repl : string) : result (list titem) :=
  match repl with
  | EmptyString => Ok []
  | String c rest =>
      if Ascii.eqb c "\" then
        match rest with
        | String d rest' =>
            if in_range "1" "9" d
               && negb match rest' with
                       | String e _ => is_digit e
                       | EmptyString => false
                       end
            then t <- parse_template rest' ;; Ok (TGroup (digit_value d) :: t)
            else Unmodelled
        | EmptyString => Unmodelled
        end
      else t <- parse_template rest ;; Ok (TLit c :: t)
  end.

Fixpoint expand (t : list titem) (c : caps) : string :=
  match t with
  | [] => ""
  | TLit a :: t' => String a (expand t' c)
  | TGroup i :: t' =>
      match group i c with
      | Some v => v
      | None => ""
      end ++ expand t' c
  end.

Definition template_ok (groups : nat) (t : list titem) : bool :=
  forallb (fun it => match it with
                     | TLit _ => true
                     | TGroup i => Nat.leb i groups
                     end) t.

(** The scan of [re.sub] and [re.findall]: non-overlapping matches from
    left to right.  [skip] counts the characters of the current match that
    are still to be passed over.  All the expressions scanned with match
    at least one character. *)
Fixpoint sub_scan (r : regex) (t : list titem) (pos skip : nat) (s : string)
  : string :=
  match s with
  | EmptyString => ""
  | String ch s' =>
      match skip with
      | S n => sub_scan r t (S pos) n s'
      | O =>
          match match_at r pos s with
          | Some (pos', _, c) =>
              expand t c ++ sub_scan r t (S pos) (pos' - pos - 1) s'
          | None => String ch (sub_scan r t (S pos) 0 s')
          end
      end
  end.

(** [re.sub(pattern, repl, string)] *)
Definition sub (pattern repl s : string) : result string :=
  r <- compile pattern ;;
  t <- parse_template repl ;;
  if nullable (re_ast r) then Unmodelled
  else if negb (template_ok (re_groups r) t) then Raise ReError
  else Ok (sub_scan (re_ast r) t 0 0 s).

Fixpoint findall_scan (r : regex) (groups : nat) (pos skip : nat) (s : string)
  : list string :=
  match s with
  | EmptyString => []
  | String ch s' =>
      match skip with
      | S n => findall_scan r groups (S pos) n s'
      | O =>
          match match_at r pos s with
          | Some (pos', _, c) =>
              match groups with
              | O => substring 0 (pos' - pos) s
              | _ => match group 1 c with
                     | Some v => v
                     | None => ""
                     end
              end :: findall_scan r groups (S pos) (pos' - pos - 1) s'
          | None => findall_scan r groups (S pos) 0 s'
          end
      end
  end.

(** [re.findall(pattern, string)] for a pattern with at most one group *)
Definition findall (pattern s : string) : result (list string) :=
  r <- compile pattern ;;
  if nullable (re_ast r) then Unmodelled
  else if Nat.ltb 1 (re_groups r) then Unmodelled
  else Ok (findall_scan (re_ast r) (re_groups r) 0 0 s).

(** [match.groupdict()]: the named groups, [None] for a group that took no
    part in the match. *)
Definition groupdict (r : compiled) (c : caps) : list (string * option string) :=
  map (fun e => (fst e, group (snd e) c)) (re_names r).

(** [regex.search(string)] followed by [groupdict()] *)
Definition search (r : compiled) (s : string)
  : option (list (string * option string)) :=
  match search_from (re_ast r) 0 s with
  | Some (_, _, c) => Some (groupdict r c)
  | None => None
  end.

End PyRe.

(** ** String operations of Python *)

Module Py.

(** [s.rstrip(c)] for a single character [c] *)
Fixpoint rstrip (c : ascii) (s : string) : string :=
  match s with
  | EmptyString => ""
  | String a s' =>
      match rstrip c s' with
      | EmptyString => if Ascii.eqb a c then "" else String a ""
      | t => String a t
      end
  end.

(** [s.startswith(p)] *)
Fixpoint startswith (p s : string) : bool :=
  match p with
  | EmptyString => true
  | String a p' =>
      match s with
      | String b s' => Ascii.eqb a b && startswith p' s'
      | EmptyString => false
      end
  end.

Definition kwargs : Type := list (string * string).

Fixpoint lookup {V : Type} (k : string) (d : list (string * V)) : option V :=
  match d with
  | [] => None
  | (k', v) :: d' => if String.eqb k k' then Some v else lookup k d'
  end.

(** [str.format] with keyword arguments only.  A replacement field is covered when it is a
    plain keyword name: no conversion, format specification, attribute,
    index, digit or nested field. *)
Definition field_special (c : ascii) : bool :=
  str_mem c "{!:.[]" || is_digit c.

Fixpoint format_loop (s : string) (field : option string) (kw : kwargs)
  : result string :=
  match s with
  | EmptyString =>
      match field with
      | None => Ok ""
      | Some _ => Raise ValueError
      end
  | String c s' =>
      match field with
      | None =>
          if Ascii.eqb c "{" then
            match s' with
            | String d s'' =>
                if Ascii.eqb d "{" then
                  rest <- format_loop s'' None kw ;; Ok (String "{" rest)
                else format_loop s' (Some "") kw
            | EmptyString => Raise ValueError
            end
          else if Ascii.eqb c "}" then
            match s' with
            | String d s'' =>
                if Ascii.eqb d "}" then
                  rest <- format_loop s'' None kw ;; Ok (String "}" rest)
                else Raise ValueError
            | EmptyString => Raise ValueError
            end
          else rest <- format_loop s' None kw ;; Ok (String c rest)
      | Some acc =>
          if Ascii.eqb c "}" then
            match acc with
            | EmptyString => Unmodelled
            | _ =>
                match lookup (str_rev acc) kw with
                | Some v => rest <- format_loop s' None kw ;; Ok (v ++ rest)
                | None => Raise (KeyError (str_rev acc))
                end
            end
          else if field_special c then Unmodelled
          else format_loop s' (Some (String c acc)) kw
      end
  end.

Definition format (template : string) (kw : kwargs) : result string :=
  format_loop template None kw.

(** [template % args] for a tuple of strings.  The conversions covered are
    [%s] and [%%]. *)
Fixpoint percent (template : string) (args : list string) : result string :=
  match template with
  | EmptyString =>
      match args with
      | [] => Ok ""
      | _ :: _ => Raise TypeError
      end
  | String c s' =>
      if Ascii.eqb c "%" then
        match s' with
        | String d s'' =>
            if Ascii.eqb d "s" then
              match args with
              | a :: args' => rest <- percent s'' args' ;; Ok (a ++ rest)
              | [] => Raise TypeError
              end
            else if Ascii.eqb d "%" then
              rest <- percent s'' args ;; Ok (String "%" rest)
            else Unmodelled
        | EmptyString => Unmodelled
        end
      else rest <- percent s' args ;; Ok (String c rest)
  end.

(** *** [urllib.parse.urlencode] *)

Definition hex_digit (upper : bool) (n : N) : ascii :=
  if (n <? 10)%N then ascii_of_N (code "0" + n)
  else ascii_of_N (code (if upper then "A" else "a") + (n - 10)).

Definition percent_byte (b : N) : string :=
  String "%" (String (hex_digit true (b / 16)) (String (hex_digit true (b mod 16)) "")).

(** The bytes of the UTF-8 encoding of a code point below 256. *)
Definition utf8 (c : ascii) : list N :=
  if is_ascii c then [code c]
  else [(192 + code c / 64)%N; (128 + code c mod 64)%N].

Definition always_safe (c : ascii) : bool :=
  is_alpha c || is_digit c || str_mem c "_.-~".

Definition quote_char (c : ascii) : string :=
  if Ascii.eqb c " " then "+"
  else if always_safe c then String c ""
  else String.concat "" (map percent_byte (utf8 c)).

Fixpoint quote_plus (s : string) : string :=
  match s with
  | EmptyString => ""
  | String c s' => quote_char c ++ quote_plus s'
  end.

Definition urlencode (query : kwargs) : string :=
  String.concat "&" (map (fun e => quote_plus (fst e) ++ "=" ++ quote_plus (snd e)) query).

(** *** [repr] of strings, tuples and dictionaries *)

Definition printable (c : ascii) : bool :=
  ((32 <=? code c) && (code c <? 127)
   || (161 <=? code c) && negb (code c =? 173))%N.

Definition repr_char (quote c : ascii) : string :=
  if Ascii.eqb c quote || Ascii.eqb c "\" then String "\" (String c "")
  else if Ascii.eqb c "009" then "\t"
  else if Ascii.eqb c "010" then "\n"
  else if Ascii.eqb c "013" then "\r"
  else if printable c then String c ""
  else String "\" (String "x" (String (hex_digit false (code c / 16))
                                 (String (hex_digit false (code c mod 16)) ""))).

Fixpoint repr_body (quote : ascii) (s : string) : string :=
  match s with
  | EmptyString => ""
  | String c s' => repr_char quote c ++ repr_body quote s'
  end.

Definition dquote : ascii := "034".

Definition repr_str (s : string) : string :=
  let quote : ascii :=
    if str_mem "'" s && negb (str_mem dquote s) then dquote else "'"%char in
  String quote (repr_body quote s ++ String quote "").

Definition repr_opt (v : option string) : string :=
  match v with
  | Some s => repr_str s
  | None => "None"
  end.

Definition repr_tuple (t : list string) : string :=
  match t with
  | [a] => "(" ++ repr_str a ++ ",)"
  | _ => "(" ++ String.concat ", " (map repr_str t) ++ ")"
  end.

Definition repr_dict {V : Type} (repr_v : V -> string) (d : list (string * V))
  : string :=
  "{" ++ String.concat ", "
           (map (fun e => repr_str (fst e) ++ ": " ++ repr_v (snd e)) d) ++ "}".

(** *** [str.split] with a separator and [maxsplit=1] *)

Fixpoint drop (n : nat) (s : string) : string :=
  match n, s with
  | S n', String _ s' => drop n' s'
  | _, _ => s
  end.

(** The text before and after the leftmost occurrence of [sep]. *)
Fixpoint partition (sep s : string) : option (string * string) :=
  if startswith sep s then Some ("", drop (String.length sep) s)
  else
    match s with
    | EmptyString => None
    | String c s' =>
        match partition sep s' with
        | Some (before, after) => Some (String c before, after)
        | None => None
        end
    end.

(** [s.split(sep, 1)]: an empty separator raises [ValueError]. *)
Definition split1 (sep s : string) : result (list string) :=
  match sep with
  | EmptyString => Raise ValueError
  | _ =>
      match partition sep s with
      | Some (before, after) => Ok [before; after]
      | None => Ok [s]
      end
  end.

(** [l[i]] *)
Definition item {A : Type} (l : list A) (i : nat) : result A :=
  match nth_error l i with
  | Some x => Ok x
  | None => Raise IndexError
  end.

End Py.

(** ** [class UrlRule] *)

Module UrlRule.

Record t : Type := mk {
  _pattern : string;
  _keywords : list string;
  _compiled_pattern : string;
  _regex : Re.compiled
}.

Definition kw_pattern : string := "<(?:[^:]+:)?([A-z]+)>".

(** [pattern.rstrip('/')], the first statement of [__init__] *)
Definition stripped (pattern : string) : string := Py.rstrip "/" pattern.

(** [UrlRule.__init__] *)
Definition init (pattern : string) : result t :=
  let pattern := stripped pattern in
  pat <- PyRe.sub kw_pattern "{\1}" pattern ;;
  keywords <- PyRe.findall kw_pattern pattern ;;
  p <- PyRe.sub "<([A-z]+)>" "<string:\1>" pattern ;;
  p <- PyRe.sub "<string:([A-z]+)>" "(?P<\1>[^/]+?)" p ;;
  p <- PyRe.sub "<path:([A-z]+)>" "(?P<\1>.*)" p ;;
  regex <- Re.compile ("^" ++ p ++ "$") ;;
  Ok (mk pat keywords p regex).

(** [UrlRule.match]: the dictionary of the extracted arguments, or [None] *)
Definition match_ (rule : t) (path : string)
  : option (list (string * option string)) :=
  PyRe.search (_regex rule) path.

Definition is_keyword (rule : t) (k : string) : bool :=
  existsb (String.eqb k) (_keywords rule).

(** [UrlRule.make_path]: [Ok None] is the [return None] of the source. *)
Definition make_path (rule : t) (args : list string) (kwargs : Py.kwargs)
  : result (option string) :=
  match args, kwargs with
  | _ :: _, _ :: _ => Ok None
  | _ :: _, [] =>
      template <- PyRe.sub "{[A-z]+}" "%s" (_pattern rule) ;;
      match Py.percent template args with
      | Ok path => Ok (Some path)
      | Raise TypeError => Ok None
      | Raise e => Raise e
      | Unmodelled => Unmodelled
      end
  | [], _ =>
      let url_kwargs := filter (fun e => is_keyword rule (fst e)) kwargs in
      let qs_kwargs := filter (fun e => negb (is_keyword rule (fst e))) kwargs in
      let query := match qs_kwargs with
                   | [] => ""
                   | _ :: _ => "?" ++ Py.urlencode qs_kwargs
                   end in
      match Py.format (_pattern rule) url_kwargs with
      | Ok path => Ok (Some (path ++ query))
      | Raise (KeyError _) => Ok None
      | Raise e => Raise e
      | Unmodelled => Unmodelled
      end
  end.

End UrlRule.

(** ** [class Plugin] *)

Module Plugin.

(** A view function: its identity, its [__name__] and what a call with
    keyword arguments does (it returns or raises). *)
Record view_func : Type := mkView {
  v_id : nat;
  __name__ : string;
  v_call : list (string * option string) -> result unit
}.

(** The part of the state that routing reads and writes: [_rules], the
    dictionary from view function to its list of rules, and [base_url]. *)
Record t : Type := mk {
  _rules : list (view_func * list UrlRule.t);
  base_url : string
}.

(** [Plugin.__init__]; [addon_id] is the module constant [ADDON_ID]. *)
Definition init (addon_id : string) (base : option string) : t :=
  mk [] match base with
        | Some b => b
        | None => "plugin://" ++ addon_id
        end.

Definition same_func (f g : view_func) : bool := Nat.eqb (v_id f) (v_id g).

Fixpoint rules_of (func : view_func) (rules : list (view_func * list UrlRule.t))
  : option (list UrlRule.t) :=
  match rules with
  | [] => None
  | (f, rs) :: rules' => if same_func func f then Some rs else rules_of func rules'
  end.

Fixpoint append_rule (func : view_func) (rule : UrlRule.t)
         (rules : list (view_func * list UrlRule.t))
  : list (view_func * list UrlRule.t) :=
  match rules with
  | [] => [(func, [rule])]
  | (f, rs) :: rules' =>
      if same_func func f then (f, (rs ++ [rule])%list) :: rules'
      else (f, rs) :: append_rule func rule rules'
  end.

(** [Plugin.add_route] *)
Definition add_route (p : t) (func : view_func) (pattern : string) : result t :=
  rule <- UrlRule.init pattern ;;
  Ok (mk (append_rule func rule (_rules p)) (base_url p)).

(** [Plugin.url_for_path] *)
Definition url_for_path (p : t) (path : string) : string :=
  let path := if Py.startswith "/" path then path else "/" ++ path in
  base_url p ++ path.

(** The loop of [url_for] over the rules of one view function. *)
Fixpoint first_path (rules : list UrlRule.t) (args : list string)
         (kwargs : Py.kwargs) : result (option string) :=
  match rules with
  | [] => Ok None
  | rule :: rules' =>
      path <- UrlRule.make_path rule args kwargs ;;
      match path with
      | Some path => Ok (Some path)
      | None => first_path rules' args kwargs
      end
  end.

Definition no_known_paths (func : view_func) (args : list string)
           (kwargs : Py.kwargs) : string :=
  "No known paths to '" ++ __name__ func ++ "' with args "
    ++ Py.repr_tuple args ++ " and kwargs " ++ Py.repr_dict Py.repr_str kwargs.

(** [Plugin.url_for] *)
Definition url_for (p : t) (func : view_func) (args : list string)
           (kwargs : Py.kwargs) : result string :=
  found <- match rules_of func (_rules p) with
           | Some rules => first_path rules args kwargs
           | None => Ok None
           end ;;
  match found with
  | Some path => Ok (url_for_path p path)
  | None => Raise (RoutingError (no_known_paths func args kwargs))
  end.

(** What a dispatch does to the outside: it logs and it calls view
    functions. *)
Inductive event : Type :=
| Log (msg : string)
| Call (func : view_func) (kwargs : list (string * option string)).

Definition dispatching_to (func : view_func)
           (kwargs : list (string * option string)) : string :=
  "Dispatching to '" ++ __name__ func ++ "', args: "
    ++ Py.repr_dict Py.repr_opt kwargs.

Definition no_route_to (path : string) : string :=
  "No route to path " ++ String Py.dquote (path ++ String Py.dquote "").

(** The inner loop of [_dispatch]: [None] when the loop ends without
    reaching [return]. *)
Fixpoint dispatch_rules (view : view_func) (rules : list UrlRule.t)
         (path : string) : option (list event * result unit) :=
  match rules with
  | [] => None
  | rule :: rules' =>
      match UrlRule.match_ rule path with
      | Some kwargs =>
          Some ([Log (dispatching_to view kwargs); Call view kwargs],
                v_call view kwargs)
      | None => dispatch_rules view rules' path
      end
  end.

Fixpoint dispatch_items (items : list (view_func * list UrlRule.t))
         (path : string) : list event * result unit :=
  match items with
  | [] => ([], Raise (RoutingError (no_route_to path)))
  | (view, rules) :: items' =>
      match dispatch_rules view rules path with
      | Some out => out
      | None => dispatch_items items' path
      end
  end.

(** [Plugin._dispatch]: the events in order and the outcome of the call *)
Definition _dispatch (p : t) (path : string) : list event * result unit :=
  dispatch_items (_rules p) path.

(** The loops of [route_for], as those of [_dispatch]. *)
Fixpoint route_rules (view : view_func) (rules : list UrlRule.t)
         (path : string) : option view_func :=
  match rules with
  | [] => None
  | rule :: rules' =>
      match UrlRule.match_ rule path with
      | Some _ => Some view
      | None => route_rules view rules' path
      end
  end.

Fixpoint route_items (items : list (view_func * list UrlRule.t))
         (path : string) : option view_func :=
  match items with
  | [] => None
  | (view, rules) :: items' =>
      match route_rules view rules path with
      | Some found => Some found
      | None => route_items items' path
      end
  end.

(** [Plugin.route_for]: the view function for a path or a full URL *)
Definition route_for (p : t) (path : string) : result (option view_func) :=
  path <- (if Py.startswith (base_url p) path
           then parts <- Py.split1 (base_url p) path ;; Py.item parts 1
           else Ok path) ;;
  Ok (route_items (_rules p) path).

(** [Plugin.route], the decorator: it registers and returns the function. *)
Definition route (p : t) (pattern : string) (func : view_func)
  : result (t * view_func) :=
  p' <- add_route p func pattern ;;
  Ok (p', func).

(** [Plugin.redirect] *)
Definition redirect (p : t) (path : string) : list event * result unit :=
  _dispatch p path.

End Plugin.

(** * Vocabulary of the properties *)

Import Re.

(** ** Trailing slashes (C8) *)

Fixpoint slashes (n : nat) : string :=
  match n with
  | O => ""
  | S n' => String "/" (slashes n')
  end.

Fixpoint last_char (s : string) : option ascii :=
  match s with
  | EmptyString => None
  | String c EmptyString => Some c
  | String _ s' => last_char s'
  end.

(** The claim's words: one trailing slash is dropped, if there is one. *)
Fixpoint strip_single_trailing_slash (s : string) : string :=
  match s with
  | EmptyString => ""
  | String c EmptyString => if Ascii.eqb c "/" then "" else s
  | String c s' => String c (strip_single_trailing_slash s')
  end.

(** ** [url_for_path] (C9) *)

Fixpoint has_double_slash (s : string) : bool :=
  match s with
  | EmptyString => false
  | String c s' =>
      match s' with
      | String d _ => (Ascii.eqb c "/" && Ascii.eqb d "/") || has_double_slash s'
      | EmptyString => false
      end
  end.

(** The path as [url_for_path] appends it to the base URL. *)
Definition rooted (path : string) : string :=
  if Py.startswith "/" path then path else "/" ++ path.

(** ** The rules and routes of the examples *)

Definition show_rule : UrlRule.t :=
  Eval vm_compute in
    match UrlRule.init "/show/<id>" with
    | Ok rule => rule
    | _ => UrlRule.mk "" [] "" (mkCompiled Eps 0 [])
    end.

(** The rule of a pattern that compiles. *)
Definition rule_of (pattern : string) : UrlRule.t :=
  match UrlRule.init pattern with
  | Ok rule => rule
  | _ => UrlRule.mk "" [] "" (mkCompiled Eps 0 [])
  end.

Definition H : Plugin.view_func := Plugin.mkView 0 "H" (fun _ => Ok tt).

Definition item_plugin : result Plugin.t :=
  p <- Plugin.add_route (Plugin.init "plugin.foo.bar" None) H "/item/<id>" ;;
  Plugin.add_route p H "/item/<id>/<variant>".

(** The state these two registrations leave. *)
Definition item_routes : Plugin.t :=
  Plugin.mk [(H, [rule_of "/item/<id>"; rule_of "/item/<id>/<variant>"])]
            "plugin://plugin.foo.bar".

(** ** [_dispatch] (C3) *)

Definition is_call (e : Plugin.event) : bool :=
  match e with
  | Plugin.Call _ _ => true
  | Plugin.Log _ => false
  end.

Definition calls (trace : list Plugin.event) : nat :=
  List.length (filter is_call trace).

(** Two routes, one view function each. *)
Definition videos : Plugin.view_func :=
  Plugin.mkView 1 "videos" (fun _ => Ok tt).

Definition videos_plugin : Plugin.t :=
  Plugin.mk [(H, [rule_of "/item/<id>"]);
             (videos, [rule_of "/videos/<path:rest>"])]
            "plugin://plugin.foo.bar".

(** ** The matcher on single-character repetitions *)

(** What [mt] does for an expression that matches one character. *)
Definition char_body (accept : ascii -> bool) : kont -> kont :=
  fun k pos s c =>
    match s with
    | String b s' => if accept b then k (S pos) s' c else None
    | EmptyString => None
    end.

(** The repetition of such an expression, by recursion on the subject. *)
Fixpoint rep_chars (accept : ascii -> bool) (greedy : bool) (k : kont)
         (pos : nat) (s : string) (c : caps) : option mres :=
  match s with
  | EmptyString => k pos s c
  | String b s' =>
      if accept b then
        if greedy then
          match rep_chars accept greedy k (S pos) s' c with
          | Some res => Some res
          | None => k pos s c
          end
        else
          match k pos s c with
          | Some res => Some res
          | None => rep_chars accept greedy k (S pos) s' c
          end
      else k pos s c
  end.

Definition not_newline (b : ascii) : bool := negb (Ascii.eqb b newline).

(** ** Patterns as sequences of literal text and placeholders *)

Inductive item : Type :=
| Lit (text : string)
| Seg (name : string)       (* <name> *)
| SegT (name : string)      (* <string:name> *)
| PathP (name : string).    (* <path:name> *)

Definition name_char (c : ascii) : bool := is_alpha c || Ascii.eqb c "_".

Definition valid_name (n : string) : bool :=
  match n with
  | EmptyString => false
  | _ => forallb_str name_char n
  end.

Definition regex_plain (c : ascii) : bool := negb (str_mem c "<()[{|*+?.^$\").

Fixpoint render (f : item -> string) (items : list item) : string :=
  match items with
  | [] => ""
  | it :: items' => f it ++ render f items'
  end.

(** The text of an item in the pattern, and after each of the three
    substitutions of [__init__]. *)
Definition source_text (it : item) : string :=
  match it with
  | Lit t => t
  | Seg n => "<" ++ n ++ ">"
  | SegT n => "<string:" ++ n ++ ">"
  | PathP n => "<path:" ++ n ++ ">"
  end.

Definition typed_text (it : item) : string :=
  match it with
  | Lit t => t
  | Seg n | SegT n => "<string:" ++ n ++ ">"
  | PathP n => "<path:" ++ n ++ ">"
  end.

Definition seg_text (it : item) : string :=
  match it with
  | Lit t => t
  | Seg n | SegT n => "(?P<" ++ n ++ ">[^/]+?)"
  | PathP n => "<path:" ++ n ++ ">"
  end.

Definition regex_text (it : item) : string :=
  match it with
  | Lit t => t
  | Seg n | SegT n => "(?P<" ++ n ++ ">[^/]+?)"
  | PathP n => "(?P<" ++ n ++ ">.*)"
  end.

(** The expression [lit([A-z]+)>] for a literal text [lit]. *)
Fixpoint lit_cat (l : string) (r : regex) : regex :=
  match l with
  | EmptyString => r
  | String a l' => Cat (Chr a) (lit_cat l' r)
  end.

Definition Az (c : ascii) : bool := cls_accepts false [("A"%char, "z"%char)] c.

Definition name_tail : regex :=
  Cat (Grp 1 (Cat (Plus true (Cls false [("A"%char, "z"%char)])) Eps))
      (Cat (Chr ">") Eps).

(** *** The scan of [re.sub] over a piece of the subject *)

Definition no_char (a : ascii) (s : string) : bool :=
  forallb_str (fun ch => negb (Ascii.eqb a ch)) s.

(** *** The three substitutions, item by item *)

Definition T (repl : string) : list PyRe.titem :=
  match PyRe.parse_template repl with
  | Ok t => t
  | _ => []
  end.

Definition item_ok (it : item) : bool :=
  match it with
  | Lit t => forallb_str regex_plain t
  | Seg n | SegT n | PathP n => valid_name n
  end.

Definition r1 : regex := lit_cat "<" name_tail.
Definition r2 : regex := lit_cat "<string:" name_tail.
Definition r3 : regex := lit_cat "<path:" name_tail.
Definition t1 : list PyRe.titem := T "<string:\1>".
Definition t2 : list PyRe.titem := T "(?P<\1>[^/]+?)".
Definition t3 : list PyRe.titem := T "(?P<\1>.*)".

(** *** The parser on the text of a compiled pattern *)

Definition seg_group (i : nat) : regex :=
  Grp i (Cat (Plus false (Cls true [("/"%char, "/"%char)])) Eps).

Definition path_group (i : nat) : regex :=
  Grp i (Cat (Star true Dot) Eps).

Fixpoint chr_nodes (t : string) : list regex :=
  match t with
  | EmptyString => []
  | String c t' => Chr c :: chr_nodes t'
  end.

(** The expressions of the items in order; [g] groups are open before. *)
Fixpoint nodes (g : nat) (items : list item) : list regex :=
  match items with
  | [] => []
  | Lit t :: items' => (chr_nodes t ++ nodes g items')%list
  | Seg _ :: items' | SegT _ :: items' => seg_group (S g) :: nodes (S g) items'
  | PathP _ :: items' => path_group (S g) :: nodes (S g) items'
  end.

Fixpoint group_names (g : nat) (items : list item) : list (string * nat) :=
  match items with
  | [] => []
  | Lit _ :: items' => group_names g items'
  | Seg n :: items' | SegT n :: items' | PathP n :: items' =>
      (n, S g) :: group_names (S g) items'
  end.

Fixpoint group_count (items : list item) : nat :=
  match items with
  | [] => 0
  | Lit _ :: items' => group_count items'
  | _ :: items' => S (group_count items')
  end.

Definition top_state (cur : list (regex * qstate)) (g : nat)
           (nm : list (string * nat)) : pst :=
  mkPst MNormal (mkFrame [] cur None) [] g nm.

Fixpoint push_chars (t : string) (cur : list (regex * qstate))
  : list (regex * qstate) :=
  match t with
  | EmptyString => cur
  | String c t' => push_chars t' ((Chr c, QAtom) :: cur)
  end.

Fixpoint push_items (g : nat) (items : list item) (cur : list (regex * qstate))
  : list (regex * qstate) :=
  match items with
  | [] => cur
  | Lit t :: items' => push_items g items' (push_chars t cur)
  | Seg _ :: items' | SegT _ :: items' =>
      push_items (S g) items' ((seg_group (S g), QAtom) :: cur)
  | PathP _ :: items' =>
      push_items (S g) items' ((path_group (S g), QAtom) :: cur)
  end.

Fixpoint item_names (items : list item) : list string :=
  match items with
  | [] => []
  | Lit _ :: items' => item_names items'
  | Seg n :: items' | SegT n :: items' | PathP n :: items' =>
      n :: item_names items'
  end.

(** The expression compiled from a pattern of plain literals and
    placeholders with distinct valid names. *)
Definition items_regex (items : list item) : regex :=
  fold_right Cat Eps (Bol :: nodes 0 items ++ [Eol])%list.

(** *** What a successful match of a compiled pattern has captured *)

Definition not_slash : ascii -> bool :=
  cls_accepts true [("/"%char, "/"%char)].

Definition seg_value (v : string) : Prop :=
  v <> "" /\ str_mem "/" v = false.

(** The values of the placeholders in order, and the captures they make. *)
Fixpoint captured (g : nat) (items : list item) (vals : list string) (c : caps)
  : caps :=
  match items with
  | [] => c
  | Lit _ :: items' => captured g items' vals c
  | _ :: items' =>
      match vals with
      | v :: vals' => captured (S g) items' vals' ((S g, v) :: c)
      | [] => c
      end
  end.

(** The text the values make with the literals. *)
Fixpoint filled (items : list item) (vals : list string) : string :=
  match items with
  | [] => ""
  | Lit t :: items' => t ++ filled items' vals
  | _ :: items' =>
      match vals with
      | v :: vals' => v ++ filled items' vals'
      | [] => ""
      end
  end.

Fixpoint vals_ok (items : list item) (vals : list string) : Prop :=
  match items with
  | [] => vals = []
  | Lit _ :: items' => vals_ok items' vals
  | Seg _ :: items' | SegT _ :: items' =>
      match vals with
      | v :: vals' => (forallb_str not_slash v = true /\ v <> "")
                      /\ vals_ok items' vals'
      | [] => False
      end
  | PathP _ :: items' =>
      match vals with
      | v :: vals' => forallb_str not_newline v = true /\ vals_ok items' vals'
      | [] => False
      end
  end.

(** *** [UrlRule.__init__] on a pattern of literals and placeholders *)

Definition kw_regex : regex :=
  Cat (Chr "<")
      (Cat (Opt true (Cat (Plus true (Cls true [(":"%char, ":"%char)]))
                          (Cat (Chr ":") Eps)))
           name_tail).

Definition tkw : list PyRe.titem := T "{\1}".

Definition well_formed (items : list item) : Prop :=
  forallb item_ok items = true /\ NoDup (item_names items).

Definition items_compiled (items : list item) : compiled :=
  mkCompiled (items_regex items) (group_count items) (group_names 0 items).

(** The rule of such a pattern. *)
Definition items_rule (items : list item) : UrlRule.t :=
  UrlRule.mk (PyRe.sub_scan kw_regex tkw 0 0 (render source_text items))
             (PyRe.findall_scan kw_regex 1 0 0 (render source_text items))
             (render regex_text items)
             (items_compiled items).

Definition videos_items : list item :=
  [Lit "/videos/"; Seg "category"; Lit "/"; PathP "rest"].

(** *** The expression that finds the placeholders *)

Definition not_colon : ascii -> bool :=
  cls_accepts true [(":"%char, ":"%char)].

Definition kw_opt : regex :=
  Cat (Plus true (Cls true [(":"%char, ":"%char)])) (Cat (Chr ":") Eps).

(** *** The template and the keywords of a pattern *)

Definition fmt_text (it : item) : string :=
  match it with
  | Lit t => t
  | Seg n | SegT n | PathP n => "{" ++ n ++ "}"
  end.

Definition template_plain (c : ascii) : bool :=
  regex_plain c && negb (str_mem c ":}").

Definition typed (it : item) : bool :=
  match it with
  | SegT _ | PathP _ => true
  | _ => false
  end.

(** No typed placeholder comes after an untyped one. *)
Fixpoint typed_first (items : list item) : bool :=
  match items with
  | [] => true
  | Seg _ :: items' => forallb (fun it => negb (typed it)) items'
  | _ :: items' => typed_first items'
  end.

Definition rt_item_ok (it : item) : bool :=
  match it with
  | Lit t => forallb_str template_plain t
  | Seg n | SegT n | PathP n => valid_name n
  end.

(** *** The scans of [sub] and [findall] with the keyword expression *)

Definition item_name (it : item) : option string :=
  match it with
  | Lit _ => None
  | Seg n | SegT n | PathP n => Some n
  end.

(** *** The path [make_path] builds *)

Definition kw_value (kw : Py.kwargs) (n : string) : string :=
  match Py.lookup n kw with
  | Some v => v
  | None => ""
  end.

Definition kw_values (kw : Py.kwargs) (items : list item) : list string :=
  map (kw_value kw) (item_names items).

(** *** The match of the path built *)

Definition follows (items : list item) : bool :=
  match items with
  | [] => true
  | Lit (String c _) :: _ => Ascii.eqb c "/"
  | _ => false
  end.

(** A segment placeholder is followed by a slash or ends the pattern; a
    path placeholder ends the pattern. *)
Fixpoint rt_shape (items : list item) : bool :=
  match items with
  | [] => true
  | Lit _ :: items' => rt_shape items'
  | Seg _ :: items' | SegT _ :: items' => follows items' && rt_shape items'
  | PathP _ :: items' =>
      match items' with
      | [] => true
      | _ :: _ => false
      end
  end.

Definition seg_char (c : ascii) : bool := not_slash c && not_newline c.

Definition value_ok (it : item) (v : string) : bool :=
  match it with
  | Lit _ => true
  | Seg _ | SegT _ => negb (String.eqb v "") && forallb_str seg_char v
  | PathP _ => forallb_str not_newline v
  end.

Fixpoint vals_fit (items : list item) (vals : list string) : Prop :=
  match items with
  | [] => vals = []
  | Lit _ :: items' => vals_fit items' vals
  | it :: items' =>
      match vals with
      | v :: vals' => value_ok it v = true /\ vals_fit items' vals'
      | [] => False
      end
  end.

Definition tail_regex (g : nat) (items : list item) : regex :=
  fold_right Cat (Cat Eol Eps) (nodes g items).

(** *** The round trip *)

(** The patterns of the round trip: literal text without the characters
    that are special in a regular expression or in a format string and
    without colon, placeholders with distinct valid names, no typed
    placeholder after an untyped one, every segment placeholder followed
    by a slash or by the end, a path placeholder at the end only. *)
Definition roundtrip_pattern (items : list item) : Prop :=
  forallb rt_item_ok items = true
  /\ NoDup (item_names items)
  /\ typed_first items = true
  /\ rt_shape items = true.

Definition item_items : list item :=
  [Lit "/item/"; Seg "id"; Lit "/"; Seg "variant"].

(** *** The placeholder kinds after a literal prefix (C2) *)

Definition prefixed (t : string) (it : item) : list item := [Lit t; it].

(** ** Which view function a path reaches *)

Definition matches (rule : UrlRule.t) (path : string) : bool :=
  match UrlRule.match_ rule path with
  | Some _ => true
  | None => false
  end.

(** ** Registration *)

Definition view_ids (rules : list (Plugin.view_func * list UrlRule.t))
  : list nat :=
  map (fun e => Plugin.v_id (fst e)) rules.

Definition registered (func : Plugin.view_func)
           (rules : list (Plugin.view_func * list UrlRule.t)) : bool :=
  existsb (fun e => Plugin.same_func func (fst e)) rules.

Definition rules_or_none (func : Plugin.view_func) (p : Plugin.t)
  : list UrlRule.t :=
  match Plugin.rules_of func (Plugin._rules p) with
  | Some rules => rules
  | None => []
  end.

(** ** [make_path] with keyword arguments *)

(** The patterns whose template and keywords are those of their
    placeholders: plain literal text, distinct valid names, no typed
    placeholder after an untyped one. *)
Definition template_pattern (items : list item) : Prop :=
  forallb rt_item_ok items = true
  /\ NoDup (item_names items)
  /\ typed_first items = true.

Definition is_name (items : list item) (k : string) : bool :=
  existsb (String.eqb k) (item_names items).

(** The keyword arguments that go to the query string. *)
Definition extra_kwargs (items : list item) (kw : Py.kwargs) : Py.kwargs :=
  filter (fun e => negb (is_name items (fst e))) kw.

Definition query_string (qs : Py.kwargs) : string :=
  match qs with
  | [] => ""
  | _ :: _ => "?" ++ Py.urlencode qs
  end.

Definition has_key (kw : Py.kwargs) (n : string) : bool :=
  match Py.lookup n kw with
  | Some _ => true
  | None => false
  end.

(** Every placeholder has a value. *)
Definition gives_all (kw : Py.kwargs) (items : list item) : bool :=
  forallb (has_key kw) (item_names items).

(** ** [make_path] with positional arguments *)

(** The expression [{[A-z]+}] and the replacement of the positional
    mode. *)
Definition brace_regex : regex :=
  Cat (Chr "{") (Cat (Plus true (Cls false [("A"%char, "z"%char)]))
                     (Cat (Chr "}") Eps)).

Definition tpct : list PyRe.titem := T "%s".

Definition pct_text (it : item) : string :=
  match it with
  | Lit t => t
  | Seg _ | SegT _ | PathP _ => "%s"
  end.

(** No literal text has a percent sign. *)
Definition no_percent (items : list item) : bool :=
  forallb (fun it => match it with
                     | Lit t => no_char "%" t
                     | _ => true
                     end) items.

(** ** From [match] back to [make_path] *)

(** The rule of a pattern whose template and keywords are those of its
    placeholders. *)
Definition template_rule (items : list item) : UrlRule.t :=
  UrlRule.mk (render fmt_text items) (item_names items)
             (render regex_text items) (items_compiled items).

(** ** The root route *)

Definition root_rule : UrlRule.t :=
  Eval vm_compute in
    match UrlRule.init "" with
    | Ok rule => rule
    | _ => UrlRule.mk "" [] "" (mkCompiled Eps 0 [])
    end.

(** * Properties *)

(** ** Strings *)

Lemma append_nil_r (s : string) : s ++ "" = s.
Proof. induction s as [|c s IH]; simpl; [reflexivity | now rewrite IH]. Qed.

Lemma append_assoc (a b c : string) : (a ++ b) ++ c = a ++ (b ++ c).
Proof. induction a as [|x a IH]; simpl; [reflexivity | now rewrite IH]. Qed.

Lemma length_append (a b : string) :
  String.length (a ++ b) = String.length a + String.length b.
Proof. induction a as [|x a IH]; simpl; [reflexivity | now rewrite IH]. Qed.

(** ** Trailing slashes (C8) *)

Lemma rstrip_spec (s : string) :
  exists n, s = Py.rstrip "/" s ++ slashes n
            /\ last_char (Py.rstrip "/" s) <> Some "/"%char.
Proof.
  induction s as [|a s [n [Hs Hl]]]; simpl.
  - exists 0. split; [reflexivity | discriminate].
  - destruct (Py.rstrip "/" s) as [|b t] eqn:E.
    + destruct (Ascii.eqb_spec a "/") as [->|Hne].
      * exists (S n). simpl in *. split; [now f_equal | discriminate].
      * exists n. simpl in *. split; [now f_equal | congruence].
    + exists n. split.
      * simpl. f_equal. exact Hs.
      * simpl in *. destruct t; exact Hl.
Qed.

Lemma rstrip_fixed (s : string) :
  last_char s <> Some "/"%char -> Py.rstrip "/" s = s.
Proof.
  induction s as [|a s IH]; simpl; intros H; [reflexivity|].
  destruct s as [|b t].
  - simpl. destruct (Ascii.eqb_spec a "/"); [congruence | reflexivity].
  - rewrite IH by exact H. reflexivity.
Qed.

Lemma rstrip_idempotent (s : string) :
  Py.rstrip "/" (Py.rstrip "/" s) = Py.rstrip "/" s.
Proof.
  destruct (rstrip_spec s) as [n [_ H]]. now apply rstrip_fixed.
Qed.

Lemma rstrip_single (s : string) :
  last_char s <> Some "/"%char -> Py.rstrip "/" (s ++ "/") = s.
Proof.
  induction s as [|a s IH]; simpl; intros H; [reflexivity|].
  destruct s as [|b t].
  - simpl. destruct (Ascii.eqb_spec a "/"); [congruence | reflexivity].
  - rewrite IH by exact H. reflexivity.
Qed.

(** C8, as the code has it: compiling a pattern starts by removing every
    trailing slash, not only one.  What is left does not end in a slash,
    the pattern is what is left followed by slashes only, a pattern that
    ends in exactly one slash loses that one character, and a rule is
    compiled from what is left alone. *)
Theorem init_strips_all_trailing_slashes (pattern : string) :
  (exists n, pattern = UrlRule.stripped pattern ++ slashes n)
  /\ last_char (UrlRule.stripped pattern) <> Some "/"%char
  /\ (last_char pattern <> Some "/"%char ->
      UrlRule.stripped (pattern ++ "/") = pattern)
  /\ UrlRule.init pattern = UrlRule.init (UrlRule.stripped pattern).
Proof.
  unfold UrlRule.stripped. repeat split.
  - destruct (rstrip_spec pattern) as [n [H _]]. now exists n.
  - destruct (rstrip_spec pattern) as [n [_ H]]. exact H.
  - apply rstrip_single.
  - unfold UrlRule.init, UrlRule.stripped. now rewrite rstrip_idempotent.
Qed.

Lemma init_strips_all_trailing_slashes_witness :
  UrlRule.stripped ("/a" ++ "/") = "/a".
Proof.
  apply (proj1 (proj2 (proj2 (init_strips_all_trailing_slashes "/a")))).
  discriminate.
Defined.

(** C8 as stated fails: of the two trailing slashes of [/a//] none is
    kept, where dropping a single one would leave [/a/]. *)
Lemma init_strip_single_cex :
  UrlRule.stripped "/a//" = "/a"
  /\ strip_single_trailing_slash "/a//" = "/a/"
  /\ (exists rule, UrlRule.init "/a//" = Ok rule
                   /\ UrlRule._pattern rule = "/a"
                   /\ UrlRule._compiled_pattern rule = "/a")
  /\ UrlRule.stripped "/a//" <> strip_single_trailing_slash "/a//".
Proof.
  repeat split; try discriminate.
  eexists. split; [vm_compute; reflexivity | split; reflexivity].
Qed.

(** ** [url_for_path] (C9) *)

Lemma startswith_slash (path : string) :
  Py.startswith "/" path = true -> exists rest, path = String "/" rest.
Proof.
  destruct path as [|c rest]; cbn [Py.startswith]; [discriminate|].
  rewrite andb_true_r. intros H. apply Ascii.eqb_eq in H. subst c.
  now exists rest.
Qed.

Lemma startswith_slash_false (c : ascii) (rest : string) :
  Py.startswith "/" (String c rest) = false -> Ascii.eqb c "/" = false.
Proof.
  cbn [Py.startswith]. rewrite andb_true_r, Ascii.eqb_sym. trivial.
Qed.

(** C9, as the code has it: [url_for_path] is the base URL followed by the
    path, with a slash put in front of a path that does not start with
    one.  What follows the base URL starts with a slash, and it has a
    double slash only when the path given has one. *)
Theorem url_for_path_spec (p : Plugin.t) (path : string) :
  Plugin.url_for_path p path = Plugin.base_url p ++ rooted path
  /\ Py.startswith "/" (rooted path) = true
  /\ has_double_slash (rooted path) = has_double_slash path.
Proof.
  unfold Plugin.url_for_path, rooted. split; [reflexivity|].
  destruct (Py.startswith "/" path) eqn:E.
  - split; [exact E | reflexivity].
  - split.
    + reflexivity.
    + destruct path as [|c rest]; [reflexivity|].
      apply startswith_slash_false in E.
      change (has_double_slash ("/" ++ String c rest))
        with ((Ascii.eqb "/" "/" && Ascii.eqb c "/")
              || has_double_slash (String c rest)).
      rewrite E. reflexivity.
Qed.

(** C9 as stated fails: for the path [//a] the base URL is followed by two
    slashes. *)
Lemma url_for_path_double_slash_cex :
  Plugin.url_for_path (Plugin.init "plugin.foo.bar" None) "//a"
    = "plugin://plugin.foo.bar" ++ "//a"
  /\ rooted "//a" = "//a"
  /\ has_double_slash (rooted "//a") = true
  /\ Py.startswith "//" (rooted "//a") = true.
Proof. repeat split. Qed.

(** ** [make_path] with positional and keyword arguments (C5) *)

(** C5: with at least one positional and at least one keyword argument,
    [make_path] returns [None], for every rule: no path, no exception. *)
Theorem make_path_args_and_kwargs
        (rule : UrlRule.t) (args : list string) (kwargs : Py.kwargs) :
  args <> [] -> kwargs <> [] ->
  UrlRule.make_path rule args kwargs = Ok None.
Proof.
  intros Ha Hk. destruct args as [|a args]; [congruence|].
  destruct kwargs as [|k kwargs]; [congruence|]. reflexivity.
Qed.

Lemma show_rule_init : UrlRule.init "/show/<id>" = Ok show_rule.
Proof. vm_compute. reflexivity. Qed.

Lemma make_path_args_and_kwargs_witness :
  UrlRule.make_path show_rule ["42"] [("id", "42")] = Ok None.
Proof.
  apply (make_path_args_and_kwargs show_rule ["42"] [("id", "42")]);
    discriminate.
Defined.

(** ** [url_for]: registration order (C4) and failure (C7) *)


Lemma first_path_none (rules : list UrlRule.t) (args : list string)
      (kwargs : Py.kwargs) :
  (forall r, In r rules -> UrlRule.make_path r args kwargs = Ok None) ->
  Plugin.first_path rules args kwargs = Ok None.
Proof.
  intros Hall. rewrite <- (app_nil_r rules).
  induction rules as [|r rules IH]; [reflexivity|].
  cbn [app Plugin.first_path]. rewrite (Hall r) by now left.
  cbn [bind]. apply IH. intros r' Hr'. apply Hall. now right.
Qed.




(** C7, as the code has it: when [make_path] returns [None] for every rule
    of the view function (in particular when none is registered),
    [url_for] raises [RoutingError]; the message has the name of the view
    function, the tuple of the positional arguments and the dictionary of
    the keyword arguments in it, as [format] writes them. *)
Theorem url_for_routing_error
        (p : Plugin.t) (func : Plugin.view_func)
        (args : list string) (kwargs : Py.kwargs) :
  (forall rules r, Plugin.rules_of func (Plugin._rules p) = Some rules ->
                   In r rules -> UrlRule.make_path r args kwargs = Ok None) ->
  Plugin.url_for p func args kwargs
  = Raise (RoutingError
             ("No known paths to '" ++ Plugin.__name__ func
                ++ "' with args " ++ Py.repr_tuple args
                ++ " and kwargs " ++ Py.repr_dict Py.repr_str kwargs)).
Proof.
  intros Hall. unfold Plugin.url_for.
  destruct (Plugin.rules_of func (Plugin._rules p)) as [rules|] eqn:E.
  - rewrite first_path_none; [reflexivity|].
    intros r Hr. now apply (Hall rules).
  - reflexivity.
Qed.

Lemma url_for_routing_error_witness :
  Plugin.url_for (Plugin.init "plugin.foo.bar" None) H [] [("id", "7")]
  = Raise (RoutingError
             "No known paths to 'H' with args () and kwargs {'id': '7'}")
  /\ Plugin.url_for item_routes H ["7"] [("id", "7"); ("sort", "a b")]
     = Raise (RoutingError
                "No known paths to 'H' with args ('7',) and kwargs {'id': '7', 'sort': 'a b'}")
  /\ Plugin.url_for item_routes H ["7"; "b"; "c"] []
     = Raise (RoutingError
                "No known paths to 'H' with args ('7', 'b', 'c') and kwargs {}").
Proof.
  repeat apply conj.
  - apply (url_for_routing_error (Plugin.init "plugin.foo.bar" None) H []
                                 [("id", "7")]).
    intros rules r Hrules. discriminate Hrules.
  - apply (url_for_routing_error item_routes H ["7"]
                                 [("id", "7"); ("sort", "a b")]).
    intros rules r [= <-] [<-|[<-|[]]]; reflexivity.
  - apply (url_for_routing_error item_routes H ["7"; "b"; "c"] []).
    intros rules r [= <-] [<-|[<-|[]]]; vm_compute; reflexivity.
Defined.

(** C7 as stated fails: the only pattern of [H] is [/a}b], for which no
    path can be made, and [url_for] raises the [ValueError] of [format],
    not [RoutingError]. *)
Lemma url_for_value_error_cex :
  let p := Plugin.mk [(H, [rule_of "/a}b"])] "plugin://plugin.foo.bar" in
  Plugin.add_route (Plugin.init "plugin.foo.bar" None) H "/a}b" = Ok p
  /\ UrlRule.make_path (rule_of "/a}b") [] [] = Raise ValueError
  /\ UrlRule.make_path (rule_of "/a}b") ["x"] [] = Ok None
  /\ Plugin.url_for p H [] [] = Raise ValueError
  /\ Plugin.url_for p H ["x"] []
     = Raise (RoutingError
                "No known paths to 'H' with args ('x',) and kwargs {}").
Proof. cbv zeta. repeat apply conj; vm_compute; reflexivity. Qed.

(** ** [_dispatch] (C3) *)

Lemma dispatch_rules_none (view : Plugin.view_func) (rules : list UrlRule.t)
      (path : string) :
  (forall rule, In rule rules -> UrlRule.match_ rule path = None) ->
  Plugin.dispatch_rules view rules path = None.
Proof.
  induction rules as [|rule rules IH]; intros Hno; [reflexivity|].
  cbn [Plugin.dispatch_rules]. rewrite (Hno rule) by now left.
  apply IH. intros r Hr. apply Hno. now right.
Qed.

Lemma dispatch_rules_some (view : Plugin.view_func) (rules : list UrlRule.t)
      (path : string) (out : list Plugin.event * result unit) :
  Plugin.dispatch_rules view rules path = Some out ->
  exists kwargs,
    out = ([Plugin.Log (Plugin.dispatching_to view kwargs);
            Plugin.Call view kwargs], Plugin.v_call view kwargs).
Proof.
  induction rules as [|rule rules IH]; cbn [Plugin.dispatch_rules];
    [discriminate|].
  destruct (UrlRule.match_ rule path) as [kwargs|]; [|exact IH].
  intros [= <-]. now exists kwargs.
Qed.

Lemma dispatch_rules_match (view : Plugin.view_func) (rules : list UrlRule.t)
      (path : string) (rule : UrlRule.t) :
  In rule rules -> UrlRule.match_ rule path <> None ->
  Plugin.dispatch_rules view rules path <> None.
Proof.
  induction rules as [|r rules IH]; intros Hin Hm; [destruct Hin|].
  cbn [Plugin.dispatch_rules].
  destruct (UrlRule.match_ r path) as [kwargs|] eqn:E; [discriminate|].
  destruct Hin as [->|Hin]; [congruence | now apply IH].
Qed.

Lemma dispatch_items_shape (items : list (Plugin.view_func * list UrlRule.t))
      (path : string) :
  Plugin.dispatch_items items path
  = ([], Raise (RoutingError (Plugin.no_route_to path)))
  \/ exists view kwargs,
      Plugin.dispatch_items items path
      = ([Plugin.Log (Plugin.dispatching_to view kwargs);
          Plugin.Call view kwargs], Plugin.v_call view kwargs).
Proof.
  induction items as [|[view rules] items IH]; [now left|].
  cbn [Plugin.dispatch_items].
  destruct (Plugin.dispatch_rules view rules path) as [out|] eqn:E;
    [|exact IH].
  right. apply dispatch_rules_some in E. destruct E as [kwargs ->].
  now exists view, kwargs.
Qed.

(** C3: when the path matches no rule of any view function, [_dispatch]
    raises [RoutingError] and nothing is called or logged; whatever the
    path, a dispatch calls at most one view function; and when some rule
    matches, one view function is called and its outcome (its return or
    the exception it raises) is the outcome of the dispatch. *)
Theorem dispatch_calls_at_most_one (p : Plugin.t) (path : string) :
  ((forall view rules rule,
       In (view, rules) (Plugin._rules p) -> In rule rules ->
       UrlRule.match_ rule path = None) ->
   Plugin._dispatch p path
   = ([], Raise (RoutingError (Plugin.no_route_to path))))
  /\ calls (fst (Plugin._dispatch p path)) <= 1
  /\ ((exists view rules rule,
          In (view, rules) (Plugin._rules p) /\ In rule rules
          /\ UrlRule.match_ rule path <> None) ->
      exists view kwargs,
        Plugin._dispatch p path
        = ([Plugin.Log (Plugin.dispatching_to view kwargs);
            Plugin.Call view kwargs], Plugin.v_call view kwargs)).
Proof.
  unfold Plugin._dispatch. destruct p as [items base]. cbn [Plugin._rules].
  split; [|split].
  - induction items as [|[view rules] items IH]; intros Hno; [reflexivity|].
    cbn [Plugin.dispatch_items]. rewrite dispatch_rules_none.
    + apply IH. intros v rs r Hin. apply (Hno v rs r). now right.
    + intros r Hr. apply (Hno view rules r); [now left | exact Hr].
  - destruct (dispatch_items_shape items path) as [->|[view [kwargs ->]]];
      cbn; lia.
  - intros [view [rules [rule [Hin [Hr Hm]]]]].
    induction items as [|[v rs] items IH]; [destruct Hin|].
    cbn [Plugin.dispatch_items].
    destruct (Plugin.dispatch_rules v rs path) as [out|] eqn:E.
    + apply dispatch_rules_some in E. destruct E as [kwargs ->].
      now exists v, kwargs.
    + destruct Hin as [Heq|Hin]; [|now apply IH].
      injection Heq as -> ->.
      now apply (dispatch_rules_match view rules path rule) in E.
Qed.

Lemma dispatch_calls_at_most_one_witness :
  Plugin._dispatch videos_plugin "/nowhere"
  = ([], Raise (RoutingError (Plugin.no_route_to "/nowhere")))
  /\ Plugin._dispatch videos_plugin "/videos/a/b/c"
     = ([Plugin.Log "Dispatching to 'videos', args: {'rest': 'a/b/c'}";
         Plugin.Call videos [("rest", Some "a/b/c")]], Ok tt).
Proof.
  split.
  - apply (dispatch_calls_at_most_one videos_plugin "/nowhere").
    intros view rules rule Hin Hr.
    destruct Hin as [[= <- <-]|[[= <- <-]|[]]];
      (destruct Hr as [<-|[]]; vm_compute; reflexivity).
  - vm_compute. reflexivity.
Defined.

(** ** [make_path] with keyword arguments (C6) *)

(** The example of C6: the keyword that is no placeholder goes to the
    query string. *)
Example make_path_show_42 :
  UrlRule.init "/show/<id>" = Ok show_rule
  /\ UrlRule._pattern show_rule = "/show/{id}"
  /\ UrlRule._keywords show_rule = ["id"]
  /\ UrlRule.make_path show_rule [] [("id", "42"); ("sort", "asc")]
     = Ok (Some "/show/42?sort=asc")
  /\ UrlRule.make_path show_rule [] [("id", "42")] = Ok (Some "/show/42").
Proof. cbv zeta. repeat apply conj; vm_compute; reflexivity. Qed.

(** C6 at a pattern with a typed placeholder after a plain one.  The
    expression that finds the placeholders lets the optional type prefix
    run from the first [<] up to the colon of [<path:rest>], so
    [<category>/<path:rest>] counts as the single placeholder [rest].  The
    rule matches paths with a [category] group, but [make_path] puts the
    keyword [category] into the query string. *)
Theorem make_path_placeholder_in_query :
  let rule := rule_of "/videos/<category>/<path:rest>" in
  UrlRule.init "/videos/<category>/<path:rest>" = Ok rule
  /\ UrlRule._compiled_pattern rule
     = "/videos/(?P<category>[^/]+?)/(?P<rest>.*)"
  /\ UrlRule.match_ rule "/videos/x/y"
     = Some [("category", Some "x"); ("rest", Some "y")]
  /\ UrlRule._keywords rule = ["rest"]
  /\ UrlRule._pattern rule = "/videos/{rest}"
  /\ UrlRule.make_path rule [] [("category", "x"); ("rest", "y")]
     = Ok (Some "/videos/y?category=x").
Proof. cbv zeta. repeat apply conj; vm_compute; reflexivity. Qed.

(** ** Matching on the examples (C2) *)

(** The examples of the placeholder kinds, evaluated:
    [/videos/<path:rest>] matches [/videos/a/b/c] with [rest = a/b/c],
    [/videos/<name>] does not match it, and it takes the whole segment of
    [/videos/abc]. *)
Example placeholder_kinds_examples :
  UrlRule._compiled_pattern (rule_of "/videos/<name>")
  = "/videos/(?P<name>[^/]+?)"
  /\ UrlRule._regex (rule_of "/videos/<string:name>")
     = UrlRule._regex (rule_of "/videos/<name>")
  /\ UrlRule._compiled_pattern (rule_of "/videos/<path:rest>")
     = "/videos/(?P<rest>.*)"
  /\ UrlRule.init "/videos/<path:rest>" = Ok (rule_of "/videos/<path:rest>")
  /\ UrlRule.init "/videos/<name>" = Ok (rule_of "/videos/<name>")
  /\ UrlRule.match_ (rule_of "/videos/<path:rest>") "/videos/a/b/c"
     = Some [("rest", Some "a/b/c")]
  /\ UrlRule.match_ (rule_of "/videos/<name>") "/videos/a/b/c" = None
  /\ UrlRule.match_ (rule_of "/videos/<name>") "/videos/abc"
     = Some [("name", Some "abc")]
  /\ UrlRule.match_ (rule_of "/videos/<name>") "/videos/" = None.
Proof. cbv zeta. repeat apply conj; vm_compute; reflexivity. Qed.

(** ** Where the round trip and the segment values fail (C1, C10) *)

(** C1 as stated fails: two placeholders with nothing between them share
    the characters in another way than they were given; the lazy first
    group takes one character. *)
Lemma roundtrip_adjacent_cex :
  let rule := rule_of "/<a><b>" in
  UrlRule.init "/<a><b>" = Ok rule
  /\ UrlRule._keywords rule = ["a"; "b"]
  /\ UrlRule.make_path rule [] [("a", "xy"); ("b", "z")] = Ok (Some "/xyz")
  /\ UrlRule.match_ rule "/xyz" = Some [("a", Some "x"); ("b", Some "yz")]
  /\ UrlRule.match_ rule "/xyz" <> Some [("a", Some "xy"); ("b", Some "z")].
Proof.
  cbv zeta. repeat apply conj; try (vm_compute; reflexivity).
  vm_compute. discriminate.
Qed.

(** Other ways out of the round trip: a value that ends in a newline
    (the end anchor matches before it), literal text that is special in a
    regular expression, and a path placeholder that is not the last
    item. *)
Example roundtrip_limits :
  (UrlRule.make_path (rule_of "/<a>") [] [("a", String "x" (String newline ""))]
   = Ok (Some (String "/" (String "x" (String newline "")))))
  /\ UrlRule.match_ (rule_of "/<a>") (String "/" (String "x" (String newline "")))
     = Some [("a", Some "x")]
  /\ UrlRule.make_path (rule_of "/a+b/<id>") [] [("id", "7")]
     = Ok (Some "/a+b/7")
  /\ UrlRule.match_ (rule_of "/a+b/<id>") "/a+b/7" = None
  /\ UrlRule.make_path (rule_of "/<path:a>/<path:b>") []
                       [("a", "x"); ("b", "y/z")]
     = Ok (Some "/x/y/z")
  /\ UrlRule.match_ (rule_of "/<path:a>/<path:b>") "/x/y/z"
     = Some [("a", Some "x/y"); ("b", Some "z")].
Proof. repeat apply conj; vm_compute; reflexivity. Qed.

(** C10 as stated fails: the text around a placeholder is part of the
    regular expression, so a group may take no part in a match.  The
    pattern [<x>|/b] matches [/b] by its second branch and the value of
    [x] is [None], not a non-empty string. *)
Lemma segment_value_none_cex :
  let rule := rule_of "<x>|/b" in
  UrlRule.init "<x>|/b" = Ok rule
  /\ UrlRule._compiled_pattern rule = "(?P<x>[^/]+?)|/b"
  /\ UrlRule.match_ rule "/b" = Some [("x", None)].
Proof. cbv zeta. repeat apply conj; vm_compute; reflexivity. Qed.

(** ** The matcher on single-character repetitions *)

Lemma rep_loop_chars (body : kont -> kont) (accept : ascii -> bool)
      (greedy : bool) (k : kont) :
  (forall k' pos s c, body k' pos s c = char_body accept k' pos s c) ->
  forall fuel pos s c,
    String.length s <= fuel ->
    rep_loop body greedy k fuel pos s c = rep_chars accept greedy k pos s c.
Proof.
  intros Hbody. induction fuel as [|fuel IH]; intros pos s c Hlen.
  - destruct s; [reflexivity | simpl in Hlen; lia].
  - cbn [rep_loop]. rewrite Hbody. destruct s as [|b s']; cbn [char_body rep_chars].
    + destruct greedy; [reflexivity | now destruct (k pos "" c)].
    + destruct (accept b).
      * assert (Hlt : Nat.ltb pos (S pos) = true) by (apply Nat.ltb_lt; lia).
        rewrite Hlt, IH by (simpl in Hlen; lia). reflexivity.
      * destruct greedy; [reflexivity | now destruct (k pos (String b s') c)].
Qed.

Lemma mt_Dot_body (k : kont) (pos : nat) (s : string) (c : caps) :
  mt Dot k pos s c = char_body not_newline k pos s c.
Proof.
  destruct s as [|b s']; [reflexivity|]. cbn [mt char_body]. unfold not_newline.
  now destruct (Ascii.eqb b newline).
Qed.

Lemma mt_Plus_Cls (greedy negate : bool) (items : list citem) (k : kont)
      (pos : nat) (s : string) (c : caps) :
  mt (Plus greedy (Cls negate items)) k pos s c
  = match s with
    | String b s' =>
        if cls_accepts negate items b
        then rep_chars (cls_accepts negate items) greedy k (S pos) s' c
        else None
    | EmptyString => None
    end.
Proof.
  destruct s as [|b s']; [reflexivity|]. cbn [mt].
  destruct (cls_accepts negate items b); [|reflexivity].
  now apply rep_loop_chars.
Qed.

Lemma mt_Star_Dot (greedy : bool) (k : kont) (pos : nat) (s : string)
      (c : caps) :
  mt (Star greedy Dot) k pos s c = rep_chars not_newline greedy k pos s c.
Proof.
  cbn [mt]. apply rep_loop_chars; [|lia]. intros. apply mt_Dot_body.
Qed.

Lemma mt_Cat (r1 r2 : regex) (k : kont) : mt (Cat r1 r2) k = mt r1 (mt r2 k).
Proof. reflexivity. Qed.

Lemma mt_Eps (k : kont) : mt Eps k = k.
Proof. reflexivity. Qed.

Lemma mt_Chr (a b : ascii) (k : kont) (pos : nat) (s : string) (c : caps) :
  mt (Chr a) k pos (String b s) c
  = if Ascii.eqb a b then k (S pos) s c else None.
Proof. reflexivity. Qed.

Lemma mt_Grp (i : nat) (r : regex) (k : kont) (pos : nat) (s : string)
      (c : caps) :
  mt (Grp i r) k pos s c
  = mt r (fun pos' s' c' => k pos' s' ((i, substring 0 (pos' - pos) s) :: c'))
       pos s c.
Proof. reflexivity. Qed.

(** ** Patterns as sequences of literal text and placeholders *)

Lemma compile_plain_tag : compile "<([A-z]+)>" = Ok (mkCompiled (lit_cat "<" name_tail) 1 []).
Proof. reflexivity. Qed.
Lemma compile_string_tag : compile "<string:([A-z]+)>" = Ok (mkCompiled (lit_cat "<string:" name_tail) 1 []).
Proof. reflexivity. Qed.
Lemma compile_path_tag : compile "<path:([A-z]+)>" = Ok (mkCompiled (lit_cat "<path:" name_tail) 1 []).
Proof. reflexivity. Qed.

(** *** Strings *)

Lemma substring_prefix (a b : string) : substring 0 (String.length a) (a ++ b) = a.
Proof.
  induction a as [|x a IH]; simpl.
  - now destruct b.
  - now rewrite IH.
Qed.

Lemma forallb_str_app (p : ascii -> bool) (a b : string) :
  forallb_str p (a ++ b) = forallb_str p a && forallb_str p b.
Proof.
  induction a as [|x a IH]; simpl; [reflexivity|]. now rewrite IH, andb_assoc.
Qed.

(** *** The matcher on literal text and on a name *)

Lemma mt_lit_cat_app (l : string) (r : regex) (k : kont) (pos : nat)
      (s : string) (c : caps) :
  mt (lit_cat l r) k pos (l ++ s) c = mt r k (pos + String.length l) s c.
Proof.
  revert pos. induction l as [|a l IH]; intros pos; cbn [lit_cat append String.length].
  - now rewrite Nat.add_0_r.
  - rewrite mt_Cat, mt_Chr, Ascii.eqb_refl, IH. f_equal. lia.
Qed.

Lemma mt_lit_cat_fail (l : string) (r : regex) (k : kont) (pos : nat)
      (s : string) (c : caps) :
  Py.startswith l s = false -> mt (lit_cat l r) k pos s c = None.
Proof.
  revert pos s. induction l as [|a l IH]; intros pos s; cbn [lit_cat Py.startswith];
    [discriminate|].
  destruct s as [|b s]; [reflexivity|]. rewrite mt_Cat, mt_Chr.
  destruct (Ascii.eqb a b); cbn [andb]; [apply IH | reflexivity].
Qed.

Lemma rep_chars_greedy_all (accept : ascii -> bool) (k : kont) (w s : string)
      (c : caps) (res : mres) :
  forallb_str accept w = true ->
  match s with String x _ => accept x = false | EmptyString => True end ->
  forall pos,
    k (pos + String.length w) s c = Some res ->
    rep_chars accept true k pos (w ++ s) c = Some res.
Proof.
  intros Hw Hs. induction w as [|a w IH]; intros pos Hk.
  - cbn [append String.length] in *. rewrite Nat.add_0_r in Hk.
    destruct s as [|x s]; cbn [rep_chars]; [exact Hk|]. now rewrite Hs.
  - cbn [forallb_str] in Hw. apply andb_prop in Hw. destruct Hw as [Ha Hw].
    cbn [append rep_chars]. rewrite Ha, (IH Hw (S pos)); [reflexivity|].
    rewrite <- Hk. f_equal. cbn [String.length]. lia.
Qed.

Lemma rep_chars_then_chr_none (accept : ascii -> bool) (greedy : bool)
      (k : kont) (stop : ascii) (c : caps) :
  accept stop = false ->
  (forall pos y s, y <> stop -> k pos (String y s) c = None) ->
  forall w x rest pos,
    forallb_str accept w = true -> accept x = false -> x <> stop ->
    rep_chars accept greedy k pos (w ++ String x rest) c = None.
Proof.
  intros Hstop Hk. induction w as [|a w IH]; intros x rest pos Hw Hx Hne.
  - cbn [append rep_chars]. rewrite Hx. now apply Hk.
  - cbn [forallb_str] in Hw. apply andb_prop in Hw. destruct Hw as [Ha Hw].
    cbn [append rep_chars]. rewrite Ha, (IH x rest (S pos) Hw Hx Hne).
    assert (Hka : k pos (String a (w ++ String x rest)) c = None).
    { apply Hk. intros ->. congruence. }
    rewrite Hka. now destruct greedy.
Qed.

Lemma Az_not_gt : Az ">" = false.
Proof. reflexivity. Qed.

(** A name followed by [>] matches [([A-z]+)>]. *)
Lemma name_tail_match (n b : string) (pos : nat) (c : caps) :
  n <> "" -> forallb_str Az n = true ->
  mt name_tail kdone pos (n ++ String ">" b) c
  = Some (pos + String.length n + 1, b, (1, n) :: c).
Proof.
  intros Hne Hn. unfold name_tail.
  rewrite mt_Cat, mt_Grp, mt_Cat, mt_Plus_Cls.
  destruct n as [|a n]; [congruence|]. cbn [forallb_str] in Hn.
  apply andb_prop in Hn. destruct Hn as [Ha Hn]. cbn [append].
  fold (Az a). rewrite Ha.
  apply rep_chars_greedy_all; [exact Hn | exact Az_not_gt |].
  rewrite mt_Eps, mt_Cat, mt_Chr, Ascii.eqb_refl, mt_Eps. unfold kdone.
  replace (S pos + String.length n - pos) with (String.length (String a n))
    by (cbn [String.length]; lia).
  change (String a (n ++ String ">" b)) with (String a n ++ String ">" b).
  rewrite substring_prefix. do 3 f_equal. cbn [String.length]. lia.
Qed.

(** Accepted characters followed by a character that is neither accepted
    nor [>] do not match it. *)
Lemma name_tail_fail (w : string) (x : ascii) (rest : string) (pos : nat)
      (c : caps) :
  forallb_str Az w = true -> Az x = false -> x <> ">"%char ->
  mt name_tail kdone pos (w ++ String x rest) c = None.
Proof.
  intros Hw Hx Hne. unfold name_tail.
  rewrite mt_Cat, mt_Grp, mt_Cat, mt_Plus_Cls.
  destruct w as [|a w]; cbn [append].
  - fold (Az x). now rewrite Hx.
  - cbn [forallb_str] in Hw. apply andb_prop in Hw. destruct Hw as [Ha Hw].
    fold (Az a). rewrite Ha.
    apply (rep_chars_then_chr_none Az true _ ">"%char);
      [reflexivity | | exact Hw | exact Hx | exact Hne].
    intros pos' y s Hy. rewrite mt_Eps, mt_Cat, mt_Chr.
    destruct (Ascii.eqb_spec ">" y) as [Heq|]; [congruence | reflexivity].
Qed.

(** *** The scan of [re.sub] over a piece of the subject *)

Lemma sub_scan_skip (r : regex) (t : list PyRe.titem) (a b : string) :
  forall pos,
    PyRe.sub_scan r t pos (String.length a) (a ++ b)
    = PyRe.sub_scan r t (pos + String.length a) 0 b.
Proof.
  induction a as [|x a IH]; intros pos; cbn [append String.length].
  - now rewrite Nat.add_0_r.
  - cbn [PyRe.sub_scan]. rewrite IH. f_equal. lia.
Qed.

Lemma sub_scan_hit (r : regex) (t : list PyRe.titem) (ch : ascii)
      (a b rest : string) (pos : nat) (c : caps) :
  match_at r pos (String ch (a ++ b))
  = Some (pos + S (String.length a), rest, c) ->
  PyRe.sub_scan r t pos 0 (String ch (a ++ b))
  = PyRe.expand t c ++ PyRe.sub_scan r t (pos + S (String.length a)) 0 b.
Proof.
  intros Hm. cbn [PyRe.sub_scan]. rewrite Hm.
  replace (pos + S (String.length a) - pos - 1) with (String.length a) by lia.
  rewrite sub_scan_skip. do 2 f_equal. lia.
Qed.

Lemma sub_scan_miss (r : regex) (t : list PyRe.titem) (ch : ascii)
      (s : string) (pos : nat) :
  match_at r pos (String ch s) = None ->
  PyRe.sub_scan r t pos 0 (String ch s)
  = String ch (PyRe.sub_scan r t (S pos) 0 s).
Proof. intros Hm. cbn [PyRe.sub_scan]. now rewrite Hm. Qed.

(** No match starts in a text without the first character of the
    expression. *)
Lemma sub_scan_inert (a0 : ascii) (l : string) (r : regex)
      (t : list PyRe.titem) (a b : string) :
  no_char a0 a = true ->
  forall pos,
    PyRe.sub_scan (lit_cat (String a0 l) r) t pos 0 (a ++ b)
    = a ++ PyRe.sub_scan (lit_cat (String a0 l) r) t (pos + String.length a) 0 b.
Proof.
  intros Ha. induction a as [|x a IH]; intros pos; cbn [append String.length].
  - now rewrite Nat.add_0_r.
  - cbn [no_char forallb_str] in Ha. apply andb_prop in Ha.
    destruct Ha as [Hx Ha]. rewrite sub_scan_miss.
    + rewrite (IH Ha), Nat.add_succ_r. reflexivity.
    + unfold match_at. cbn [lit_cat]. rewrite mt_Cat, mt_Chr.
      now destruct (Ascii.eqb a0 x).
Qed.

(** *** Names *)

Lemma name_char_Az (c : ascii) : name_char c = true -> Az c = true.
Proof.
  unfold name_char, Az, cls_accepts, in_items, is_alpha, is_upper, is_lower,
    in_range. cbn [existsb fst snd xorb orb].
  intros Hc. rewrite orb_false_r.
  apply orb_prop in Hc. destruct Hc as [Hc|Hc].
  - apply orb_prop in Hc. destruct Hc as [Hc|Hc];
      apply andb_prop in Hc; destruct Hc as [H1 H2];
      apply N.leb_le in H1; apply N.leb_le in H2;
      apply andb_true_intro; split; apply N.leb_le;
      change (code "A") with 65%N in *; change (code "Z") with 90%N in *;
      change (code "a") with 97%N in *; change (code "z") with 122%N in *; lia.
  - apply Ascii.eqb_eq in Hc. subst c. reflexivity.
Qed.

Lemma name_char_not (c x : ascii) :
  name_char x = false -> name_char c = true -> Ascii.eqb x c = false.
Proof.
  intros Hx Hc. apply Ascii.eqb_neq. intros ->. congruence.
Qed.

Lemma forallb_str_impl (p q : ascii -> bool) (s : string) :
  (forall c, p c = true -> q c = true) ->
  forallb_str p s = true -> forallb_str q s = true.
Proof.
  intros Hpq. induction s as [|c s IH]; cbn [forallb_str]; [trivial|].
  intros H. apply andb_prop in H. destruct H as [Hc Hs].
  now rewrite (Hpq c Hc), IH.
Qed.

Lemma valid_name_chars (n : string) :
  valid_name n = true -> n <> "" /\ forallb_str name_char n = true.
Proof. destruct n; [discriminate|]. intros H. split; [discriminate | exact H]. Qed.

Lemma valid_name_Az (n : string) :
  valid_name n = true -> n <> "" /\ forallb_str Az n = true.
Proof.
  intros H. apply valid_name_chars in H. destruct H as [Hne Hn].
  split; [exact Hne|]. revert Hn. apply forallb_str_impl. exact name_char_Az.
Qed.

Lemma name_no_char (a : ascii) (n : string) :
  name_char a = false -> forallb_str name_char n = true -> no_char a n = true.
Proof.
  intros Ha. apply forallb_str_impl. intros c Hc.
  now rewrite (name_char_not c a Ha Hc).
Qed.

Lemma no_char_app (a : ascii) (s1 s2 : string) :
  no_char a (s1 ++ s2) = no_char a s1 && no_char a s2.
Proof. apply forallb_str_app. Qed.

(** *** The three substitutions, item by item *)

Lemma expand_app_lit (l : string) (t : list PyRe.titem) (c : caps) :
  PyRe.expand (map PyRe.TLit (list_ascii_of_string l) ++ t)%list c
  = l ++ PyRe.expand t c.
Proof. induction l as [|a l IH]; cbn; [reflexivity | now rewrite IH]. Qed.

Section Stage.
Variable tag : string.        (* the literal start of the expression, after [<] *)
Variable t : list PyRe.titem.
Variable repl : string -> string.
Hypothesis Hrepl : forall n c, PyRe.expand t ((1, n) :: c) = repl n.

Let r : regex := lit_cat (String "<" tag) name_tail.

Lemma stage_lit (l b : string) (pos : nat) :
  no_char "<" l = true ->
  exists pos', PyRe.sub_scan r t pos 0 (l ++ b)
               = l ++ PyRe.sub_scan r t pos' 0 b.
Proof.
  intros Hl. eexists. unfold r. now rewrite sub_scan_inert.
Qed.

Lemma stage_hit (n b : string) (pos : nat) :
  valid_name n = true ->
  exists pos', PyRe.sub_scan r t pos 0 (String "<" tag ++ n ++ String ">" b)
               = repl n ++ PyRe.sub_scan r t pos' 0 b.
Proof.
  intros Hn. apply valid_name_Az in Hn. destruct Hn as [Hne Hn].
  exists (pos + S (String.length (tag ++ n ++ ">"))). cbn [append].
  replace (tag ++ n ++ String ">" b) with ((tag ++ n ++ ">") ++ b)
    by (now rewrite !append_assoc).
  rewrite (sub_scan_hit r t "<" (tag ++ n ++ ">") b b pos [(1, n)]).
  - now rewrite Hrepl.
  - unfold match_at, r.
    change (String "<" ((tag ++ n ++ ">") ++ b))
      with (String "<" (tag ++ n ++ ">") ++ b).
    replace (String "<" (tag ++ n ++ ">") ++ b)
      with (String "<" tag ++ (n ++ String ">" b))
      by (cbn [append]; now rewrite !append_assoc).
    rewrite mt_lit_cat_app, name_tail_match by assumption.
    rewrite !length_append. cbn [String.length].
    replace (pos + S (String.length tag) + String.length n + 1)
      with (pos + S (String.length tag + (String.length n + 1))) by lia.
    reflexivity.
Qed.
End Stage.

Lemma stage_miss (r : regex) (t : list PyRe.titem) (a0 : ascii) (l : string)
      (body b : string) (pos : nat) :
  r = lit_cat (String a0 l) name_tail ->
  match_at r pos (String a0 (body ++ b)) = None ->
  no_char a0 body = true ->
  exists pos', PyRe.sub_scan r t pos 0 (String a0 (body ++ b))
               = String a0 body ++ PyRe.sub_scan r t pos' 0 b.
Proof.
  intros -> Hm Hbody. eexists. rewrite sub_scan_miss by exact Hm.
  rewrite sub_scan_inert by exact Hbody. reflexivity.
Qed.

Lemma regex_plain_no_lt (l : string) :
  forallb_str regex_plain l = true -> no_char "<" l = true.
Proof.
  apply forallb_str_impl. intros c Hc. unfold regex_plain, str_mem in Hc.
  cbn [existsb_str] in Hc. rewrite Ascii.eqb_sym.
  destruct (Ascii.eqb c "<"); [discriminate | reflexivity].
Qed.

Lemma name_no_lt (n : string) : valid_name n = true -> no_char "<" n = true.
Proof.
  intros Hn. apply valid_name_chars in Hn. now apply name_no_char.
Qed.

Lemma expand_t1 (n : string) (c : caps) :
  PyRe.expand t1 ((1, n) :: c) = "<string:" ++ n ++ ">".
Proof. reflexivity. Qed.

Lemma expand_t2 (n : string) (c : caps) :
  PyRe.expand t2 ((1, n) :: c) = "(?P<" ++ n ++ ">[^/]+?)".
Proof. reflexivity. Qed.

Lemma expand_t3 (n : string) (c : caps) :
  PyRe.expand t3 ((1, n) :: c) = "(?P<" ++ n ++ ">.*)".
Proof. reflexivity. Qed.

Ltac norm_app := cbn [append]; rewrite ?append_assoc; cbn [append].

(** First substitution: [<name>] becomes [<string:name>]. *)
Lemma stage1_item (it : item) (b : string) (pos : nat) :
  item_ok it = true ->
  exists pos', PyRe.sub_scan r1 t1 pos 0 (source_text it ++ b)
               = typed_text it ++ PyRe.sub_scan r1 t1 pos' 0 b.
Proof.
  destruct it as [l|n|n|n]; cbn [item_ok source_text typed_text]; intros Hok.
  - apply (stage_lit "" t1); now apply regex_plain_no_lt.
  - destruct (stage_hit "" t1 _ expand_t1 n b pos Hok) as [pos' Hs].
    exists pos'. revert Hs. norm_app. intros Hs; exact Hs.
  - destruct (stage_miss r1 t1 "<" "" ("string:" ++ n ++ ">") b pos eq_refl)
      as [pos' Hs].
    + unfold match_at, r1. cbn [lit_cat]. rewrite mt_Cat, mt_Chr, Ascii.eqb_refl.
      norm_app.
      apply (name_tail_fail "string" ":"); reflexivity || discriminate.
    + rewrite !no_char_app, (name_no_lt n Hok). reflexivity.
    + exists pos'. revert Hs. norm_app. intros Hs; exact Hs.
  - destruct (stage_miss r1 t1 "<" "" ("path:" ++ n ++ ">") b pos eq_refl)
      as [pos' Hs].
    + unfold match_at, r1. cbn [lit_cat]. rewrite mt_Cat, mt_Chr, Ascii.eqb_refl.
      norm_app.
      apply (name_tail_fail "path" ":"); reflexivity || discriminate.
    + rewrite !no_char_app, (name_no_lt n Hok). reflexivity.
    + exists pos'. revert Hs. norm_app. intros Hs; exact Hs.
Qed.

(** Second substitution: [<string:name>] becomes a lazy group. *)
Lemma stage2_item (it : item) (b : string) (pos : nat) :
  item_ok it = true ->
  exists pos', PyRe.sub_scan r2 t2 pos 0 (typed_text it ++ b)
               = seg_text it ++ PyRe.sub_scan r2 t2 pos' 0 b.
Proof.
  destruct it as [l|n|n|n]; cbn [item_ok typed_text seg_text]; intros Hok.
  - apply (stage_lit "string:" t2); now apply regex_plain_no_lt.
  - destruct (stage_hit "string:" t2 _ expand_t2 n b pos Hok) as [pos' Hs].
    exists pos'. revert Hs. norm_app. intros Hs; exact Hs.
  - destruct (stage_hit "string:" t2 _ expand_t2 n b pos Hok) as [pos' Hs].
    exists pos'. revert Hs. norm_app. intros Hs; exact Hs.
  - destruct (stage_miss r2 t2 "<" "string:" ("path:" ++ n ++ ">") b pos eq_refl)
      as [pos' Hs].
    + unfold match_at, r2. now rewrite mt_lit_cat_fail.
    + rewrite !no_char_app, (name_no_lt n Hok). reflexivity.
    + exists pos'. revert Hs. norm_app. intros Hs; exact Hs.
Qed.

Lemma startswith_path_name (n rest : string) :
  forallb_str name_char n = true ->
  Py.startswith "path:" (n ++ String ">" rest) = false.
Proof.
  intros Hn.
  destruct n as [|c1 [|c2 [|c3 [|c4 [|c5 n]]]]]; cbn [append Py.startswith];
    try (now rewrite ?andb_false_r);
    try (cbn [Ascii.eqb Bool.eqb]; now rewrite ?andb_false_r).
  cbn [forallb_str] in Hn.
  repeat (apply andb_prop in Hn; let H := fresh "Hc" in destruct Hn as [H Hn]).
  rewrite (name_char_not c5 ":" eq_refl) by assumption.
  now rewrite ?andb_false_r.
Qed.

(** Third substitution: [<path:name>] becomes a greedy group. *)
Lemma stage3_item (it : item) (b : string) (pos : nat) :
  item_ok it = true ->
  exists pos', PyRe.sub_scan r3 t3 pos 0 (seg_text it ++ b)
               = regex_text it ++ PyRe.sub_scan r3 t3 pos' 0 b.
Proof.
  assert (Hseg : forall n, valid_name n = true ->
            exists pos', PyRe.sub_scan r3 t3 pos 0 (("(?P<" ++ n ++ ">[^/]+?)") ++ b)
                         = ("(?P<" ++ n ++ ">[^/]+?)") ++ PyRe.sub_scan r3 t3 pos' 0 b).
  { intros n Hok.
    destruct (stage_lit "path:" t3 "(?P" (String "<" ((n ++ ">[^/]+?)") ++ b)) pos eq_refl)
      as [pos1 H1].
    destruct (stage_miss r3 t3 "<" "path:" (n ++ ">[^/]+?)") b pos1 eq_refl)
      as [pos' Hs].
    - unfold match_at, r3. rewrite mt_lit_cat_fail; [reflexivity|].
      cbn [Py.startswith]. rewrite Ascii.eqb_refl. cbn [andb].
      rewrite append_assoc. cbn [append]. apply startswith_path_name.
      now apply valid_name_chars in Hok.
    - rewrite no_char_app, (name_no_lt n Hok). reflexivity.
    - exists pos'. unfold r3 in *. revert H1 Hs. norm_app. intros H1 Hs.
      rewrite H1, Hs. reflexivity. }
  destruct it as [l|n|n|n]; cbn [item_ok seg_text regex_text]; intros Hok.
  - apply (stage_lit "path:" t3); now apply regex_plain_no_lt.
  - now apply Hseg.
  - now apply Hseg.
  - destruct (stage_hit "path:" t3 _ expand_t3 n b pos Hok) as [pos' Hs].
    exists pos'. revert Hs. norm_app. intros Hs; exact Hs.
Qed.

Lemma stage_items (r : regex) (t : list PyRe.titem) (f g : item -> string)
      (items : list item) :
  (forall it b pos, item_ok it = true ->
      exists pos', PyRe.sub_scan r t pos 0 (f it ++ b)
                   = g it ++ PyRe.sub_scan r t pos' 0 b) ->
  forallb item_ok items = true ->
  forall pos, PyRe.sub_scan r t pos 0 (render f items) = render g items.
Proof.
  intros Hitem. induction items as [|it items IH]; intros Hok pos;
    cbn [render]; [reflexivity|].
  cbn [forallb] in Hok. apply andb_prop in Hok. destruct Hok as [Hit Hok].
  destruct (Hitem it (render f items) pos Hit) as [pos' ->].
  now rewrite IH.
Qed.

(** *** The parser on the text of a compiled pattern *)

Lemma parse_loop_app (a b : string) (st : pst) :
  parse_loop (a ++ b) st
  = match parse_loop a st with
    | inl f => inl f
    | inr st' => parse_loop b st'
    end.
Proof.
  revert st. induction a as [|c a IH]; intros st; cbn [append parse_loop];
    [reflexivity|].
  destruct (step c st); [reflexivity | apply IH].
Qed.

Lemma regex_plain_step (c : ascii) (cur : list (regex * qstate)) (g : nat)
      (nm : list (string * nat)) :
  regex_plain c = true ->
  step c (top_state cur g nm) = inr (top_state ((Chr c, QAtom) :: cur) g nm).
Proof.
  unfold regex_plain, str_mem. cbn [existsb_str]. intros Hc.
  apply negb_true_iff in Hc.
  repeat (apply orb_false_elim in Hc; let H := fresh "Hc" in destruct Hc as [H Hc]).
  unfold step, top_state. cbn [p_mode]. unfold step_normal.
  rewrite Hc1, Hc2, Hc3, Hc4, Hc5, Hc6, Hc7, Hc8, Hc9, Hc10, Hc11, Hc12.
  reflexivity.
Qed.

Lemma parse_lit (t rest : string) (cur : list (regex * qstate)) (g : nat)
      (nm : list (string * nat)) :
  forallb_str regex_plain t = true ->
  parse_loop (t ++ rest) (top_state cur g nm)
  = parse_loop rest (top_state (push_chars t cur) g nm).
Proof.
  revert cur. induction t as [|c t IH]; intros cur Ht; [reflexivity|].
  cbn [forallb_str] in Ht. apply andb_prop in Ht. destruct Ht as [Hc Ht].
  cbn [append parse_loop push_chars]. rewrite regex_plain_step by exact Hc.
  now apply IH.
Qed.

Lemma parse_name (n rest acc : string) (top : frame) (stack : list frame)
      (g : nat) (nm : list (string * nat)) :
  no_char ">" n = true ->
  parse_loop (n ++ rest) (mkPst (MName acc) top stack g nm)
  = parse_loop rest (mkPst (MName (str_rev_app n acc)) top stack g nm).
Proof.
  revert acc. induction n as [|c n IH]; intros acc Hn; [reflexivity|].
  cbn [no_char forallb_str] in Hn. apply andb_prop in Hn.
  destruct Hn as [Hc Hn]. cbn [append parse_loop str_rev_app].
  unfold step. cbn [p_mode]. rewrite Ascii.eqb_sym.
  apply negb_true_iff in Hc. rewrite Hc. unfold set_mode. cbn.
  now apply IH.
Qed.

Lemma str_rev_app_twice (n acc b : string) :
  str_rev_app (str_rev_app n acc) b = str_rev_app acc (n ++ b).
Proof.
  revert acc. induction n as [|c n IH]; intros acc; [reflexivity|].
  cbn [str_rev_app append]. now rewrite IH.
Qed.

Lemma str_rev_rev (n : string) : str_rev (str_rev_app n "") = n.
Proof.
  unfold str_rev. rewrite str_rev_app_twice. cbn [str_rev_app].
  apply append_nil_r.
Qed.

Lemma name_char_ascii (c : ascii) : name_char c = true -> is_ascii c = true.
Proof.
  intros Hc. apply name_char_Az in Hc. unfold Az, cls_accepts, in_items in Hc.
  cbn [existsb xorb fst snd] in Hc. rewrite orb_false_r in Hc.
  unfold in_range in Hc. apply andb_prop in Hc. destruct Hc as [_ Hc].
  apply N.leb_le in Hc. change (code "z") with 122%N in Hc.
  unfold is_ascii. apply N.ltb_lt. lia.
Qed.

Lemma name_char_ident (c : ascii) : name_char c = true -> is_ident_char c = true.
Proof.
  unfold name_char, is_ident_char, is_ident_start. intros ->. reflexivity.
Qed.

Lemma valid_name_identifier (n : string) :
  valid_name n = true ->
  forallb_str is_ascii n = true /\ is_identifier n = true.
Proof.
  intros Hn. apply valid_name_chars in Hn. destruct Hn as [Hne Hn]. split.
  - revert Hn. apply forallb_str_impl. exact name_char_ascii.
  - destruct n as [|c n]; [congruence|]. cbn [forallb_str] in Hn.
    apply andb_prop in Hn. destruct Hn as [Hc Hn]. cbn [is_identifier].
    unfold is_ident_start. fold (name_char c). rewrite Hc. cbn [andb].
    revert Hn. apply forallb_str_impl. exact name_char_ident.
Qed.

Lemma close_name_valid (n : string) (st : pst) :
  valid_name n = true -> name_defined n (p_names st) = false ->
  close_name (str_rev_app n "") st = inr (open_group true (Some n) st).
Proof.
  intros Hn Hdef. unfold close_name. rewrite str_rev_rev.
  destruct (valid_name_identifier n Hn) as [Hascii Hid].
  destruct n as [|c n]; [discriminate|].
  now rewrite Hascii, Hid, Hdef.
Qed.

Lemma name_no_gt (n : string) : valid_name n = true -> no_char ">" n = true.
Proof.
  intros Hn. apply valid_name_chars in Hn. now apply name_no_char.
Qed.

(** The state after [(?P<name>]. *)
Lemma parse_group_open (n rest : string) (cur : list (regex * qstate))
      (g : nat) (nm : list (string * nat)) :
  valid_name n = true -> name_defined n nm = false ->
  parse_loop ("(?P<" ++ n ++ String ">" rest) (top_state cur g nm)
  = parse_loop rest
      (mkPst MNormal (mkFrame [] [] (Some (S g))) [mkFrame [] cur None] (S g)
             (nm ++ [(n, S g)])%list).
Proof.
  intros Hn Hdef.
  change ("(?P<" ++ n ++ String ">" rest)
    with (String "(" (String "?" (String "P" (String "<" (n ++ String ">" rest))))).
  cbn [parse_loop]. unfold top_state.
  change (step "(" (mkPst MNormal (mkFrame [] cur None) [] g nm))
    with (@inr fail pst (mkPst MParen (mkFrame [] cur None) [] g nm)).
  cbv iota beta.
  change (step "?" (mkPst MParen (mkFrame [] cur None) [] g nm))
    with (@inr fail pst (mkPst MParenQ (mkFrame [] cur None) [] g nm)).
  cbv iota beta.
  change (step "P" (mkPst MParenQ (mkFrame [] cur None) [] g nm))
    with (@inr fail pst (mkPst MParenQP (mkFrame [] cur None) [] g nm)).
  cbv iota beta.
  change (step "<" (mkPst MParenQP (mkFrame [] cur None) [] g nm))
    with (@inr fail pst (mkPst (MName "") (mkFrame [] cur None) [] g nm)).
  cbv iota beta.
  rewrite parse_name by now apply name_no_gt.
  cbn [parse_loop]. unfold step. cbn [p_mode]. rewrite Ascii.eqb_refl.
  rewrite close_name_valid by assumption. reflexivity.
Qed.

Lemma parse_seg (n rest : string) (cur : list (regex * qstate)) (g : nat)
      (nm : list (string * nat)) :
  valid_name n = true -> name_defined n nm = false ->
  parse_loop (("(?P<" ++ n ++ ">[^/]+?)") ++ rest) (top_state cur g nm)
  = parse_loop rest
      (top_state ((seg_group (S g), QAtom) :: cur) (S g) (nm ++ [(n, S g)])%list).
Proof.
  intros Hn Hdef.
  replace (("(?P<" ++ n ++ ">[^/]+?)") ++ rest)
    with ("(?P<" ++ n ++ String ">" ("[^/]+?)" ++ rest))
    by (cbn [append]; rewrite append_assoc; reflexivity).
  rewrite parse_group_open by assumption. reflexivity.
Qed.

Lemma parse_path (n rest : string) (cur : list (regex * qstate)) (g : nat)
      (nm : list (string * nat)) :
  valid_name n = true -> name_defined n nm = false ->
  parse_loop (("(?P<" ++ n ++ ">.*)") ++ rest) (top_state cur g nm)
  = parse_loop rest
      (top_state ((path_group (S g), QAtom) :: cur) (S g) (nm ++ [(n, S g)])%list).
Proof.
  intros Hn Hdef.
  replace (("(?P<" ++ n ++ ">.*)") ++ rest)
    with ("(?P<" ++ n ++ String ">" (".*)" ++ rest))
    by (cbn [append]; rewrite append_assoc; reflexivity).
  rewrite parse_group_open by assumption. reflexivity.
Qed.

Lemma group_names_fst (g : nat) (items : list item) :
  map fst (group_names g items) = item_names items.
Proof.
  revert g. induction items as [|[t|n|n|n] items IH]; intros g;
    cbn [group_names item_names map fst]; now rewrite ?IH.
Qed.

Lemma name_defined_false (n : string) (nm : list (string * nat)) :
  ~ In n (map fst nm) -> name_defined n nm = false.
Proof.
  unfold name_defined. induction nm as [|[m i] nm IH]; cbn [existsb map fst In];
    [reflexivity|].
  intros Hnot. destruct (String.eqb_spec n m) as [->|Hne].
  - exfalso. apply Hnot. now left.
  - cbn [orb]. apply IH. intros Hin. apply Hnot. now right.
Qed.

Lemma parse_items (items : list item) :
  forall (rest : string) (cur : list (regex * qstate)) (g : nat)
         (nm : list (string * nat)),
    forallb item_ok items = true ->
    NoDup (map fst nm ++ item_names items) ->
    parse_loop (render regex_text items ++ rest) (top_state cur g nm)
    = parse_loop rest
        (top_state (push_items g items cur) (g + group_count items)
                   (nm ++ group_names g items)%list).
Proof.
  induction items as [|it items IH]; intros rest cur g nm Hok Hnd.
  - cbn [render append push_items group_count group_names].
    now rewrite Nat.add_0_r, app_nil_r.
  - cbn [forallb] in Hok. apply andb_prop in Hok. destruct Hok as [Hit Hok].
    cbn [render]. rewrite append_assoc.
    assert (Hgrp : forall n,
               item_names (it :: items) = n :: item_names items ->
               name_defined n nm = false
               /\ NoDup (map fst (nm ++ [(n, S g)]) ++ item_names items)).
    { intros n Heq. rewrite Heq in Hnd. split.
      - apply name_defined_false. intros Hin.
        apply NoDup_remove_2 in Hnd. apply Hnd. apply in_or_app. now left.
      - rewrite map_app, <- app_assoc. exact Hnd. }
    destruct it as [t|n|n|n]; cbn [item_ok regex_text] in *.
    + rewrite parse_lit by exact Hit. cbn [push_items group_count group_names].
      now apply IH.
    + destruct (Hgrp n eq_refl) as [Hdef Hnd'].
      rewrite parse_seg by assumption. rewrite IH by assumption.
      cbn [push_items group_count group_names].
      rewrite <- app_assoc, Nat.add_succ_r. reflexivity.
    + destruct (Hgrp n eq_refl) as [Hdef Hnd'].
      rewrite parse_seg by assumption. rewrite IH by assumption.
      cbn [push_items group_count group_names].
      rewrite <- app_assoc, Nat.add_succ_r. reflexivity.
    + destruct (Hgrp n eq_refl) as [Hdef Hnd'].
      rewrite parse_path by assumption. rewrite IH by assumption.
      cbn [push_items group_count group_names].
      rewrite <- app_assoc, Nat.add_succ_r. reflexivity.
Qed.

Lemma push_chars_nodes (t : string) (cur : list (regex * qstate)) :
  map fst (rev (push_chars t cur)) = (map fst (rev cur) ++ chr_nodes t)%list.
Proof.
  revert cur. induction t as [|c t IH]; intros cur; cbn [push_chars chr_nodes].
  - now rewrite app_nil_r.
  - rewrite IH. cbn [rev]. rewrite map_app, <- app_assoc. reflexivity.
Qed.

Lemma push_items_nodes (items : list item) :
  forall (g : nat) (cur : list (regex * qstate)),
    map fst (rev (push_items g items cur))
    = (map fst (rev cur) ++ nodes g items)%list.
Proof.
  induction items as [|[t|n|n|n] items IH]; intros g cur;
    cbn [push_items nodes].
  - now rewrite app_nil_r.
  - now rewrite IH, push_chars_nodes, <- app_assoc.
  - rewrite IH. cbn [rev]. rewrite map_app, <- app_assoc. reflexivity.
  - rewrite IH. cbn [rev]. rewrite map_app, <- app_assoc. reflexivity.
  - rewrite IH. cbn [rev]. rewrite map_app, <- app_assoc. reflexivity.
Qed.

Lemma compile_items (items : list item) :
  forallb item_ok items = true ->
  NoDup (item_names items) ->
  compile ("^" ++ render regex_text items ++ "$")
  = Ok (mkCompiled (items_regex items) (group_count items)
                   (group_names 0 items)).
Proof.
  intros Hok Hnd. unfold compile.
  change ("^" ++ render regex_text items ++ "$")
    with (String "^" (render regex_text items ++ "$")).
  cbn [parse_loop].
  change (step "^" parse_init)
    with (@inr fail pst (top_state [(Bol, QAnchor)] 0 [])).
  cbv iota beta. rewrite parse_items by assumption.
  cbn [parse_loop app Nat.add].
  unfold step, top_state. cbn [p_mode]. 
  change (step_normal "$" ?st) with (@inr fail pst (push_item Eol QAnchor st)).
  cbv iota beta. unfold parse_finish, push_item. cbn [p_stack p_mode p_top p_ngroups p_names f_alts f_cur f_grp].
  unfold frame_regex. cbn [f_cur f_alts rev app alt_of].
  unfold seq_of, items_regex. cbn [rev]. rewrite map_app, push_items_nodes.
  reflexivity.
Qed.

(** *** What a successful match of a compiled pattern has captured *)

Lemma not_slash_mem (v : string) :
  forallb_str not_slash v = true -> str_mem "/" v = false.
Proof.
  unfold str_mem. induction v as [|c v IH]; cbn [forallb_str existsb_str];
    [reflexivity|].
  intros Hc. apply andb_prop in Hc. destruct Hc as [Hc Hv].
  rewrite (IH Hv), orb_false_r.
  unfold not_slash, cls_accepts, in_items, in_range in Hc.
  cbn [existsb fst snd xorb] in Hc. rewrite orb_false_r in Hc.
  apply Ascii.eqb_neq. intros <-. rewrite N.leb_refl in Hc. discriminate.
Qed.

Lemma rep_chars_inv (accept : ascii -> bool) (greedy : bool) (k : kont)
      (c : caps) (res : mres) :
  forall s pos,
    rep_chars accept greedy k pos s c = Some res ->
    exists w s', s = w ++ s' /\ forallb_str accept w = true
                 /\ k (pos + String.length w) s' c = Some res.
Proof.
  induction s as [|b s IH]; intros pos Hr; cbn [rep_chars] in Hr.
  - exists "", "". rewrite Nat.add_0_r. now repeat split.
  - assert (Hhere : k pos (String b s) c = Some res ->
                    exists w s', String b s = w ++ s'
                                 /\ forallb_str accept w = true
                                 /\ k (pos + String.length w) s' c = Some res).
    { intros Hk. exists "", (String b s). rewrite Nat.add_0_r. now repeat split. }
    assert (Hmore : accept b = true ->
                    rep_chars accept greedy k (S pos) s c = Some res ->
                    exists w s', String b s = w ++ s'
                                 /\ forallb_str accept w = true
                                 /\ k (pos + String.length w) s' c = Some res).
    { intros Hb Hrec. destruct (IH _ Hrec) as [w [s' [-> [Hw Hk]]]].
      exists (String b w), s'. cbn [append forallb_str String.length].
      rewrite Hb, Hw, Nat.add_succ_r. now repeat split. }
    destruct (accept b) eqn:Hb; [|now apply Hhere].
    destruct greedy.
    + destruct (rep_chars accept true k (S pos) s c) eqn:E.
      * injection Hr as ->. now apply Hmore.
      * now apply Hhere.
    + destruct (k pos (String b s) c) eqn:E.
      * injection Hr as ->. now apply Hhere.
      * now apply Hmore.
Qed.

Lemma mt_chr_nodes_inv (t : string) (r : regex) (k : kont) (res : mres) :
  forall pos s c,
    mt (fold_right Cat r (chr_nodes t)) k pos s c = Some res ->
    exists s', s = t ++ s' /\ mt r k (pos + String.length t) s' c = Some res.
Proof.
  induction t as [|a t IH]; intros pos s c Hm; cbn [chr_nodes fold_right] in Hm.
  - exists s. rewrite Nat.add_0_r. now split.
  - rewrite mt_Cat in Hm. destruct s as [|b s]; [discriminate|].
    rewrite mt_Chr in Hm. destruct (Ascii.eqb_spec a b) as [<-|]; [|discriminate].
    destruct (IH _ _ _ Hm) as [s' [-> Hk]]. exists s'.
    cbn [append String.length]. rewrite Nat.add_succ_r. now split.
Qed.

Lemma mt_seg_group_inv (i : nat) (r : regex) (k : kont) (pos : nat)
      (s : string) (c : caps) (res : mres) :
  mt (Cat (seg_group i) r) k pos s c = Some res ->
  exists v s', s = v ++ s' /\ forallb_str not_slash v = true /\ v <> ""
               /\ mt r k (pos + String.length v) s' ((i, v) :: c) = Some res.
Proof.
  unfold seg_group. rewrite mt_Cat, mt_Grp, mt_Cat, mt_Plus_Cls.
  destruct s as [|b s]; [discriminate|]. fold (not_slash b).
  destruct (not_slash b) eqn:Hb; [|discriminate].
  intros Hr. apply rep_chars_inv in Hr. destruct Hr as [w [s' [-> [Hw Hk]]]].
  rewrite mt_Eps in Hk. exists (String b w), s'.
  change (forallb_str not_slash w = true) in Hw.
  cbn [append forallb_str String.length]. rewrite Hb, Hw.
  repeat split; [discriminate|].
  replace (S pos + String.length w - pos) with (String.length (String b w)) in Hk
    by (cbn [String.length]; lia).
  change (String b (w ++ s')) with (String b w ++ s') in Hk.
  rewrite substring_prefix in Hk. rewrite Nat.add_succ_r. exact Hk.
Qed.

Lemma mt_path_group_inv (i : nat) (r : regex) (k : kont) (pos : nat)
      (s : string) (c : caps) (res : mres) :
  mt (Cat (path_group i) r) k pos s c = Some res ->
  exists v s', s = v ++ s' /\ forallb_str not_newline v = true
               /\ mt r k (pos + String.length v) s' ((i, v) :: c) = Some res.
Proof.
  unfold path_group. rewrite mt_Cat, mt_Grp, mt_Cat, mt_Star_Dot.
  intros Hr. apply rep_chars_inv in Hr. destruct Hr as [w [s' [-> [Hw Hk]]]].
  rewrite mt_Eps in Hk. exists w, s'. repeat split; [exact Hw|].
  replace (pos + String.length w - pos) with (String.length w) in Hk by lia.
  now rewrite substring_prefix in Hk.
Qed.

Lemma mt_nodes_inv (items : list item) (r : regex) (k : kont) (res : mres) :
  forall g pos s c,
    mt (fold_right Cat r (nodes g items)) k pos s c = Some res ->
    exists vals s',
      vals_ok items vals /\ s = filled items vals ++ s'
      /\ mt r k (pos + String.length (filled items vals)) s'
            (captured g items vals c) = Some res.
Proof.
  induction items as [|it items IH]; intros g pos s c Hm.
  - exists [], s. cbn [filled String.length append]. rewrite Nat.add_0_r.
    now repeat split.
  - destruct it as [t|n|n|n]; cbn [nodes] in Hm.
    + rewrite fold_right_app in Hm. apply mt_chr_nodes_inv in Hm.
      destruct Hm as [s1 [-> Hm]]. apply IH in Hm.
      destruct Hm as [vals [s' [Hok [-> Hm]]]]. exists vals, s'.
      cbn [vals_ok filled captured]. rewrite append_assoc, length_append.
      rewrite Nat.add_assoc. now repeat split.
    + cbn [fold_right] in Hm. apply mt_seg_group_inv in Hm.
      destruct Hm as [v [s1 [-> [Hv [Hne Hm]]]]]. apply IH in Hm.
      destruct Hm as [vals [s' [Hok [-> Hm]]]]. exists (v :: vals), s'.
      cbn [vals_ok filled captured]. rewrite append_assoc, length_append.
      rewrite Nat.add_assoc. now repeat split.
    + cbn [fold_right] in Hm. apply mt_seg_group_inv in Hm.
      destruct Hm as [v [s1 [-> [Hv [Hne Hm]]]]]. apply IH in Hm.
      destruct Hm as [vals [s' [Hok [-> Hm]]]]. exists (v :: vals), s'.
      cbn [vals_ok filled captured]. rewrite append_assoc, length_append.
      rewrite Nat.add_assoc. now repeat split.
    + cbn [fold_right] in Hm. apply mt_path_group_inv in Hm.
      destruct Hm as [v [s1 [-> [Hv Hm]]]]. apply IH in Hm.
      destruct Hm as [vals [s' [Hok [-> Hm]]]]. exists (v :: vals), s'.
      cbn [vals_ok filled captured]. rewrite append_assoc, length_append.
      rewrite Nat.add_assoc. now repeat split.
Qed.

Lemma captured_old (items : list item) :
  forall g vals c i,
    i <= g -> group i (captured g items vals c) = group i c.
Proof.
  induction items as [|it items IH]; intros g vals c i Hi; [reflexivity|].
  assert (Hstep : forall v vals',
             group i (captured (S g) items vals' ((S g, v) :: c)) = group i c).
  { intros v vals'. rewrite IH by lia. cbn [group].
    destruct (Nat.eqb_spec i (S g)); [lia | reflexivity]. }
  destruct it as [t|n|n|n]; cbn [captured];
    [now apply IH | | |]; (destruct vals as [|v vals']; [reflexivity | apply Hstep]).
Qed.

Lemma captured_seg (items : list item) :
  forall g vals c n,
    vals_ok items vals ->
    In (Seg n) items \/ In (SegT n) items ->
    exists i v, In (n, i) (group_names g items)
                /\ group i (captured g items vals c) = Some v
                /\ forallb_str not_slash v = true /\ v <> "".
Proof.
  induction items as [|it items IH]; intros g vals c n Hok Hin.
  - destruct Hin as [[]|[]].
  - assert (Htail : In (Seg n) items \/ In (SegT n) items ->
               forall g' vals' c', vals_ok items vals' ->
               exists i v, In (n, i) (group_names g' items)
                           /\ group i (captured g' items vals' c') = Some v
                           /\ forallb_str not_slash v = true /\ v <> "").
    { intros Hin' g' vals' c' Hok'. now apply IH. }
    assert (Hhead : forall v vals',
               forallb_str not_slash v = true -> v <> "" ->
               group (S g) (captured (S g) items vals' ((S g, v) :: c)) = Some v).
    { intros v vals' _ _. rewrite captured_old by lia. cbn [group].
      now rewrite Nat.eqb_refl. }
    destruct it as [t|m|m|m]; cbn [vals_ok captured group_names] in *.
    + apply Htail; [|exact Hok].
      destruct Hin as [[Heq|Hin]|[Heq|Hin]]; try discriminate; auto.
    + destruct vals as [|v vals']; [destruct Hok|].
      destruct Hok as [[Hv Hne] Hok].
      destruct Hin as [[Heq|Hin]|[Heq|Hin]]; try discriminate.
      * injection Heq as ->. exists (S g), v.
        repeat split; auto. now left.
      * destruct (Htail (or_introl Hin) (S g) vals' ((S g, v) :: c) Hok)
          as [i [v' [Hi H']]]. exists i, v'. split; [now right | exact H'].
      * destruct (Htail (or_intror Hin) (S g) vals' ((S g, v) :: c) Hok)
          as [i [v' [Hi H']]]. exists i, v'. split; [now right | exact H'].
    + destruct vals as [|v vals']; [destruct Hok|].
      destruct Hok as [[Hv Hne] Hok].
      destruct Hin as [[Heq|Hin]|[Heq|Hin]]; try discriminate.
      * destruct (Htail (or_introl Hin) (S g) vals' ((S g, v) :: c) Hok)
          as [i [v' [Hi H']]]. exists i, v'. split; [now right | exact H'].
      * injection Heq as ->. exists (S g), v.
        repeat split; auto. now left.
      * destruct (Htail (or_intror Hin) (S g) vals' ((S g, v) :: c) Hok)
          as [i [v' [Hi H']]]. exists i, v'. split; [now right | exact H'].
    + destruct vals as [|v vals']; [destruct Hok|].
      destruct Hok as [Hv Hok].
      destruct Hin as [[Heq|Hin]|[Heq|Hin]]; try discriminate.
      * destruct (Htail (or_introl Hin) (S g) vals' ((S g, v) :: c) Hok)
          as [i [v' [Hi H']]]. exists i, v'. split; [now right | exact H'].
      * destruct (Htail (or_intror Hin) (S g) vals' ((S g, v) :: c) Hok)
          as [i [v' [Hi H']]]. exists i, v'. split; [now right | exact H'].
Qed.

Lemma lookup_groupdict (names : list (string * nat)) (c : caps) (n : string)
      (i : nat) :
  NoDup (map fst names) -> In (n, i) names ->
  Py.lookup n (map (fun e => (fst e, group (snd e) c)) names)
  = Some (group i c).
Proof.
  induction names as [|[m j] names IH]; intros Hnd Hin; [destruct Hin|].
  cbn [map fst snd Py.lookup]. inversion Hnd as [|? ? Hnot Hnd']; subst.
  destruct Hin as [Heq|Hin].
  - injection Heq as -> ->. now rewrite String.eqb_refl.
  - destruct (String.eqb_spec n m) as [->|Hne].
    + exfalso. apply Hnot. change m with (fst (m, i)). now apply in_map.
    + now apply IH.
Qed.

Lemma search_from_bol_later (r : regex) (s : string) :
  forall pos, search_from (Cat Bol r) (S pos) s = None.
Proof.
  induction s as [|b s IH]; intros pos; cbn [search_from]; unfold match_at;
    rewrite mt_Cat; cbn [mt Nat.eqb]; [reflexivity | apply IH].
Qed.

Lemma search_from_bol (r : regex) (s : string) :
  search_from (Cat Bol r) 0 s
  = match mt r kdone 0 s [] with
    | Some (pos', _, c) => Some (0, pos', c)
    | None => None
    end.
Proof.
  destruct s as [|b s]; cbn [search_from]; unfold match_at; rewrite mt_Cat;
    cbn [mt Nat.eqb].
  - now destruct (mt r kdone 0 "" []) as [[[? ?] ?]|].
  - destruct (mt r kdone 0 (String b s) []) as [[[? ?] ?]|]; [reflexivity|].
    apply search_from_bol_later.
Qed.

Lemma items_regex_cat (items : list item) :
  items_regex items
  = Cat Bol (fold_right Cat (Cat Eol Eps) (nodes 0 items)).
Proof. unfold items_regex. cbn [fold_right]. now rewrite fold_right_app. Qed.

(** A match of the compiled pattern: the path is the literals filled with
    values, and these are what the groups have captured. *)
Lemma search_items_inv (items : list item) (path : string)
      (res : nat * nat * caps) :
  search_from (items_regex items) 0 path = Some res ->
  exists vals s',
    vals_ok items vals /\ path = filled items vals ++ s' /\ at_eol s' = true
    /\ snd res = captured 0 items vals [].
Proof.
  rewrite items_regex_cat, search_from_bol.
  destruct (mt _ kdone 0 path []) as [[[pos' s1] c]|] eqn:E; [|discriminate].
  intros [= <-]. apply mt_nodes_inv in E.
  destruct E as [vals [s' [Hok [-> Hm]]]]. exists vals, s'.
  rewrite mt_Cat in Hm. cbn [mt] in Hm.
  destruct (at_eol s') eqn:He; [|discriminate].
  unfold kdone in Hm. injection Hm as _ _ <-. now repeat split.
Qed.

(** *** [UrlRule.__init__] on a pattern of literals and placeholders *)

Lemma sub_kw (s : string) :
  PyRe.sub UrlRule.kw_pattern "{\1}" s = Ok (PyRe.sub_scan kw_regex tkw 0 0 s).
Proof. reflexivity. Qed.

Lemma findall_kw (s : string) :
  PyRe.findall UrlRule.kw_pattern s = Ok (PyRe.findall_scan kw_regex 1 0 0 s).
Proof. reflexivity. Qed.

Lemma sub_plain (s : string) :
  PyRe.sub "<([A-z]+)>" "<string:\1>" s = Ok (PyRe.sub_scan r1 t1 0 0 s).
Proof. reflexivity. Qed.

Lemma sub_string (s : string) :
  PyRe.sub "<string:([A-z]+)>" "(?P<\1>[^/]+?)" s
  = Ok (PyRe.sub_scan r2 t2 0 0 s).
Proof. reflexivity. Qed.

Lemma sub_path (s : string) :
  PyRe.sub "<path:([A-z]+)>" "(?P<\1>.*)" s = Ok (PyRe.sub_scan r3 t3 0 0 s).
Proof. reflexivity. Qed.

Lemma init_items (pattern : string) (items : list item) :
  UrlRule.stripped pattern = render source_text items ->
  well_formed items ->
  UrlRule.init pattern = Ok (items_rule items).
Proof.
  intros Hs [Hok Hnd]. unfold UrlRule.init, items_rule. rewrite Hs.
  rewrite sub_kw, findall_kw, sub_plain. cbn [bind].
  rewrite (stage_items r1 t1 source_text typed_text items stage1_item Hok).
  rewrite sub_string. cbn [bind].
  rewrite (stage_items r2 t2 typed_text seg_text items stage2_item Hok).
  rewrite sub_path. cbn [bind].
  rewrite (stage_items r3 t3 seg_text regex_text items stage3_item Hok).
  rewrite compile_items by assumption. reflexivity.
Qed.

(** C10, as the code has it: for a pattern whose text outside the
    placeholders has none of the characters that are special in a regular
    expression, and whose placeholders have distinct names of letters and
    underscores, the rule compiles and, whenever [match] succeeds, the
    value of each segment placeholder is a non-empty string without a
    slash. *)
Theorem segment_values_nonempty_no_slash
        (pattern : string) (items : list item) (path : string) :
  UrlRule.stripped pattern = render source_text items ->
  well_formed items ->
  exists rule,
    UrlRule.init pattern = Ok rule
    /\ forall d n,
        UrlRule.match_ rule path = Some d ->
        In (Seg n) items \/ In (SegT n) items ->
        exists v, Py.lookup n d = Some (Some v)
                  /\ v <> "" /\ str_mem "/" v = false.
Proof.
  intros Hs Hwf. exists (items_rule items).
  split; [apply init_items; assumption|].
  intros d n Hm Hin. unfold UrlRule.match_, PyRe.search in Hm.
  cbn [items_rule UrlRule._regex items_compiled re_ast] in Hm.
  destruct (search_from (items_regex items) 0 path) as [[[st en] c]|] eqn:E;
    [|discriminate].
  injection Hm as <-. apply search_items_inv in E.
  destruct E as [vals [s' [Hok [_ [_ Hc]]]]]. cbn [snd] in Hc. subst c.
  destruct (captured_seg items 0 vals [] n Hok Hin) as [i [v [Hi [Hg [Hv Hne]]]]].
  exists v. unfold PyRe.groupdict.
  cbn [items_rule UrlRule._regex items_compiled re_names].
  rewrite (lookup_groupdict (group_names 0 items) _ n i).
  - rewrite Hg. repeat split; [exact Hne | now apply not_slash_mem].
  - rewrite group_names_fst. apply Hwf.
  - exact Hi.
Qed.

Lemma segment_values_nonempty_no_slash_witness :
  exists rule,
    UrlRule.init "/videos/<category>/<path:rest>/" = Ok rule
    /\ forall d n,
        UrlRule.match_ rule "/videos/x/y" = Some d ->
        In (Seg n) videos_items \/ In (SegT n) videos_items ->
        exists v, Py.lookup n d = Some (Some v)
                  /\ v <> "" /\ str_mem "/" v = false.
Proof.
  apply (segment_values_nonempty_no_slash
           "/videos/<category>/<path:rest>/" videos_items "/videos/x/y").
  - reflexivity.
  - split; [reflexivity|]. cbn. repeat constructor; cbn; intuition discriminate.
Defined.

(** *** The expression that finds the placeholders *)

Lemma mt_Opt_greedy (r : regex) (k : kont) (pos : nat) (s : string) (c : caps) :
  mt (Opt true r) k pos s c
  = match mt r k pos s c with
    | Some res => Some res
    | None => k pos s c
    end.
Proof. reflexivity. Qed.

Lemma rep_chars_no_stop (accept : ascii -> bool) (greedy : bool) (k : kont)
      (stop : ascii) (c : caps) :
  (forall pos y s, y <> stop -> k pos (String y s) c = None) ->
  (forall pos, k pos "" c = None) ->
  forall t pos,
    no_char stop t = true -> rep_chars accept greedy k pos t c = None.
Proof.
  intros Hk Hend. induction t as [|b t IH]; intros pos Ht; cbn [rep_chars];
    [apply Hend|].
  cbn [no_char forallb_str] in Ht. apply andb_prop in Ht. destruct Ht as [Hb Ht].
  assert (Hkb : k pos (String b t) c = None).
  { apply Hk. intros ->. rewrite Ascii.eqb_refl in Hb. discriminate. }
  rewrite Hkb, (IH (S pos) Ht). now destruct (accept b), greedy.
Qed.

Lemma not_colon_no_char (c : ascii) :
  negb (Ascii.eqb ":" c) = true -> not_colon c = true.
Proof.
  intros Hc. unfold not_colon, cls_accepts, in_items, in_range.
  cbn [existsb fst snd xorb]. rewrite orb_false_r.
  apply negb_true_iff in Hc. apply Ascii.eqb_neq in Hc.
  apply negb_true_iff. apply andb_false_iff.
  destruct (N.leb_spec (code ":") (code c)) as [Hle|Hlt]; [right | now left].
  apply N.leb_gt. assert (code c <> code ":").
  { intros Heq. apply Hc. unfold code in Heq.
    rewrite <- (ascii_N_embedding ":"), <- (ascii_N_embedding c). now f_equal. }
  lia.
Qed.

Lemma kw_regex_eq : kw_regex = Cat (Chr "<") (Cat (Opt true kw_opt) name_tail).
Proof. reflexivity. Qed.

(** An untyped placeholder, when no colon follows. *)
Lemma kw_match_plain (n b : string) (pos : nat) :
  valid_name n = true -> no_char ":" (n ++ String ">" b) = true ->
  match_at kw_regex pos (String "<" (n ++ String ">" b))
  = Some (pos + S (String.length (n ++ ">")), b, [(1, n)]).
Proof.
  intros Hn Hnc. destruct (valid_name_Az n Hn) as [Hne HAz].
  unfold match_at. rewrite kw_regex_eq, mt_Cat, mt_Chr, Ascii.eqb_refl.
  rewrite mt_Cat, mt_Opt_greedy.
  assert (Hopt : mt kw_opt (mt name_tail kdone) (S pos) (n ++ String ">" b) []
                 = None).
  { unfold kw_opt. rewrite mt_Cat, mt_Plus_Cls.
    destruct (n ++ String ">" b) as [|a s] eqn:E; [reflexivity|].
    destruct (cls_accepts true [(":"%char, ":"%char)] a); [|reflexivity].
    cbn [no_char forallb_str] in Hnc. apply andb_prop in Hnc.
    destruct Hnc as [_ Hs].
    apply (rep_chars_no_stop _ true _ ":"%char); [| |exact Hs].
    - intros pos' y s' Hy. rewrite mt_Cat, mt_Chr.
      destruct (Ascii.eqb_spec ":" y); [congruence | reflexivity].
    - intros pos'. reflexivity. }
  rewrite Hopt, name_tail_match by assumption.
  rewrite length_append. cbn [String.length].
  match goal with
  | |- Some (?x, _, _) = Some (?y, _, _) => replace x with y by lia
  end. reflexivity.
Qed.

(** A typed placeholder: the type and the colon are the optional part. *)
Lemma kw_match_typed (tag n b : string) (pos : nat) :
  tag <> "" -> forallb_str not_colon tag = true -> valid_name n = true ->
  match_at kw_regex pos (String "<" (tag ++ String ":" (n ++ String ">" b)))
  = Some (pos + S (String.length (tag ++ String ":" (n ++ ">"))), b, [(1, n)]).
Proof.
  intros Htag Hacc Hn. destruct (valid_name_Az n Hn) as [Hne HAz].
  unfold match_at. rewrite kw_regex_eq, mt_Cat, mt_Chr, Ascii.eqb_refl.
  rewrite mt_Cat, mt_Opt_greedy.
  assert (Hopt : mt kw_opt (mt name_tail kdone) (S pos)
                    (tag ++ String ":" (n ++ String ">" b)) []
                 = Some (pos + S (String.length (tag ++ String ":" (n ++ ">"))),
                         b, [(1, n)])).
  { unfold kw_opt. rewrite mt_Cat, mt_Plus_Cls.
    destruct tag as [|a w]; [congruence|]. cbn [forallb_str] in Hacc.
    apply andb_prop in Hacc. destruct Hacc as [Ha Hw]. cbn [append].
    change (cls_accepts true [(":"%char, ":"%char)]) with not_colon.
    rewrite Ha. apply rep_chars_greedy_all; [exact Hw | reflexivity |].
    rewrite mt_Cat, mt_Chr, Ascii.eqb_refl, mt_Eps.
    rewrite name_tail_match by assumption.
    cbn [String.length]. rewrite !length_append. cbn [String.length].
    rewrite ?length_append. cbn [String.length].
    match goal with
    | |- Some (?x, _, _) = Some (?y, _, _) => replace x with y by lia
    end. reflexivity. }
  now rewrite Hopt.
Qed.

(** *** The template and the keywords of a pattern *)

Lemma template_plain_regex (c : ascii) :
  template_plain c = true -> regex_plain c = true.
Proof. unfold template_plain. intros H. now apply andb_prop in H. Qed.

Lemma rt_item_ok_item_ok (it : item) : rt_item_ok it = true -> item_ok it = true.
Proof.
  destruct it as [t|n|n|n]; cbn [rt_item_ok item_ok]; trivial.
  apply forallb_str_impl. exact template_plain_regex.
Qed.

Lemma rt_items_ok (items : list item) :
  forallb rt_item_ok items = true -> forallb item_ok items = true.
Proof.
  induction items as [|it items IH]; cbn [forallb]; [trivial|].
  intros H. apply andb_prop in H. destruct H as [Hit H].
  now rewrite (rt_item_ok_item_ok it Hit), IH.
Qed.

Lemma template_plain_no (a : ascii) (t : string) :
  str_mem a "<{:}" = true ->
  forallb_str template_plain t = true -> no_char a t = true.
Proof.
  intros Ha. apply forallb_str_impl. intros c Hc.
  unfold template_plain, regex_plain, str_mem in *. cbn [existsb_str] in *.
  apply andb_prop in Hc. destruct Hc as [H1 H2].
  apply negb_true_iff in H1. apply negb_true_iff in H2.
  repeat (apply orb_false_elim in H1; let H := fresh "Hr" in destruct H1 as [H H1]).
  repeat (apply orb_false_elim in H2; let H := fresh "Hq" in destruct H2 as [H H2]).
  rewrite !orb_false_r in Ha.
  apply negb_true_iff. apply Ascii.eqb_neq. intros <-.
  rewrite Hr, Hr3, Hq, Hq0 in Ha. discriminate.
Qed.

Lemma untyped_no_colon (items : list item) :
  forallb rt_item_ok items = true ->
  forallb (fun it => negb (typed it)) items = true ->
  no_char ":" (render source_text items) = true.
Proof.
  induction items as [|it items IH]; cbn [forallb render]; [trivial|].
  intros Hok Hty. apply andb_prop in Hok. destruct Hok as [Hit Hok].
  apply andb_prop in Hty. destruct Hty as [Ht Hty].
  rewrite no_char_app, (IH Hok Hty), andb_true_r.
  destruct it as [t|n|n|n]; try discriminate; cbn [rt_item_ok source_text] in *.
  - now apply template_plain_no.
  - rewrite !no_char_app, (name_no_char ":" n); [reflexivity | reflexivity |].
    now apply valid_name_chars in Hit.
Qed.

Lemma untyped_typed_first (items : list item) :
  forallb (fun it => negb (typed it)) items = true -> typed_first items = true.
Proof.
  induction items as [|it items IH]; cbn [forallb typed_first]; [trivial|].
  intros H. apply andb_prop in H. destruct H as [Hit H].
  destruct it; try discriminate; auto.
Qed.

(** *** The scans of [sub] and [findall] with the keyword expression *)

Lemma sub_scan_inert_chr (a0 : ascii) (r : regex) (t : list PyRe.titem)
      (a b : string) :
  no_char a0 a = true ->
  forall pos,
    PyRe.sub_scan (Cat (Chr a0) r) t pos 0 (a ++ b)
    = a ++ PyRe.sub_scan (Cat (Chr a0) r) t (pos + String.length a) 0 b.
Proof.
  intros Ha. induction a as [|x a IH]; intros pos; cbn [append String.length].
  - now rewrite Nat.add_0_r.
  - cbn [no_char forallb_str] in Ha. apply andb_prop in Ha.
    destruct Ha as [Hx Ha]. rewrite sub_scan_miss.
    + rewrite (IH Ha), Nat.add_succ_r. reflexivity.
    + unfold match_at. rewrite mt_Cat, mt_Chr. now destruct (Ascii.eqb a0 x).
Qed.

Lemma findall_scan_skip (r : regex) (groups : nat) (a b : string) :
  forall pos,
    PyRe.findall_scan r groups pos (String.length a) (a ++ b)
    = PyRe.findall_scan r groups (pos + String.length a) 0 b.
Proof.
  induction a as [|x a IH]; intros pos; cbn [append String.length].
  - now rewrite Nat.add_0_r.
  - cbn [PyRe.findall_scan]. rewrite IH. f_equal. lia.
Qed.

Lemma findall_scan_hit (r : regex) (ch : ascii) (a b rest n : string)
      (pos : nat) (c : caps) :
  match_at r pos (String ch (a ++ b))
  = Some (pos + S (String.length a), rest, (1, n) :: c) ->
  PyRe.findall_scan r 1 pos 0 (String ch (a ++ b))
  = n :: PyRe.findall_scan r 1 (pos + S (String.length a)) 0 b.
Proof.
  intros Hm. cbn [PyRe.findall_scan]. rewrite Hm.
  replace (pos + S (String.length a) - pos - 1) with (String.length a) by lia.
  rewrite findall_scan_skip. cbn [group Nat.eqb]. do 2 f_equal. lia.
Qed.

Lemma findall_scan_inert_chr (a0 : ascii) (r : regex) (groups : nat)
      (a b : string) :
  no_char a0 a = true ->
  forall pos,
    PyRe.findall_scan (Cat (Chr a0) r) groups pos 0 (a ++ b)
    = PyRe.findall_scan (Cat (Chr a0) r) groups (pos + String.length a) 0 b.
Proof.
  intros Ha. induction a as [|x a IH]; intros pos; cbn [append String.length].
  - now rewrite Nat.add_0_r.
  - cbn [no_char forallb_str] in Ha. apply andb_prop in Ha.
    destruct Ha as [Hx Ha]. cbn [PyRe.findall_scan].
    assert (Hm : match_at (Cat (Chr a0) r) pos (String x (a ++ b)) = None).
    { unfold match_at. rewrite mt_Cat, mt_Chr. now destruct (Ascii.eqb a0 x). }
    rewrite Hm, (IH Ha), Nat.add_succ_r. reflexivity.
Qed.

Lemma expand_tkw (n : string) (c : caps) :
  PyRe.expand tkw ((1, n) :: c) = "{" ++ n ++ "}".
Proof. reflexivity. Qed.

(** What the keyword expression matches at an item, given the items after
    it. *)
Lemma kw_match_item (it : item) (n b : string) (pos : nat) :
  rt_item_ok it = true ->
  (typed it = false -> no_char ":" b = true) ->
  match it with Lit _ => None | Seg m | SegT m | PathP m => Some m end = Some n ->
  exists a, source_text it = String "<" a
            /\ match_at kw_regex pos (String "<" (a ++ b))
               = Some (pos + S (String.length a), b, [(1, n)]).
Proof.
  intros Hok Hb Hn. destruct it as [t|m|m|m]; try discriminate;
    injection Hn as ->; cbn [rt_item_ok source_text typed] in *.
  - exists (n ++ ">"). split; [reflexivity|].
    rewrite append_assoc. cbn [append]. apply kw_match_plain; [exact Hok|].
    apply valid_name_chars in Hok. destruct Hok as [_ Hok].
    rewrite no_char_app, (name_no_char ":" n eq_refl Hok).
    change (no_char ":" (String ">" b))
      with (negb (Ascii.eqb ":" ">") && no_char ":" b).
    now rewrite (Hb eq_refl).
  - exists ("string:" ++ n ++ ">"). split; [reflexivity|].
    replace (("string:" ++ n ++ ">") ++ b)
      with ("string" ++ String ":" (n ++ String ">" b))
      by (cbn [append]; now rewrite append_assoc).
    rewrite (kw_match_typed "string" n b pos); [reflexivity | discriminate | reflexivity | exact Hok].
  - exists ("path:" ++ n ++ ">"). split; [reflexivity|].
    replace (("path:" ++ n ++ ">") ++ b)
      with ("path" ++ String ":" (n ++ String ">" b))
      by (cbn [append]; now rewrite append_assoc).
    rewrite (kw_match_typed "path" n b pos); [reflexivity | discriminate | reflexivity | exact Hok].
Qed.

Lemma typed_first_tail (it : item) (items : list item) :
  typed_first (it :: items) = true -> typed_first items = true.
Proof.
  destruct it; cbn [typed_first]; trivial. apply untyped_typed_first.
Qed.

Lemma typed_first_no_colon (it : item) (items : list item) :
  forallb rt_item_ok items = true ->
  typed_first (it :: items) = true ->
  typed it = false -> item_name it <> None ->
  no_char ":" (render source_text items) = true.
Proof.
  intros Hok Htf Hty Hn.
  destruct it; cbn [item_name typed] in *; try discriminate; try congruence.
  cbn [typed_first] in Htf. now apply untyped_no_colon.
Qed.

(** The first substitution of [__init__] gives the template. *)
Lemma kw_sub_items (items : list item) :
  forallb rt_item_ok items = true -> typed_first items = true ->
  forall pos,
    PyRe.sub_scan kw_regex tkw pos 0 (render source_text items)
    = render fmt_text items.
Proof.
  induction items as [|it items IH]; intros Hok Htf pos; [reflexivity|].
  cbn [forallb] in Hok. apply andb_prop in Hok. destruct Hok as [Hit Hok].
  specialize (IH Hok (typed_first_tail _ _ Htf)). cbn [render].
  destruct (item_name it) as [n|] eqn:En.
  - destruct (kw_match_item it n (render source_text items) pos Hit)
      as [a [Ha Hm]].
    + intros Hty. apply (typed_first_no_colon it); try assumption. congruence.
    + exact En.
    + rewrite Ha. cbn [append].
      rewrite (sub_scan_hit _ _ _ _ _ _ _ _ Hm), IH, expand_tkw.
      now destruct it; try discriminate; injection En as ->.
  - destruct it as [t| | |]; try discriminate. cbn [source_text fmt_text].
    cbn [rt_item_ok] in Hit. rewrite kw_regex_eq, sub_scan_inert_chr.
    + rewrite <- kw_regex_eq, IH. reflexivity.
    + now apply template_plain_no.
Qed.

(** [findall] gives the names of the placeholders in order. *)
Lemma kw_findall_items (items : list item) :
  forallb rt_item_ok items = true -> typed_first items = true ->
  forall pos,
    PyRe.findall_scan kw_regex 1 pos 0 (render source_text items)
    = item_names items.
Proof.
  induction items as [|it items IH]; intros Hok Htf pos; [reflexivity|].
  cbn [forallb] in Hok. apply andb_prop in Hok. destruct Hok as [Hit Hok].
  specialize (IH Hok (typed_first_tail _ _ Htf)). cbn [render].
  destruct (item_name it) as [n|] eqn:En.
  - destruct (kw_match_item it n (render source_text items) pos Hit)
      as [a [Ha Hm]].
    + intros Hty. apply (typed_first_no_colon it); try assumption. congruence.
    + exact En.
    + rewrite Ha. cbn [append].
      rewrite (findall_scan_hit _ _ _ _ _ _ _ _ Hm), IH.
      now destruct it; try discriminate; injection En as ->.
  - destruct it as [t| | |]; try discriminate. cbn [source_text item_names].
    cbn [rt_item_ok] in Hit. rewrite kw_regex_eq, findall_scan_inert_chr.
    + rewrite <- kw_regex_eq, IH. reflexivity.
    + now apply template_plain_no.
Qed.

(** *** [format] on the template *)

Lemma format_lit (t rest : string) (kw : Py.kwargs) :
  forallb_str template_plain t = true ->
  Py.format_loop (t ++ rest) None kw
  = (r <- Py.format_loop rest None kw ;; Ok (t ++ r)).
Proof.
  induction t as [|c t IH]; intros Ht; cbn [append].
  - now destruct (Py.format_loop rest None kw).
  - cbn [forallb_str] in Ht. apply andb_prop in Ht. destruct Ht as [Hc Ht].
    assert (Hopen : Ascii.eqb c "{" = false).
    { apply Ascii.eqb_neq. intros ->. discriminate. }
    assert (Hclose : Ascii.eqb c "}" = false).
    { apply Ascii.eqb_neq. intros ->. discriminate. }
    cbn [Py.format_loop]. rewrite Hopen, Hclose, (IH Ht).
    now destruct (Py.format_loop rest None kw).
Qed.

Lemma name_char_neq (c x : ascii) :
  name_char x = false -> name_char c = true -> Ascii.eqb c x = false.
Proof. intros Hx Hc. rewrite Ascii.eqb_sym. now apply name_char_not. Qed.

Lemma name_char_field (c : ascii) :
  name_char c = true -> Py.field_special c = false /\ Ascii.eqb c "}" = false.
Proof.
  intros Hc. split.
  - unfold Py.field_special, str_mem. cbn [existsb_str].
    rewrite (name_char_neq c "{" eq_refl Hc), (name_char_neq c "!" eq_refl Hc),
      (name_char_neq c ":" eq_refl Hc), (name_char_neq c "." eq_refl Hc),
      (name_char_neq c "[" eq_refl Hc), (name_char_neq c "]" eq_refl Hc).
    cbn [orb]. unfold is_digit, in_range.
    apply name_char_Az in Hc. unfold Az, cls_accepts, in_items, in_range in Hc.
    cbn [existsb fst snd xorb] in Hc. rewrite orb_false_r in Hc.
    apply andb_prop in Hc. destruct Hc as [Hlo _]. apply N.leb_le in Hlo.
    change (code "A") with 65%N in Hlo. apply andb_false_iff. right.
    apply N.leb_gt. change (code "9") with 57%N. lia.
  - now apply (name_char_neq c "}").
Qed.

Lemma format_field_name (n rest acc : string) (kw : Py.kwargs) :
  forallb_str name_char n = true ->
  Py.format_loop (n ++ rest) (Some acc) kw
  = Py.format_loop rest (Some (str_rev_app n acc)) kw.
Proof.
  revert acc. induction n as [|c n IH]; intros acc Hn; [reflexivity|].
  cbn [forallb_str] in Hn. apply andb_prop in Hn. destruct Hn as [Hc Hn].
  destruct (name_char_field c Hc) as [Hsp Hcl].
  cbn [append Py.format_loop str_rev_app]. rewrite Hcl, Hsp. now apply IH.
Qed.

Lemma format_open (c : ascii) (s : string) (kw : Py.kwargs) :
  Ascii.eqb c "{" = false ->
  Py.format_loop (String "{" (String c s)) None kw
  = Py.format_loop (String c s) (Some "") kw.
Proof. intros Hc. cbn [Py.format_loop Ascii.eqb Bool.eqb]. now rewrite Hc. Qed.

Lemma format_close (n rest v : string) (kw : Py.kwargs) :
  n <> "" -> Py.lookup n kw = Some v ->
  Py.format_loop (String "}" rest) (Some (str_rev_app n "")) kw
  = (r <- Py.format_loop rest None kw ;; Ok (v ++ r)).
Proof.
  intros Hne Hv. cbn [Py.format_loop Ascii.eqb Bool.eqb].
  destruct (str_rev_app n "") as [|x acc] eqn:E.
  - exfalso. apply Hne. rewrite <- (str_rev_rev n), E. reflexivity.
  - rewrite <- E, str_rev_rev, Hv. reflexivity.
Qed.

Lemma format_field (n rest v : string) (kw : Py.kwargs) :
  valid_name n = true -> Py.lookup n kw = Some v ->
  Py.format_loop (("{" ++ n ++ "}") ++ rest) None kw
  = (r <- Py.format_loop rest None kw ;; Ok (v ++ r)).
Proof.
  intros Hn Hv. destruct (valid_name_chars n Hn) as [Hne Hch].
  replace (("{" ++ n ++ "}") ++ rest) with (String "{" (n ++ String "}" rest))
    by (cbn [append]; now rewrite append_assoc).
  destruct n as [|c n]; [congruence|].
  assert (Hc : Ascii.eqb c "{" = false).
  { cbn [forallb_str] in Hch. apply andb_prop in Hch. destruct Hch as [Hc _].
    now apply (name_char_neq c "{"). }
  cbn [append]. rewrite format_open by exact Hc.
  change (String c (n ++ String "}" rest)) with (String c n ++ String "}" rest).
  rewrite format_field_name by exact Hch.
  now apply format_close.
Qed.

(** *** The path [make_path] builds *)

Lemma format_items (items : list item) (kw : Py.kwargs) :
  forallb rt_item_ok items = true ->
  (forall n, In n (item_names items) -> Py.lookup n kw <> None) ->
  Py.format_loop (render fmt_text items) None kw
  = Ok (filled items (kw_values kw items)).
Proof.
  unfold kw_values.
  induction items as [|it items IH]; intros Hok Hkw; [reflexivity|].
  cbn [forallb] in Hok. apply andb_prop in Hok. destruct Hok as [Hit Hok].
  assert (Hfield : forall n,
             item_names (it :: items) = n :: item_names items ->
             valid_name n = true ->
             Py.format_loop (("{" ++ n ++ "}") ++ render fmt_text items) None kw
             = Ok (kw_value kw n
                     ++ filled items (map (kw_value kw) (item_names items)))).
  { intros n Heq Hn. rewrite Heq in Hkw.
    assert (Hl : Py.lookup n kw <> None) by (apply Hkw; now left).
    unfold kw_value at 1. destruct (Py.lookup n kw) as [v|] eqn:E; [|congruence].
    rewrite (format_field n _ v) by assumption.
    rewrite IH; [reflexivity | exact Hok |].
    intros m Hm. apply Hkw. now right. }
  destruct it as [t|n|n|n]; cbn [rt_item_ok render fmt_text item_names filled map] in *.
  - rewrite format_lit by exact Hit. now rewrite IH.
  - now apply Hfield.
  - now apply Hfield.
  - now apply Hfield.
Qed.

Lemma filter_all {A : Type} (p : A -> bool) (l : list A) :
  (forall x, In x l -> p x = true) ->
  filter p l = l /\ filter (fun x => negb (p x)) l = [].
Proof.
  induction l as [|x l IH]; intros Hall; [now split|].
  cbn [filter]. rewrite (Hall x) by now left. cbn [negb].
  destruct IH as [-> ->]; [|now split].
  intros y Hy. apply Hall. now right.
Qed.

Lemma existsb_eqb_in (k : string) (names : list string) :
  In k names -> existsb (String.eqb k) names = true.
Proof.
  intros Hin. apply existsb_exists. exists k. split; [exact Hin|].
  apply String.eqb_refl.
Qed.

(** *** The match of the path built *)

Lemma mt_chr_nodes_fwd (t : string) (r : regex) (k : kont) :
  forall pos s c,
    mt (fold_right Cat r (chr_nodes t)) k pos (t ++ s) c
    = mt r k (pos + String.length t) s c.
Proof.
  induction t as [|a t IH]; intros pos s c; cbn [chr_nodes fold_right append String.length].
  - now rewrite Nat.add_0_r.
  - rewrite mt_Cat, mt_Chr, Ascii.eqb_refl, IH. f_equal. lia.
Qed.

Lemma rep_chars_lazy_exact (accept : ascii -> bool) (k : kont) (c : caps)
      (res : mres) (s : string) :
  forall w pos,
    forallb_str accept w = true ->
    (forall w1 y w2, w = w1 ++ String y w2 ->
                     k (pos + String.length w1) (String y (w2 ++ s)) c = None) ->
    k (pos + String.length w) s c = Some res ->
    rep_chars accept false k pos (w ++ s) c = Some res.
Proof.
  induction w as [|a w IH]; intros pos Hw Hfail Hk.
  - cbn [append String.length] in *. rewrite Nat.add_0_r in Hk.
    destruct s as [|b s']; cbn [rep_chars]; [exact Hk|].
    rewrite Hk. now destruct (accept b).
  - cbn [forallb_str] in Hw. apply andb_prop in Hw. destruct Hw as [Ha Hw].
    cbn [append rep_chars]. rewrite Ha.
    assert (H0 := Hfail "" a w eq_refl). cbn [String.length] in H0.
    rewrite Nat.add_0_r in H0. rewrite H0. apply IH; [exact Hw | |].
    + intros w1 y w2 Heq. specialize (Hfail (String a w1) y w2).
      cbn [append String.length] in Hfail. rewrite Nat.add_succ_r in Hfail.
      apply Hfail. now rewrite Heq.
    + cbn [String.length] in Hk. now rewrite Nat.add_succ_r in Hk.
Qed.

Lemma seg_char_split (y : ascii) :
  seg_char y = true -> Ascii.eqb "/" y = false /\ Ascii.eqb y newline = false.
Proof.
  unfold seg_char. intros H. apply andb_prop in H. destruct H as [Hs Hn]. split.
  - apply Ascii.eqb_neq. intros <-. discriminate.
  - unfold not_newline in Hn. now apply negb_true_iff in Hn.
Qed.

(** What follows a segment placeholder does not match inside the value. *)
Lemma next_fails (items : list item) (g : nat) (vals : list string)
      (y : ascii) (z : string) (pos : nat) (c : caps) :
  follows items = true -> seg_char y = true ->
  mt (tail_regex g items) kdone pos (String y (z ++ filled items vals)) c = None.
Proof.
  intros Hf Hy. destruct (seg_char_split y Hy) as [Hs Hn]. unfold tail_regex.
  destruct items as [|[[|a t]|n|n|n] items]; try discriminate.
  - cbn [nodes fold_right filled]. rewrite mt_Cat. cbn [mt at_eol].
    rewrite Hn. now destruct (z ++ "").
  - cbn [follows] in Hf. apply Ascii.eqb_eq in Hf. subst a.
    cbn [nodes chr_nodes app fold_right]. now rewrite mt_Cat, mt_Chr, Hs.
Qed.

Lemma seg_char_not_slash (w : string) :
  forallb_str seg_char w = true -> forallb_str not_slash w = true.
Proof.
  apply forallb_str_impl. intros c H. unfold seg_char in H.
  now apply andb_prop in H.
Qed.

Lemma mt_seg_fwd (i : nat) (r : regex) (v s : string) (pos : nat) (c : caps)
      (res : mres) :
  v <> "" -> forallb_str seg_char v = true ->
  (forall y z pos' c', seg_char y = true ->
                       mt r kdone pos' (String y (z ++ s)) c' = None) ->
  mt r kdone (pos + String.length v) s ((i, v) :: c) = Some res ->
  mt (Cat (seg_group i) r) kdone pos (v ++ s) c = Some res.
Proof.
  intros Hne Hv Hfail Hk. unfold seg_group.
  rewrite mt_Cat, mt_Grp, mt_Cat, mt_Plus_Cls.
  destruct v as [|b w]; [congruence|]. cbn [forallb_str] in Hv.
  apply andb_prop in Hv. destruct Hv as [Hb Hw]. cbn [append].
  change (cls_accepts true [("/"%char, "/"%char)]) with not_slash.
  assert (Hbs : not_slash b = true).
  { unfold seg_char in Hb. now apply andb_prop in Hb. }
  rewrite Hbs. apply rep_chars_lazy_exact.
  - now apply seg_char_not_slash.
  - intros w1 y w2 Heq. rewrite mt_Eps. apply Hfail.
    rewrite Heq, forallb_str_app in Hw. apply andb_prop in Hw.
    destruct Hw as [_ Hy]. cbn [forallb_str] in Hy. now apply andb_prop in Hy.
  - rewrite mt_Eps.
    replace (S pos + String.length w - pos) with (String.length (String b w))
      by (cbn [String.length]; lia).
    change (String b (w ++ s)) with (String b w ++ s).
    rewrite substring_prefix. rewrite <- Hk. f_equal.
    cbn [String.length]. lia.
Qed.

Lemma mt_path_fwd (i : nat) (v : string) (pos : nat) (c : caps) :
  forallb_str not_newline v = true ->
  mt (Cat (path_group i) (Cat Eol Eps)) kdone pos (v ++ "") c
  = Some (pos + String.length v, "", (i, v) :: c).
Proof.
  intros Hv. unfold path_group. rewrite mt_Cat, mt_Grp, mt_Cat, mt_Star_Dot.
  apply rep_chars_greedy_all; [exact Hv | exact I |].
  rewrite mt_Eps, mt_Cat. cbn [mt at_eol]. unfold kdone.
  replace (pos + String.length v - pos) with (String.length v) by lia.
  now rewrite substring_prefix.
Qed.

Lemma tail_regex_lit (g : nat) (t : string) (items : list item) :
  tail_regex g (Lit t :: items)
  = fold_right Cat (tail_regex g items) (chr_nodes t).
Proof. unfold tail_regex. cbn [nodes]. now rewrite fold_right_app. Qed.

(** The compiled pattern matches the literals filled with fitting values,
    and captures these values. *)
Lemma mt_items_fwd (items : list item) :
  forall g vals pos c,
    rt_shape items = true -> vals_fit items vals ->
    mt (tail_regex g items) kdone pos (filled items vals) c
    = Some (pos + String.length (filled items vals), "",
            captured g items vals c).
Proof.
  induction items as [|it items IH]; intros g vals pos c Hsh Hfit.
  - cbn [vals_fit] in Hfit. subst vals. cbn [filled captured String.length].
    rewrite Nat.add_0_r. reflexivity.
  - assert (Hseg : forall v vals',
               follows items = true -> rt_shape items = true ->
               negb (String.eqb v "") && forallb_str seg_char v = true ->
               vals_fit items vals' ->
               mt (Cat (seg_group (S g)) (tail_regex (S g) items)) kdone pos
                  (v ++ filled items vals') c
               = Some (pos + String.length (v ++ filled items vals'), "",
                       captured (S g) items vals' ((S g, v) :: c))).
    { intros v vals' Hfol Hsh' Hv Hfit'. apply andb_prop in Hv.
      destruct Hv as [Hne Hv]. apply negb_true_iff in Hne.
      apply String.eqb_neq in Hne. apply mt_seg_fwd; try assumption.
      - intros y z pos' c' Hy. now apply next_fails.
      - rewrite IH by assumption. rewrite length_append, Nat.add_assoc.
        reflexivity. }
    destruct it as [t|n|n|n]; cbn [rt_shape vals_fit filled captured] in *.
    + rewrite tail_regex_lit, mt_chr_nodes_fwd, IH by assumption.
      rewrite length_append, Nat.add_assoc. reflexivity.
    + destruct vals as [|v vals']; [destruct Hfit|]. destruct Hfit as [Hv Hfit].
      apply andb_prop in Hsh. destruct Hsh as [Hfol Hsh]. now apply Hseg.
    + destruct vals as [|v vals']; [destruct Hfit|]. destruct Hfit as [Hv Hfit].
      apply andb_prop in Hsh. destruct Hsh as [Hfol Hsh]. now apply Hseg.
    + destruct vals as [|v vals']; [destruct Hfit|]. destruct Hfit as [Hv Hfit].
      destruct items as [|? ?]; [|discriminate]. cbn [vals_fit] in Hfit.
      subst vals'. cbn [filled captured value_ok] in *.
      unfold tail_regex. cbn [nodes fold_right].
      rewrite mt_path_fwd by exact Hv. now rewrite append_nil_r.
Qed.

Lemma groupdict_captured (items : list item) :
  forall g vals c,
    List.length vals = List.length (item_names items) ->
    map (fun e => (fst e, group (snd e) (captured g items vals c)))
        (group_names g items)
    = combine (item_names items) (map Some vals).
Proof.
  induction items as [|it items IH]; intros g vals c Hlen; [reflexivity|].
  assert (Hstep : forall n v vals',
             List.length vals' = List.length (item_names items) ->
             (n, group (S g) (captured (S g) items vals' ((S g, v) :: c)))
               :: map (fun e => (fst e, group (snd e)
                                   (captured (S g) items vals' ((S g, v) :: c))))
                      (group_names (S g) items)
             = (n, Some v) :: combine (item_names items) (map Some vals')).
  { intros n v vals' Hl. rewrite IH by exact Hl.
    rewrite captured_old by lia. cbn [group]. now rewrite Nat.eqb_refl. }
  destruct it as [t|n|n|n]; cbn [group_names item_names captured map fst snd] in *;
    [now apply IH | | |];
    (destruct vals as [|v vals']; [discriminate|]; cbn [map combine];
     apply Hstep; cbn [List.length] in Hlen; lia).
Qed.

(** *** The round trip *)

Lemma init_roundtrip (pattern : string) (items : list item) :
  UrlRule.stripped pattern = render source_text items ->
  roundtrip_pattern items ->
  UrlRule.init pattern
  = Ok (UrlRule.mk (render fmt_text items) (item_names items)
                   (render regex_text items) (items_compiled items)).
Proof.
  intros Hs [Hok [Hnd [Htf Hsh]]].
  rewrite (init_items pattern items Hs).
  - unfold items_rule. now rewrite kw_sub_items, kw_findall_items.
  - split; [now apply rt_items_ok | exact Hnd].
Qed.

Lemma vals_fit_kwargs (items : list item) (kw : Py.kwargs) :
  (forall it n, In it items -> item_name it = Some n ->
                exists v, Py.lookup n kw = Some v /\ value_ok it v = true) ->
  vals_fit items (kw_values kw items).
Proof.
  unfold kw_values. induction items as [|it items IH]; intros Hkw; [reflexivity|].
  assert (IH' : vals_fit items (map (kw_value kw) (item_names items))).
  { apply IH. intros it' n Hin. apply Hkw. now right. }
  assert (Hhead : forall n, item_name it = Some n ->
                            value_ok it (kw_value kw n) = true).
  { intros n Hn. destruct (Hkw it n (or_introl eq_refl) Hn) as [v [Hl Hv]].
    unfold kw_value. now rewrite Hl. }
  destruct it as [t|n|n|n]; cbn [item_names map vals_fit]; [exact IH' | | |];
    (split; [now apply Hhead | exact IH']).
Qed.

Lemma item_names_in (items : list item) (n : string) :
  In n (item_names items) ->
  exists it, In it items /\ item_name it = Some n.
Proof.
  induction items as [|it items IH]; [intros []|].
  assert (Htail : In n (item_names items) ->
                  exists it', In it' (it :: items) /\ item_name it' = Some n).
  { intros Hin. destruct (IH Hin) as [it' [Hin' Hn]]. exists it'.
    split; [now right | exact Hn]. }
  destruct it as [t|m|m|m]; cbn [item_names]; [exact Htail | | |];
    (intros [<-|Hin]; [eexists; split; [now left | reflexivity] | now apply Htail]).
Qed.

Lemma combine_map_lookup (names : list string) (kw : Py.kwargs) :
  (forall n, In n names -> Py.lookup n kw <> None) ->
  combine names (map Some (map (kw_value kw) names))
  = map (fun n => (n, Py.lookup n kw)) names.
Proof.
  induction names as [|n names IH]; intros Hkw; [reflexivity|].
  cbn [map combine]. rewrite IH by (intros m Hm; apply Hkw; now right).
  unfold kw_value at 1.
  destruct (Py.lookup n kw) eqn:E; [reflexivity|].
  exfalso. apply (Hkw n); [now left | exact E].
Qed.

(** C1, as the code has it: for a pattern of the round trip and keyword
    arguments that give every placeholder a value and nothing else, where
    the value of a segment placeholder is non-empty and has neither slash
    nor newline in it and the value of a path placeholder has no newline,
    the rule compiles, [make_path] returns a path and [match] on that path
    returns the placeholder names with the values given. *)
Theorem make_path_match_roundtrip
        (pattern : string) (items : list item) (kwargs : Py.kwargs) :
  UrlRule.stripped pattern = render source_text items ->
  roundtrip_pattern items ->
  (forall k v, In (k, v) kwargs -> In k (item_names items)) ->
  (forall it n, In it items -> item_name it = Some n ->
                exists v, Py.lookup n kwargs = Some v /\ value_ok it v = true) ->
  exists rule path,
    UrlRule.init pattern = Ok rule
    /\ UrlRule.make_path rule [] kwargs = Ok (Some path)
    /\ UrlRule.match_ rule path
       = Some (map (fun n => (n, Py.lookup n kwargs)) (item_names items)).
Proof.
  intros Hs Hrt Hkeys Hvals.
  pose proof (init_roundtrip pattern items Hs Hrt) as Hinit.
  destruct Hrt as [Hok [Hnd [Htf Hsh]]].
  assert (Hlook : forall n, In n (item_names items) -> Py.lookup n kwargs <> None).
  { intros n Hn. destruct (item_names_in items n Hn) as [it [Hin Hname]].
    destruct (Hvals it n Hin Hname) as [v [Hl _]]. congruence. }
  eexists. exists (filled items (kw_values kwargs items)).
  split; [exact Hinit|]. split.
  - unfold UrlRule.make_path, UrlRule.is_keyword. cbn [UrlRule._keywords UrlRule._pattern].
    destruct (filter_all (fun e : string * string =>
                            existsb (String.eqb (fst e)) (item_names items))
                         kwargs) as [Hall Hnone].
    { intros [k v] Hin. cbn [fst]. apply existsb_eqb_in. now apply (Hkeys k v). }
    rewrite Hall, Hnone. unfold Py.format.
    rewrite format_items by assumption. now rewrite append_nil_r.
  - unfold UrlRule.match_, PyRe.search.
    cbn [UrlRule._regex items_compiled re_ast].
    rewrite items_regex_cat, search_from_bol.
    change (fold_right Cat (Cat Eol Eps) (nodes 0 items)) with (tail_regex 0 items).
    rewrite mt_items_fwd; [|exact Hsh | now apply vals_fit_kwargs].
    unfold PyRe.groupdict. cbn [re_names]. f_equal.
    rewrite groupdict_captured.
    + now apply combine_map_lookup.
    + unfold kw_values. now rewrite length_map.
Qed.

Lemma make_path_match_roundtrip_witness :
  exists rule path,
    UrlRule.init "/item/<id>/<variant>/" = Ok rule
    /\ UrlRule.make_path rule [] [("variant", "b"); ("id", "7")]
       = Ok (Some path)
    /\ UrlRule.match_ rule path
       = Some (map (fun n => (n, Py.lookup n [("variant", "b"); ("id", "7")]))
                   (item_names item_items)).
Proof.
  apply (make_path_match_roundtrip "/item/<id>/<variant>/" item_items
                                   [("variant", "b"); ("id", "7")]).
  - reflexivity.
  - repeat split; try reflexivity.
    cbn. repeat constructor; cbn; intuition discriminate.
  - intros k v [[= <- <-]|[[= <- <-]|[]]]; cbn; auto.
  - intros it n [<-|[<-|[<-|[<-|[]]]]]; cbn; intros [= <-];
      eexists; split; reflexivity.
Defined.

(** *** The placeholder kinds after a literal prefix (C2) *)

Lemma last_char_app (a : string) (c : ascii) :
  last_char (a ++ String c "") = Some c.
Proof.
  induction a as [|x a IH]; [reflexivity|]. cbn [append last_char].
  rewrite IH. now destruct (a ++ String c "") eqn:E; [destruct a; discriminate|].
Qed.

Lemma stripped_placeholder (t open n : string) :
  UrlRule.stripped (t ++ open ++ n ++ ">") = t ++ open ++ n ++ ">".
Proof.
  unfold UrlRule.stripped. apply rstrip_fixed.
  rewrite <- !append_assoc, last_char_app. discriminate.
Qed.

Lemma append_inv_head (a b c : string) : a ++ b = a ++ c -> b = c.
Proof.
  induction a as [|x a IH]; cbn [append]; [trivial|].
  intros [= H]. now apply IH.
Qed.

Lemma str_mem_app (c : ascii) (a b : string) :
  str_mem c (a ++ b) = str_mem c a || str_mem c b.
Proof.
  unfold str_mem. induction a as [|x a IH]; cbn [append existsb_str];
    [reflexivity|]. now rewrite IH, orb_assoc.
Qed.

Lemma at_eol_no_slash (s : string) : at_eol s = true -> str_mem "/" s = false.
Proof.
  destruct s as [|c [|d s]]; cbn [at_eol]; try discriminate; [reflexivity|].
  intros H. apply Ascii.eqb_eq in H. subst c. reflexivity.
Qed.

Lemma prefixed_well_formed (t n : string) (it : item) :
  forallb_str regex_plain t = true -> valid_name n = true ->
  item_name it = Some n -> well_formed (prefixed t it).
Proof.
  intros Ht Hn Hit. unfold well_formed, prefixed.
  destruct it as [?|m|m|m]; try discriminate; injection Hit as ->;
    cbn [forallb item_ok item_names]; rewrite Ht, Hn;
    (split; [reflexivity|]); repeat constructor; intros [].
Qed.

Lemma init_prefixed (t open n : string) (it : item) :
  forallb_str regex_plain t = true -> valid_name n = true ->
  item_name it = Some n -> source_text it = open ++ n ++ ">" ->
  UrlRule.init (t ++ open ++ n ++ ">") = Ok (items_rule (prefixed t it)).
Proof.
  intros Ht Hn Hit Hsrc. apply init_items.
  - rewrite stripped_placeholder. unfold prefixed. cbn [render source_text].
    now rewrite Hsrc, append_nil_r.
  - now apply (prefixed_well_formed t n).
Qed.

Lemma match_prefixed (t n v : string) (it : item) :
  item_name it = Some n -> value_ok it v = true ->
  UrlRule.match_ (items_rule (prefixed t it)) (t ++ v) = Some [(n, Some v)].
Proof.
  intros Hit Hv. unfold UrlRule.match_, PyRe.search.
  cbn [items_rule UrlRule._regex items_compiled re_ast].
  rewrite items_regex_cat, search_from_bol.
  change (fold_right Cat (Cat Eol Eps) (nodes 0 (prefixed t it)))
    with (tail_regex 0 (prefixed t it)).
  assert (Hfill : filled (prefixed t it) [v] = t ++ v).
  { unfold prefixed. destruct it; try discriminate; cbn [filled];
      now rewrite append_nil_r. }
  rewrite <- Hfill, mt_items_fwd.
  - unfold PyRe.groupdict, prefixed.
    destruct it as [?|m|m|m]; try discriminate; injection Hit as ->; reflexivity.
  - unfold prefixed. now destruct it; try discriminate.
  - unfold prefixed. destruct it; try discriminate; cbn [vals_fit]; now split.
Qed.

Lemma match_segment_slash (t n v : string) (it : item) :
  it = Seg n \/ it = SegT n -> str_mem "/" v = true ->
  UrlRule.match_ (items_rule (prefixed t it)) (t ++ v) = None.
Proof.
  intros Hit Hv. unfold UrlRule.match_, PyRe.search.
  cbn [items_rule UrlRule._regex items_compiled re_ast].
  destruct (search_from (items_regex (prefixed t it)) 0 (t ++ v))
    as [[[st en] c]|] eqn:E; [|reflexivity].
  exfalso. apply search_items_inv in E.
  destruct E as [vals [s' [Hok [Hpath [Heol _]]]]]. unfold prefixed in *.
  assert (Hsplit : exists v', forallb_str not_slash v' = true /\ v = v' ++ s').
  { destruct Hit as [-> | ->]; cbn [vals_ok filled] in *;
      (destruct vals as [|v' vals']; [destruct Hok|]);
      destruct Hok as [[Hv' _] ->]; cbn [filled] in Hpath;
      rewrite append_nil_r, append_assoc in Hpath;
      apply append_inv_head in Hpath; now exists v'. }
  destruct Hsplit as [v' [Hv' ->]].
  rewrite str_mem_app, (not_slash_mem v' Hv'), (at_eol_no_slash s' Heol) in Hv.
  discriminate.
Qed.

Lemma rep_chars_lazy_first (accept : ascii -> bool) (k : kont) (pos : nat)
      (s : string) (c : caps) (res : mres) :
  k pos s c = Some res -> rep_chars accept false k pos s c = Some res.
Proof.
  intros Hk. destruct s as [|b s]; cbn [rep_chars]; [exact Hk|].
  rewrite Hk. now destruct (accept b).
Qed.

(** Two segment placeholders in a row: the first one takes one character. *)
Lemma match_adjacent (t n m : string) (x : ascii) (w : string) :
  seg_char x = true -> w <> "" -> forallb_str seg_char w = true ->
  UrlRule.match_ (items_rule [Lit t; Seg n; Seg m]) (t ++ String x w)
  = Some [(n, Some (String x "")); (m, Some w)].
Proof.
  intros Hx Hne Hw. unfold UrlRule.match_, PyRe.search.
  cbn [items_rule UrlRule._regex items_compiled re_ast].
  rewrite items_regex_cat, search_from_bol. cbn [nodes].
  rewrite fold_right_app, mt_chr_nodes_fwd. cbn [fold_right].
  assert (Hm : mt (Cat (seg_group 1) (Cat (seg_group 2) (Cat Eol Eps))) kdone
                  (0 + String.length t) (String x w) []
               = Some (0 + String.length t + 1 + String.length w, "",
                       [(2, w); (1, String x "")])).
  { unfold seg_group at 1. rewrite mt_Cat, mt_Grp, mt_Cat, mt_Plus_Cls.
    change (cls_accepts true [("/"%char, "/"%char)]) with not_slash.
    assert (Hxs : not_slash x = true).
    { unfold seg_char in Hx. now apply andb_prop in Hx. }
    rewrite Hxs. apply rep_chars_lazy_first. rewrite mt_Eps.
    replace (S (0 + String.length t) - (0 + String.length t)) with 1 by lia.
    cbn [substring]. destruct w as [|y w]; [congruence|].
    cbn [substring].
    rewrite <- (append_nil_r (String y w)).
    rewrite (mt_seg_fwd 2 (Cat Eol Eps) (String y w) "" _ _
               (0 + String.length t + 1 + String.length (String y w), "",
                [(2, String y w); (1, String x "")])).
    - now rewrite append_nil_r.
    - discriminate.
    - exact Hw.
    - intros y' z pos' c' Hy'. apply (next_fails [] 0 [] y' z pos' c' eq_refl Hy').
    - rewrite mt_Cat. cbn [mt at_eol]. unfold kdone. do 3 f_equal. lia. }
  rewrite Hm. reflexivity.
Qed.

(** C2, as the code has it: at the end of a pattern, after literal text
    without the characters that are special in a regular expression,
    [<name>] and [<string:name>] compile to the same lazy group of
    characters other than the slash, and [<path:name>] to a greedy group
    of any characters but the newline.  The segment placeholder matches a
    non-empty rest of the path that has neither slash nor newline, and no
    rest of the path with a slash in it; the path placeholder matches
    every rest of the path without newline, whatever slashes it has; of
    two segment placeholders in a row the first one, being lazy, takes a
    single character. *)
Theorem placeholder_kinds (t n m : string) :
  forallb_str regex_plain t = true ->
  valid_name n = true -> valid_name m = true -> n <> m ->
  exists seg typed pth two,
    UrlRule.init (t ++ "<" ++ n ++ ">") = Ok seg
    /\ UrlRule.init (t ++ "<string:" ++ n ++ ">") = Ok typed
    /\ UrlRule.init (t ++ "<path:" ++ n ++ ">") = Ok pth
    /\ UrlRule.init (t ++ "<" ++ n ++ "><" ++ m ++ ">") = Ok two
    /\ UrlRule._compiled_pattern seg = t ++ "(?P<" ++ n ++ ">[^/]+?)"
    /\ UrlRule._compiled_pattern typed = UrlRule._compiled_pattern seg
    /\ UrlRule._regex typed = UrlRule._regex seg
    /\ UrlRule._compiled_pattern pth = t ++ "(?P<" ++ n ++ ">.*)"
    /\ (forall v, v <> "" -> forallb_str seg_char v = true ->
                  UrlRule.match_ seg (t ++ v) = Some [(n, Some v)])
    /\ (forall v, str_mem "/" v = true -> UrlRule.match_ seg (t ++ v) = None)
    /\ (forall v, forallb_str not_newline v = true ->
                  UrlRule.match_ pth (t ++ v) = Some [(n, Some v)])
    /\ (forall x w, seg_char x = true -> w <> "" ->
                    forallb_str seg_char w = true ->
                    UrlRule.match_ two (t ++ String x w)
                    = Some [(n, Some (String x "")); (m, Some w)]).
Proof.
  intros Ht Hn Hm Hnm.
  exists (items_rule (prefixed t (Seg n))), (items_rule (prefixed t (SegT n))),
    (items_rule (prefixed t (PathP n))), (items_rule [Lit t; Seg n; Seg m]).
  repeat apply conj.
  - now apply (init_prefixed t "<" n (Seg n)).
  - now apply (init_prefixed t "<string:" n (SegT n)).
  - now apply (init_prefixed t "<path:" n (PathP n)).
  - apply init_items.
    + replace (t ++ "<" ++ n ++ "><" ++ m ++ ">")
        with ((t ++ "<" ++ n ++ ">") ++ "<" ++ m ++ ">")
        by (repeat (progress (rewrite ?append_assoc; cbn [append])); reflexivity).
      rewrite stripped_placeholder. cbn [render source_text].
      repeat (progress (rewrite ?append_assoc; cbn [append])).
      reflexivity.
    + split; [cbn [forallb item_ok]; now rewrite Ht, Hn, Hm|].
      cbn [item_names]. repeat constructor; cbn [In]; intuition congruence.
  - cbn [items_rule UrlRule._compiled_pattern prefixed render regex_text].
    now rewrite append_nil_r.
  - reflexivity.
  - reflexivity.
  - cbn [items_rule UrlRule._compiled_pattern prefixed render regex_text].
    now rewrite append_nil_r.
  - intros v Hne Hv. apply match_prefixed; [reflexivity|].
    cbn [value_ok]. rewrite Hv, andb_true_r. apply negb_true_iff.
    now apply String.eqb_neq.
  - intros v Hv. apply (match_segment_slash t n); [now left | exact Hv].
  - intros v Hv. now apply match_prefixed.
  - intros x w Hx Hne Hw. now apply match_adjacent.
Qed.

Lemma placeholder_kinds_witness :
  (exists pth, UrlRule.init "/videos/<path:rest>" = Ok pth
               /\ UrlRule.match_ pth "/videos/a/b/c"
                  = Some [("rest", Some "a/b/c")])
  /\ (exists seg, UrlRule.init "/videos/<name>" = Ok seg
                  /\ UrlRule.match_ seg "/videos/a/b/c" = None).
Proof.
  split.
  - destruct (placeholder_kinds "/videos/" "rest" "name" eq_refl eq_refl eq_refl)
      as [seg [typed [pth [two [_ [_ [Hpth [_ [_ [_ [_ [_ [_ [_ [Hall _]]]]]]]]]]]]]]];
      [discriminate|].
    exists pth. split; [exact Hpth|]. apply (Hall "a/b/c"). reflexivity.
  - destruct (placeholder_kinds "/videos/" "name" "rest" eq_refl eq_refl eq_refl)
      as [seg [typed [pth [two [Hseg [_ [_ [_ [_ [_ [_ [_ [_ [Hno _]]]]]]]]]]]]]];
      [discriminate|].
    exists seg. split; [exact Hseg|]. apply (Hno "a/b/c"). reflexivity.
Defined.

(** C2 as stated fails: the path placeholder does not match a rest of the
    path with a newline in it, and both kinds leave a final newline out of
    the value. *)
Lemma path_placeholder_newline_cex :
  let pth := rule_of "/videos/<path:rest>" in
  let seg := rule_of "/videos/<name>" in
  UrlRule.init "/videos/<path:rest>" = Ok pth
  /\ UrlRule.init "/videos/<name>" = Ok seg
  /\ UrlRule.match_ pth ("/videos/a" ++ String newline "b") = None
  /\ UrlRule.match_ pth ("/videos/a" ++ String newline "")
     = Some [("rest", Some "a")]
  /\ UrlRule.match_ seg ("/videos/a" ++ String newline "")
     = Some [("name", Some "a")].
Proof. cbv zeta. repeat apply conj; vm_compute; reflexivity. Qed.

(** ** [route_for] and the base URL *)

Lemma startswith_app (a b : string) : Py.startswith a (a ++ b) = true.
Proof.
  induction a as [|x a IH]; [reflexivity|]. cbn [append Py.startswith].
  now rewrite Ascii.eqb_refl, IH.
Qed.

Lemma drop_app (a b : string) : Py.drop (String.length a) (a ++ b) = b.
Proof. induction a as [|x a IH]; [now destruct b | exact IH]. Qed.

Lemma partition_prefix (sep s : string) :
  Py.startswith sep s = true ->
  Py.partition sep s = Some ("", Py.drop (String.length sep) s).
Proof. intros Hs. destruct s; cbn [Py.partition]; now rewrite Hs. Qed.

Lemma startswith_split (sep s : string) :
  Py.startswith sep s = true -> s = sep ++ Py.drop (String.length sep) s.
Proof.
  revert s. induction sep as [|x sep IH]; intros s; cbn [Py.startswith].
  - intros _. now destruct s.
  - destruct s as [|y s]; [discriminate|]. intros H. apply andb_prop in H.
    destruct H as [Hx Hs]. apply Ascii.eqb_eq in Hx. subst y.
    cbn [String.length Py.drop append]. f_equal. now apply IH.
Qed.

(** X1: [route_for] takes a full URL or a path.  With a non-empty base
    URL, a path that starts with the base URL is looked up without it, any
    other path is looked up as it is: the view function found for
    [base_url + path] is the one found for [path]. *)
Theorem route_for_strips_base_url (p : Plugin.t) (path : string) :
  Plugin.base_url p <> "" ->
  Plugin.route_for p (Plugin.base_url p ++ path)
  = Ok (Plugin.route_items (Plugin._rules p) path)
  /\ (Py.startswith (Plugin.base_url p) path = false ->
      Plugin.route_for p path = Ok (Plugin.route_items (Plugin._rules p) path)
      /\ Plugin.route_for p (Plugin.base_url p ++ path)
         = Plugin.route_for p path).
Proof.
  intros Hbase.
  assert (Hurl : Plugin.route_for p (Plugin.base_url p ++ path)
                 = Ok (Plugin.route_items (Plugin._rules p) path)).
  { unfold Plugin.route_for, Py.split1. rewrite startswith_app.
    destruct (Plugin.base_url p) as [|b base] eqn:E; [congruence|].
    rewrite partition_prefix by apply startswith_app.
    rewrite drop_app. reflexivity. }
  split; [exact Hurl|]. intros Hno.
  assert (Hpath : Plugin.route_for p path
                  = Ok (Plugin.route_items (Plugin._rules p) path)).
  { unfold Plugin.route_for. now rewrite Hno. }
  split; [exact Hpath | now rewrite Hurl, Hpath].
Qed.

Lemma route_for_strips_base_url_witness :
  Plugin.route_for videos_plugin "plugin://plugin.foo.bar/videos/a/b"
  = Ok (Plugin.route_items (Plugin._rules videos_plugin) "/videos/a/b")
  /\ (Py.startswith (Plugin.base_url videos_plugin) "/videos/a/b" = false ->
      Plugin.route_for videos_plugin "/videos/a/b"
      = Ok (Plugin.route_items (Plugin._rules videos_plugin) "/videos/a/b")
      /\ Plugin.route_for videos_plugin
           (Plugin.base_url videos_plugin ++ "/videos/a/b")
         = Plugin.route_for videos_plugin "/videos/a/b").
Proof.
  apply (route_for_strips_base_url videos_plugin "/videos/a/b"). discriminate.
Defined.

(** With an empty base URL every path starts with the base URL, and
    the split on the empty separator raises [ValueError]: [route_for]
    finds no view function for any path. *)
Theorem route_for_empty_base_url (p : Plugin.t) (path : string) :
  Plugin.base_url p = "" -> Plugin.route_for p path = Raise ValueError.
Proof. intros Hbase. unfold Plugin.route_for. now rewrite Hbase. Qed.

Lemma route_for_empty_base_url_witness :
  Plugin.route_for (Plugin.init "plugin.foo.bar" (Some "")) "/videos/a"
  = Raise ValueError.
Proof.
  apply (route_for_empty_base_url (Plugin.init "plugin.foo.bar" (Some ""))).
  reflexivity.
Defined.

(** ** Which view function a path reaches *)

Lemma route_rules_spec (view : Plugin.view_func) (rules : list UrlRule.t)
      (path : string) :
  Plugin.route_rules view rules path
  = if existsb (fun rule => matches rule path) rules then Some view else None.
Proof.
  induction rules as [|rule rules IH]; [reflexivity|].
  cbn [Plugin.route_rules existsb]. unfold matches at 1.
  destruct (UrlRule.match_ rule path); [reflexivity | exact IH].
Qed.

Lemma dispatch_rules_route (view : Plugin.view_func) (rules : list UrlRule.t)
      (path : string) :
  match Plugin.route_rules view rules path with
  | Some found =>
      found = view
      /\ exists rule kwargs,
          In rule rules /\ UrlRule.match_ rule path = Some kwargs
          /\ Plugin.dispatch_rules view rules path
             = Some ([Plugin.Log (Plugin.dispatching_to view kwargs);
                      Plugin.Call view kwargs], Plugin.v_call view kwargs)
  | None => Plugin.dispatch_rules view rules path = None
  end.
Proof.
  induction rules as [|rule rules IH]; [reflexivity|].
  cbn [Plugin.route_rules Plugin.dispatch_rules].
  destruct (UrlRule.match_ rule path) as [kwargs|] eqn:E.
  - split; [reflexivity|]. exists rule, kwargs. repeat split; [now left | exact E].
  - destruct (Plugin.route_rules view rules path) as [found|]; [|exact IH].
    destruct IH as [-> [r [kw [Hin [Hm Hd]]]]]. split; [reflexivity|].
    exists r, kw. repeat split; [now right | exact Hm | exact Hd].
Qed.

(** X2: [route_for] and [_dispatch] agree.  For a path that does not start
    with the base URL, [_dispatch] calls the view function that
    [route_for] returns, once, with the arguments one of its rules
    extracts from the path, and raises [RoutingError] without a call when
    [route_for] returns [None]. *)
Theorem dispatch_calls_route_for (p : Plugin.t) (path : string) :
  Py.startswith (Plugin.base_url p) path = false ->
  match Plugin.route_for p path with
  | Ok (Some view) =>
      exists rules rule kwargs,
        In (view, rules) (Plugin._rules p) /\ In rule rules
        /\ UrlRule.match_ rule path = Some kwargs
        /\ Plugin._dispatch p path
           = ([Plugin.Log (Plugin.dispatching_to view kwargs);
               Plugin.Call view kwargs], Plugin.v_call view kwargs)
  | Ok None =>
      Plugin._dispatch p path
      = ([], Raise (RoutingError (Plugin.no_route_to path)))
  | _ => False
  end.
Proof.
  intros Hno. unfold Plugin.route_for, Plugin._dispatch. rewrite Hno.
  cbn [bind]. induction (Plugin._rules p) as [|[view rules] items IH];
    [reflexivity|].
  cbn [Plugin.route_items Plugin.dispatch_items].
  pose proof (dispatch_rules_route view rules path) as Hr.
  destruct (Plugin.route_rules view rules path) as [found|].
  - destruct Hr as [-> [rule [kwargs [Hin [Hm ->]]]]].
    exists rules, rule, kwargs. repeat split; [now left | exact Hin | exact Hm].
  - rewrite Hr. destruct (Plugin.route_items items path) as [found|]; [|exact IH].
    destruct IH as [rs [rule [kwargs [Hin [Hr' [Hm Hd]]]]]].
    exists rs, rule, kwargs. repeat split; [now right | exact Hr' | exact Hm | exact Hd].
Qed.

Lemma dispatch_calls_route_for_witness :
  match Plugin.route_for videos_plugin "/videos/a/b" with
  | Ok (Some view) =>
      exists rules rule kwargs,
        In (view, rules) (Plugin._rules videos_plugin) /\ In rule rules
        /\ UrlRule.match_ rule "/videos/a/b" = Some kwargs
        /\ Plugin._dispatch videos_plugin "/videos/a/b"
           = ([Plugin.Log (Plugin.dispatching_to view kwargs);
               Plugin.Call view kwargs], Plugin.v_call view kwargs)
  | Ok None =>
      Plugin._dispatch videos_plugin "/videos/a/b"
      = ([], Raise (RoutingError (Plugin.no_route_to "/videos/a/b")))
  | _ => False
  end.
Proof.
  apply (dispatch_calls_route_for videos_plugin "/videos/a/b"). reflexivity.
Defined.

Lemma first_match_items
        (p : Plugin.t) (path : string)
        (before : list (Plugin.view_func * list UrlRule.t))
        (view : Plugin.view_func) (earlier : list UrlRule.t) (rule : UrlRule.t)
        (later : list UrlRule.t)
        (after : list (Plugin.view_func * list UrlRule.t))
        (kwargs : list (string * option string)) :
  Plugin._rules p
  = (before ++ (view, earlier ++ rule :: later) :: after)%list ->
  (forall v rules r, In (v, rules) before -> In r rules ->
                     UrlRule.match_ r path = None) ->
  (forall r, In r earlier -> UrlRule.match_ r path = None) ->
  UrlRule.match_ rule path = Some kwargs ->
  Plugin.route_items (Plugin._rules p) path = Some view
  /\ Plugin._dispatch p path
     = ([Plugin.Log (Plugin.dispatching_to view kwargs);
         Plugin.Call view kwargs], Plugin.v_call view kwargs).
Proof.
  intros Hrules Hbefore Hearlier Hm. unfold Plugin._dispatch. rewrite Hrules.
  clear Hrules. induction before as [|[v rs] before IH]; cbn [app].
  - cbn [Plugin.route_items Plugin.dispatch_items].
    clear Hbefore. induction earlier as [|r earlier IHe]; cbn [app].
    + cbn [Plugin.route_rules Plugin.dispatch_rules]. now rewrite Hm.
    + cbn [Plugin.route_rules Plugin.dispatch_rules].
      rewrite (Hearlier r) by now left.
      apply IHe. intros r' Hr'. apply Hearlier. now right.
  - cbn [Plugin.route_items Plugin.dispatch_items].
    rewrite route_rules_spec.
    assert (Hnone : existsb (fun r => matches r path) rs = false).
    { apply not_true_is_false. intros Hex. apply existsb_exists in Hex.
      destruct Hex as [r [Hin Hr]]. unfold matches in Hr.
      rewrite (Hbefore v rs r) in Hr; [discriminate | now left | exact Hin]. }
    rewrite Hnone, dispatch_rules_none.
    + apply IH. intros v' rules r Hin. apply (Hbefore v' rules r). now right.
    + intros r Hr. apply (Hbefore v rs r); [now left | exact Hr].
Qed.


(** ** Registration *)

Lemma same_func_trans (f g h : Plugin.view_func) :
  Plugin.same_func f g = true -> Plugin.same_func g h = Plugin.same_func f h.
Proof.
  unfold Plugin.same_func. intros Hfg. apply Nat.eqb_eq in Hfg. now rewrite Hfg.
Qed.

Lemma append_rule_same (func : Plugin.view_func) (rule : UrlRule.t)
      (rules : list (Plugin.view_func * list UrlRule.t)) :
  Plugin.rules_of func (Plugin.append_rule func rule rules)
  = Some (match Plugin.rules_of func rules with
          | Some rs => rs
          | None => []
          end ++ [rule])%list.
Proof.
  induction rules as [|[f rs] rules IH]; cbn [Plugin.append_rule Plugin.rules_of].
  - unfold Plugin.same_func. now rewrite Nat.eqb_refl.
  - destruct (Plugin.same_func func f) eqn:E; cbn [Plugin.rules_of]; rewrite E;
      [reflexivity | exact IH].
Qed.

Lemma append_rule_other (func g : Plugin.view_func) (rule : UrlRule.t)
      (rules : list (Plugin.view_func * list UrlRule.t)) :
  Plugin.same_func g func = false ->
  Plugin.rules_of g (Plugin.append_rule func rule rules)
  = Plugin.rules_of g rules.
Proof.
  intros Hg. induction rules as [|[f rs] rules IH];
    cbn [Plugin.append_rule Plugin.rules_of].
  - now rewrite Hg.
  - destruct (Plugin.same_func func f) eqn:E; cbn [Plugin.rules_of].
    + assert (Hgf : Plugin.same_func g f = false).
      { unfold Plugin.same_func in *. apply Nat.eqb_eq in E.
        now rewrite <- E. }
      now rewrite Hgf.
    + now rewrite IH.
Qed.

Lemma append_rule_ids (func : Plugin.view_func) (rule : UrlRule.t)
      (rules : list (Plugin.view_func * list UrlRule.t)) :
  view_ids (Plugin.append_rule func rule rules)
  = (view_ids rules
       ++ if registered func rules then [] else [Plugin.v_id func])%list.
Proof.
  unfold view_ids, registered.
  induction rules as [|[f rs] rules IH]; cbn [Plugin.append_rule map existsb fst];
    [reflexivity|].
  destruct (Plugin.same_func func f) eqn:E; cbn [map fst orb app].
  - now rewrite app_nil_r.
  - now rewrite IH.
Qed.

Lemma registered_in (func : Plugin.view_func)
      (rules : list (Plugin.view_func * list UrlRule.t)) :
  registered func rules = false -> ~ In (Plugin.v_id func) (view_ids rules).
Proof.
  unfold registered, view_ids.
  induction rules as [|[f rs] rules IH]; cbn [existsb map fst In]; [tauto|].
  intros H. apply orb_false_elim in H. destruct H as [Hf Hr].
  intros [Heq|Hin]; [|now apply IH].
  unfold Plugin.same_func in Hf. apply Nat.eqb_neq in Hf. congruence.
Qed.

(** X4: what [add_route] does to the table.  When the pattern compiles,
    the new rule is the last rule of the view function, after the rules it
    had; the rules of every other view function and the base URL stay as
    they were; the view functions keep their order, a new one coming
    last; and no view function is in the table twice if none was. *)
Theorem add_route_registers
        (p p' : Plugin.t) (func : Plugin.view_func) (pattern : string) :
  Plugin.add_route p func pattern = Ok p' ->
  (exists rule,
      UrlRule.init pattern = Ok rule
      /\ Plugin.rules_of func (Plugin._rules p')
         = Some (rules_or_none func p ++ [rule])%list)
  /\ (forall g, Plugin.same_func g func = false ->
                Plugin.rules_of g (Plugin._rules p')
                = Plugin.rules_of g (Plugin._rules p))
  /\ Plugin.base_url p' = Plugin.base_url p
  /\ view_ids (Plugin._rules p')
     = (view_ids (Plugin._rules p)
          ++ if registered func (Plugin._rules p) then []
             else [Plugin.v_id func])%list
  /\ (NoDup (view_ids (Plugin._rules p)) ->
      NoDup (view_ids (Plugin._rules p'))).
Proof.
  unfold Plugin.add_route. destruct (UrlRule.init pattern) as [rule| |] eqn:E;
    cbn [bind]; try discriminate.
  intros [= <-]. cbn [Plugin._rules Plugin.base_url]. repeat apply conj.
  - exists rule. split; [reflexivity|]. unfold rules_or_none.
    apply append_rule_same.
  - intros g Hg. now apply append_rule_other.
  - reflexivity.
  - apply append_rule_ids.
  - intros Hnd. rewrite append_rule_ids.
    destruct (registered func (Plugin._rules p)) eqn:Er.
    + now rewrite app_nil_r.
    + apply NoDup_app; [exact Hnd | repeat constructor; intros [] |].
      intros x Hx [<-|[]]. now apply (registered_in func (Plugin._rules p)).
Qed.

Lemma add_route_registers_witness :
  exists p',
    item_plugin = Ok p'
    /\ (exists rule,
           UrlRule.init "/item/<id>/<variant>" = Ok rule
           /\ Plugin.rules_of H (Plugin._rules p')
              = Some ([rule_of "/item/<id>"] ++ [rule])%list)
    /\ view_ids (Plugin._rules p') = [0].
Proof.
  exists item_routes. split; [vm_compute; reflexivity|].
  destruct (add_route_registers
              (Plugin.mk [(H, [rule_of "/item/<id>"])] "plugin://plugin.foo.bar")
              item_routes H "/item/<id>/<variant>")
    as [Hrule [_ [_ [Hids _]]]].
  - vm_compute. reflexivity.
  - split; [exact Hrule | exact Hids].
Defined.

(** ** What [url_for] returns *)

Lemma first_path_found (rules : list UrlRule.t) (args : list string)
      (kwargs : Py.kwargs) (path : string) :
  Plugin.first_path rules args kwargs = Ok (Some path) ->
  exists earlier rule later,
    rules = (earlier ++ rule :: later)%list
    /\ (forall r, In r earlier -> UrlRule.make_path r args kwargs = Ok None)
    /\ UrlRule.make_path rule args kwargs = Ok (Some path).
Proof.
  induction rules as [|r rules IH]; cbn [Plugin.first_path]; [discriminate|].
  destruct (UrlRule.make_path r args kwargs) as [[found|]| |] eqn:E; cbn [bind];
    try discriminate.
  - intros [= ->]. exists [], r, rules. repeat split; [intros ? []|exact E].
  - intros Hrest. destruct (IH Hrest) as [earlier [rule [later [-> [He Hr]]]]].
    exists (r :: earlier), rule, later. repeat split; [|exact Hr].
    intros r' [<-|Hin]; [exact E | now apply He].
Qed.

Lemma rooted_slash (path : string) :
  exists rest, rooted path = String "/" rest.
Proof.
  unfold rooted. destruct (Py.startswith "/" path) eqn:E.
  - now apply startswith_slash.
  - now exists path.
Qed.

(** X5: a URL that [url_for] returns comes from a rule registered for that
    view function, the first one for which [make_path] gives a path; it is
    the base URL followed by that path, with a slash between them when the
    path does not start with one. *)
Theorem url_for_sound
        (p : Plugin.t) (func : Plugin.view_func) (args : list string)
        (kwargs : Py.kwargs) (url : string) :
  Plugin.url_for p func args kwargs = Ok url ->
  exists earlier rule later path,
    Plugin.rules_of func (Plugin._rules p) = Some (earlier ++ rule :: later)%list
    /\ (forall r, In r earlier -> UrlRule.make_path r args kwargs = Ok None)
    /\ UrlRule.make_path rule args kwargs = Ok (Some path)
    /\ url = Plugin.base_url p ++ rooted path
    /\ Py.startswith (Plugin.base_url p ++ "/") url = true.
Proof.
  unfold Plugin.url_for.
  destruct (Plugin.rules_of func (Plugin._rules p)) as [rules|];
    [|cbn [bind]; discriminate].
  destruct (Plugin.first_path rules args kwargs) as [[path|]| |] eqn:E;
    cbn [bind]; try discriminate.
  intros [= <-]. apply first_path_found in E.
  destruct E as [earlier [rule [later [-> [He Hr]]]]].
  exists earlier, rule, later, path. repeat split; try assumption.
  unfold Plugin.url_for_path. fold (rooted path).
  destruct (rooted_slash path) as [rest ->].
  change (String "/" rest) with ("/" ++ rest).
  rewrite <- append_assoc. apply startswith_app.
Qed.

Lemma url_for_sound_witness :
  exists earlier rule later path,
    Plugin.rules_of H (Plugin._rules item_routes)
    = Some (earlier ++ rule :: later)%list
    /\ (forall r, In r earlier -> UrlRule.make_path r ["7"; "b"] [] = Ok None)
    /\ UrlRule.make_path rule ["7"; "b"] [] = Ok (Some path)
    /\ "plugin://plugin.foo.bar/item/7/b"
       = Plugin.base_url item_routes ++ rooted path
    /\ Py.startswith (Plugin.base_url item_routes ++ "/")
                     "plugin://plugin.foo.bar/item/7/b" = true.
Proof.
  apply (url_for_sound item_routes H ["7"; "b"] []
                       "plugin://plugin.foo.bar/item/7/b").
  vm_compute. reflexivity.
Defined.

(** ** [make_path] with keyword arguments *)

Lemma init_template (pattern : string) (items : list item) :
  UrlRule.stripped pattern = render source_text items ->
  template_pattern items ->
  UrlRule.init pattern
  = Ok (UrlRule.mk (render fmt_text items) (item_names items)
                   (render regex_text items) (items_compiled items)).
Proof.
  intros Hs [Hok [Hnd Htf]].
  rewrite (init_items pattern items Hs).
  - unfold items_rule. now rewrite kw_sub_items, kw_findall_items.
  - split; [now apply rt_items_ok | exact Hnd].
Qed.

Lemma lookup_filter (p : string -> bool) (n : string) (kw : Py.kwargs) :
  Py.lookup n (filter (fun e => p (fst e)) kw)
  = if p n then Py.lookup n kw else None.
Proof.
  induction kw as [|[k v] kw IH]; cbn [filter Py.lookup fst].
  - now destruct (p n).
  - destruct (String.eqb n k) eqn:E.
    + apply String.eqb_eq in E. subst k. destruct (p n) eqn:Ep.
      * cbn [Py.lookup]. now rewrite String.eqb_refl.
      * rewrite IH. reflexivity.
    + destruct (p k); [cbn [Py.lookup]; rewrite E|]; exact IH.
Qed.

Lemma is_name_in (items : list item) (n : string) :
  In n (item_names items) -> is_name items n = true.
Proof. apply existsb_eqb_in. Qed.

Lemma kw_values_filter (items : list item) (kw : Py.kwargs) :
  kw_values (filter (fun e => is_name items (fst e)) kw) items
  = kw_values kw items.
Proof.
  unfold kw_values. apply map_ext_in. intros n Hn. unfold kw_value.
  now rewrite (lookup_filter (is_name items)), is_name_in.
Qed.

Lemma forallb_agree {A : Type} (f g : A -> bool) (l : list A) :
  (forall x, In x l -> f x = g x) -> forallb f l = forallb g l.
Proof.
  induction l as [|x l IH]; intros Hfg; [reflexivity|]. cbn [forallb].
  rewrite (Hfg x) by now left. rewrite IH; [reflexivity|].
  intros y Hy. apply Hfg. now right.
Qed.

Lemma gives_all_filter (items : list item) (kw : Py.kwargs) :
  gives_all (filter (fun e => is_name items (fst e)) kw) items
  = gives_all kw items.
Proof.
  unfold gives_all. apply forallb_agree. intros n Hn. unfold has_key.
  now rewrite (lookup_filter (is_name items)), is_name_in.
Qed.

(** [format] on the template: the values in the places of the
    placeholders, or [KeyError] at the first one without a value. *)
Lemma format_items_total (items : list item) (kw : Py.kwargs) :
  forallb rt_item_ok items = true ->
  match Py.format_loop (render fmt_text items) None kw with
  | Ok path => gives_all kw items = true
               /\ path = filled items (kw_values kw items)
  | Raise (KeyError _) => gives_all kw items = false
  | _ => False
  end.
Proof.
  unfold gives_all, kw_values.
  induction items as [|it items IH]; intros Hok; [now split|].
  cbn [forallb] in Hok. apply andb_prop in Hok. destruct Hok as [Hit Hok].
  specialize (IH Hok).
  assert (Hfield : forall n,
             valid_name n = true ->
             match Py.format_loop (("{" ++ n ++ "}") ++ render fmt_text items)
                                  None kw with
             | Ok path =>
                 has_key kw n && forallb (has_key kw) (item_names items) = true
                 /\ path = kw_value kw n
                             ++ filled items (map (kw_value kw) (item_names items))
             | Raise (KeyError _) =>
                 has_key kw n && forallb (has_key kw) (item_names items) = false
             | _ => False
             end).
  { intros n Hn. unfold has_key at 1 3, kw_value at 1.
    destruct (Py.lookup n kw) as [v|] eqn:E.
    - rewrite (format_field n _ v) by assumption. cbn [andb].
      destruct (Py.format_loop (render fmt_text items) None kw)
        as [path|[]|]; cbn [bind]; try exact IH.
      destruct IH as [Hall ->]. now split.
    - destruct (valid_name_chars n Hn) as [Hne Hch].
      replace (("{" ++ n ++ "}") ++ render fmt_text items)
        with (String "{" (n ++ String "}" (render fmt_text items)))
        by (cbn [append]; now rewrite append_assoc).
      destruct n as [|c n]; [congruence|].
      assert (Hc : Ascii.eqb c "{" = false).
      { cbn [forallb_str] in Hch. apply andb_prop in Hch.
        destruct Hch as [Hc _]. now apply (name_char_neq c "{"). }
      cbn [append]. rewrite format_open by exact Hc.
      change (String c (n ++ String "}" (render fmt_text items)))
        with (String c n ++ String "}" (render fmt_text items)).
      rewrite format_field_name by exact Hch.
      cbn [Py.format_loop Ascii.eqb Bool.eqb].
      destruct (str_rev_app (String c n) "") as [|x acc] eqn:Er.
      + exfalso. apply Hne. rewrite <- (str_rev_rev (String c n)), Er.
        reflexivity.
      + rewrite <- Er, str_rev_rev, E. reflexivity. }
  destruct it as [t|n|n|n];
    cbn [rt_item_ok render fmt_text item_names filled map forallb] in *;
    try (now apply Hfield).
  rewrite format_lit by exact Hit.
  destruct (Py.format_loop (render fmt_text items) None kw) as [path|[]|];
    cbn [bind]; try exact IH.
  destruct IH as [Hall ->]. now split.
Qed.

Lemma make_path_template (items : list item) (kw : Py.kwargs) :
  forallb rt_item_ok items = true ->
  UrlRule.make_path
    (UrlRule.mk (render fmt_text items) (item_names items)
                (render regex_text items) (items_compiled items)) [] kw
  = Ok (if gives_all kw items
        then Some (filled items (kw_values kw items)
                     ++ query_string (extra_kwargs items kw))
        else None).
Proof.
  intros Hok.
  pose proof (format_items_total items
                (filter (fun e => is_name items (fst e)) kw) Hok) as Hf.
  rewrite gives_all_filter, kw_values_filter in Hf.
  unfold UrlRule.make_path, UrlRule.is_keyword, Py.format, extra_kwargs,
    query_string, is_name in *.
  cbn [UrlRule._keywords UrlRule._pattern] in *. revert Hf.
  match goal with
  | |- context [Py.format_loop ?a ?b ?c] =>
      destruct (Py.format_loop a b c) as [path|e|]
  end; [| |contradiction].
  - intros [-> ->]. reflexivity.
  - destruct e; try contradiction. now intros ->.
Qed.

(** X6: [make_path] with keyword arguments only.  When every placeholder
    has a value the path is the pattern with the values in the places of
    the placeholders, followed, when there are other keyword arguments, by
    a question mark and these arguments url-encoded in the order given;
    when a placeholder has no value [make_path] returns [None]. *)
Theorem make_path_keywords
        (pattern : string) (items : list item) (kwargs : Py.kwargs) :
  UrlRule.stripped pattern = render source_text items ->
  template_pattern items ->
  exists rule,
    UrlRule.init pattern = Ok rule
    /\ UrlRule.make_path rule [] kwargs
       = Ok (if gives_all kwargs items
             then Some (filled items (kw_values kwargs items)
                          ++ query_string (extra_kwargs items kwargs))
             else None).
Proof.
  intros Hs Ht. eexists. split; [exact (init_template pattern items Hs Ht)|].
  apply make_path_template. apply Ht.
Qed.

Lemma make_path_keywords_witness :
  exists rule,
    UrlRule.init "/item/<id>/<variant>/" = Ok rule
    /\ UrlRule.make_path rule [] [("sort", "a b"); ("variant", "b"); ("id", "7")]
       = Ok (Some ("/item/7/b" ++ "?sort=a+b"))
    /\ UrlRule.make_path rule [] [("sort", "a b"); ("id", "7")] = Ok None.
Proof.
  assert (Hs : UrlRule.stripped "/item/<id>/<variant>/"
               = render source_text item_items) by reflexivity.
  assert (Ht : template_pattern item_items).
  { repeat split; try reflexivity.
    cbn. repeat constructor; cbn; intuition discriminate. }
  destruct (make_path_keywords "/item/<id>/<variant>/" item_items
              [("sort", "a b"); ("variant", "b"); ("id", "7")] Hs Ht)
    as [rule [Hinit Hfull]].
  destruct (make_path_keywords "/item/<id>/<variant>/" item_items
              [("sort", "a b"); ("id", "7")] Hs Ht)
    as [rule' [Hinit' Hmiss]].
  exists rule. split; [exact Hinit|]. split; [exact Hfull|].
  assert (Heq : rule' = rule) by congruence. subst rule'. exact Hmiss.
Defined.

(** ** [make_path] with positional arguments *)

Lemma sub_pct (s : string) :
  PyRe.sub "{[A-z]+}" "%s" s = Ok (PyRe.sub_scan brace_regex tpct 0 0 s).
Proof. reflexivity. Qed.

Lemma regex_plain_no_brace (l : string) :
  forallb_str regex_plain l = true -> no_char "{" l = true.
Proof.
  apply forallb_str_impl. intros c Hc. apply negb_true_iff.
  apply Ascii.eqb_neq. intros <-. discriminate.
Qed.

Lemma brace_match (n b : string) (pos : nat) :
  valid_name n = true ->
  match_at brace_regex pos (String "{" (n ++ String "}" b))
  = Some (pos + S (String.length (n ++ "}")), b, []).
Proof.
  intros Hn. destruct (valid_name_Az n Hn) as [Hne HAz].
  unfold match_at, brace_regex. rewrite mt_Cat, mt_Chr, Ascii.eqb_refl.
  rewrite mt_Cat, mt_Plus_Cls.
  destruct n as [|a n]; [congruence|]. cbn [append].
  cbn [forallb_str] in HAz. apply andb_prop in HAz. destruct HAz as [Ha HAz].
  fold (Az a). rewrite Ha.
  apply (rep_chars_greedy_all _ _ n); [exact HAz | reflexivity |].
  rewrite mt_Cat, mt_Chr, Ascii.eqb_refl, mt_Eps. unfold kdone.
  cbn [String.length]. rewrite length_append. cbn [String.length].
  match goal with
  | |- Some (?x, _, _) = Some (?y, _, _) => replace x with y by lia
  end. reflexivity.
Qed.

Lemma pct_item (it : item) (b : string) (pos : nat) :
  item_ok it = true ->
  exists pos', PyRe.sub_scan brace_regex tpct pos 0 (fmt_text it ++ b)
               = pct_text it ++ PyRe.sub_scan brace_regex tpct pos' 0 b.
Proof.
  assert (Hfield : forall n,
             valid_name n = true ->
             exists pos', PyRe.sub_scan brace_regex tpct pos 0
                            (("{" ++ n ++ "}") ++ b)
                          = "%s" ++ PyRe.sub_scan brace_regex tpct pos' 0 b).
  { intros n Hn. exists (pos + S (String.length (n ++ "}"))).
    replace (("{" ++ n ++ "}") ++ b) with (String "{" ((n ++ "}") ++ b))
      by (cbn [append]; now rewrite !append_assoc).
    rewrite (sub_scan_hit brace_regex tpct "{" (n ++ "}") b b pos []).
    - reflexivity.
    - rewrite append_assoc. cbn [append]. now apply brace_match. }
  destruct it as [l|n|n|n]; cbn [item_ok fmt_text pct_text]; intros Hok;
    try (now apply Hfield).
  exists (pos + String.length l). unfold brace_regex.
  apply sub_scan_inert_chr. now apply regex_plain_no_brace.
Qed.

Lemma pct_items (items : list item) :
  forallb item_ok items = true ->
  PyRe.sub_scan brace_regex tpct 0 0 (render fmt_text items)
  = render pct_text items.
Proof.
  intros Hok. apply (stage_items brace_regex tpct fmt_text pct_text);
    [|exact Hok]. intros it b pos. apply pct_item.
Qed.

(** *** The [%] operator on the template *)

Lemma percent_lit (t rest : string) (args : list string) :
  no_char "%" t = true ->
  Py.percent (t ++ rest) args
  = (r <- Py.percent rest args ;; Ok (t ++ r)).
Proof.
  induction t as [|c t IH]; intros Ht; cbn [append].
  - now destruct (Py.percent rest args).
  - cbn [no_char forallb_str] in Ht. apply andb_prop in Ht.
    destruct Ht as [Hc Ht]. apply negb_true_iff in Hc.
    rewrite Ascii.eqb_sym in Hc.
    cbn [Py.percent]. rewrite Hc, (IH Ht).
    now destruct (Py.percent rest args).
Qed.

Lemma percent_items (items : list item) :
  forall args,
    no_percent items = true ->
    Py.percent (render pct_text items) args
    = if Nat.eqb (List.length args) (List.length (item_names items))
      then Ok (filled items args) else Raise TypeError.
Proof.
  induction items as [|it items IH]; intros args Hnp.
  - now destruct args.
  - cbn [no_percent forallb] in Hnp. apply andb_prop in Hnp.
    destruct Hnp as [Hit Hnp]. fold (no_percent items) in Hnp.
    assert (Hfield :
              Py.percent ("%s" ++ render pct_text items) args
              = if Nat.eqb (List.length args) (S (List.length (item_names items)))
                then Ok (match args with
                         | v :: vals' => v ++ filled items vals'
                         | [] => ""
                         end)
                else Raise TypeError).
    { cbn [append Py.percent Ascii.eqb Bool.eqb].
      destruct args as [|a args]; [reflexivity|].
      rewrite (IH args Hnp). cbn [List.length Nat.eqb].
      now destruct (Nat.eqb (List.length args) (List.length (item_names items))). }
    destruct it as [t|n|n|n];
      cbn [render pct_text item_names filled List.length];
      try exact Hfield.
    rewrite percent_lit by exact Hit. rewrite (IH args Hnp).
    now destruct (Nat.eqb (List.length args) (List.length (item_names items))).
Qed.

Lemma make_path_template_args (items : list item) (args : list string) :
  forallb rt_item_ok items = true -> no_percent items = true ->
  args <> [] ->
  UrlRule.make_path
    (UrlRule.mk (render fmt_text items) (item_names items)
                (render regex_text items) (items_compiled items)) args []
  = Ok (if Nat.eqb (List.length args) (List.length (item_names items))
        then Some (filled items args) else None).
Proof.
  intros Hok Hnp Hargs. destruct args as [|a args]; [congruence|].
  unfold UrlRule.make_path. cbn [UrlRule._pattern].
  rewrite sub_pct, pct_items by now apply rt_items_ok. cbn [bind].
  rewrite percent_items by exact Hnp.
  now destruct (Nat.eqb (List.length (a :: args))
                        (List.length (item_names items))).
Qed.

(** *** Positional arguments as keyword arguments *)

Lemma lookup_combine_head (n : string) (names : list string) (v : string)
      (vals : list string) (m : string) :
  m <> n ->
  Py.lookup m (combine (n :: names) (v :: vals))
  = Py.lookup m (combine names vals).
Proof.
  intros Hm. cbn [combine Py.lookup].
  destruct (String.eqb_spec m n); [congruence | reflexivity].
Qed.

Lemma kw_value_combine (names : list string) :
  forall vals,
    NoDup names -> List.length vals = List.length names ->
    map (kw_value (combine names vals)) names = vals
    /\ forallb (has_key (combine names vals)) names = true.
Proof.
  induction names as [|n names IH]; intros vals Hnd Hlen.
  - destruct vals; [now split | discriminate].
  - destruct vals as [|v vals]; [discriminate|].
    inversion Hnd as [|? ? Hnotin Hnd']; subst.
    cbn [List.length] in Hlen.
    destruct (IH vals Hnd' ltac:(lia)) as [Hmap Hall].
    assert (Hext : forall m, In m names ->
                             Py.lookup m (combine (n :: names) (v :: vals))
                             = Py.lookup m (combine names vals)).
    { intros m Hm. apply lookup_combine_head. intros ->. contradiction. }
    cbn [map forallb]. split.
    + f_equal.
      * unfold kw_value. cbn [combine Py.lookup]. now rewrite String.eqb_refl.
      * rewrite <- Hmap at 2. apply map_ext_in. intros m Hm. unfold kw_value.
        now rewrite Hext.
    + apply andb_true_intro. split.
      * unfold has_key. cbn [combine Py.lookup]. now rewrite String.eqb_refl.
      * rewrite <- Hall. apply forallb_agree. intros m Hm. unfold has_key.
        now rewrite Hext.
Qed.

Lemma extra_kwargs_combine (items : list item) (vals : list string) :
  extra_kwargs items (combine (item_names items) vals) = [].
Proof.
  unfold extra_kwargs.
  apply (filter_all (fun e : string * string => is_name items (fst e))).
  intros [k v] Hin. cbn [fst]. apply is_name_in.
  now apply (in_combine_l _ _ _ _ Hin).
Qed.

(** X7: [make_path] with positional arguments only.  For a pattern
    without percent sign, the arguments take the places of the
    placeholders in the order of the pattern when there are as many of
    them as placeholders, and [make_path] returns [None] for any other
    number; the path is the one that the same values give as keyword
    arguments under the placeholder names. *)
Theorem make_path_positional
        (pattern : string) (items : list item) (args : list string) :
  UrlRule.stripped pattern = render source_text items ->
  template_pattern items ->
  no_percent items = true ->
  args <> [] ->
  exists rule,
    UrlRule.init pattern = Ok rule
    /\ UrlRule.make_path rule args []
       = Ok (if Nat.eqb (List.length args) (List.length (item_names items))
             then Some (filled items args) else None)
    /\ (List.length args = List.length (item_names items) ->
        UrlRule.make_path rule args []
        = UrlRule.make_path rule [] (combine (item_names items) args)).
Proof.
  intros Hs Ht Hnp Hargs. eexists.
  split; [exact (init_template pattern items Hs Ht)|].
  destruct Ht as [Hok [Hnd Htf]].
  rewrite make_path_template_args by assumption.
  split; [reflexivity|]. intros Hlen.
  rewrite make_path_template by assumption.
  destruct (kw_value_combine (item_names items) args Hnd Hlen) as [Hv Hall].
  unfold gives_all, kw_values. rewrite Hall, Hv, extra_kwargs_combine.
  cbn [query_string]. rewrite append_nil_r, Hlen, Nat.eqb_refl. reflexivity.
Qed.

Lemma make_path_positional_witness :
  exists rule,
    UrlRule.init "/item/<id>/<variant>/" = Ok rule
    /\ UrlRule.make_path rule ["7"; "b"] [] = Ok (Some "/item/7/b")
    /\ (List.length ["7"; "b"] = List.length (item_names item_items) ->
        UrlRule.make_path rule ["7"; "b"] []
        = UrlRule.make_path rule [] [("id", "7"); ("variant", "b")]).
Proof.
  apply (make_path_positional "/item/<id>/<variant>/" item_items ["7"; "b"]).
  - reflexivity.
  - repeat split; try reflexivity.
    cbn. repeat constructor; cbn; intuition discriminate.
  - reflexivity.
  - discriminate.
Defined.

(** ** From [match] back to [make_path] *)

Lemma vals_ok_length (items : list item) :
  forall vals, vals_ok items vals ->
               List.length vals = List.length (item_names items).
Proof.
  induction items as [|it items IH]; intros vals Hok.
  - cbn [vals_ok] in Hok. now subst vals.
  - destruct it as [t|n|n|n]; cbn [vals_ok item_names List.length] in *;
      [now apply IH | | |];
      (destruct vals as [|v vals]; [destruct Hok|];
       cbn [List.length]; f_equal; apply IH; apply Hok).
Qed.

Lemma at_eol_cases (s : string) :
  at_eol s = true -> s = "" \/ s = String newline "".
Proof.
  destruct s as [|c [|d s]]; cbn [at_eol]; intros He;
    [now left | right | discriminate].
  apply Ascii.eqb_eq in He. now subst c.
Qed.

Lemma match_template_inv (items : list item) (path : string)
      (d : list (string * option string)) :
  UrlRule.match_ (template_rule items) path = Some d ->
  exists vals s',
    vals_ok items vals /\ path = filled items vals ++ s' /\ at_eol s' = true
    /\ d = combine (item_names items) (map Some vals).
Proof.
  unfold UrlRule.match_, PyRe.search.
  cbn [template_rule UrlRule._regex items_compiled re_ast].
  destruct (search_from (items_regex items) 0 path) as [[[st en] c]|] eqn:E;
    [|discriminate].
  intros [= <-]. apply search_items_inv in E.
  destruct E as [vals [s' [Hok [Hp [He Hc]]]]]. cbn [snd] in Hc. subst c.
  exists vals, s'. repeat split; try assumption.
  unfold PyRe.groupdict. cbn [re_names].
  apply groupdict_captured. now apply vals_ok_length.
Qed.

(** X8: what [match] returns, and the way back.  When a path matches, the
    dictionary has the placeholder names in the order of the pattern, each
    with a value; the path is the pattern with these values in the places
    of the placeholders, possibly followed by one newline; and [make_path]
    with these values as keyword arguments gives that path without the
    newline. *)
Theorem match_make_path_roundtrip (pattern : string) (items : list item) :
  UrlRule.stripped pattern = render source_text items ->
  template_pattern items ->
  exists rule,
    UrlRule.init pattern = Ok rule
    /\ forall path d,
        UrlRule.match_ rule path = Some d ->
        exists vals,
          d = combine (item_names items) (map Some vals)
          /\ List.length vals = List.length (item_names items)
          /\ (path = filled items vals
              \/ path = filled items vals ++ String newline "")
          /\ UrlRule.make_path rule [] (combine (item_names items) vals)
             = Ok (Some (filled items vals)).
Proof.
  intros Hs Ht. exists (template_rule items).
  split; [exact (init_template pattern items Hs Ht)|].
  intros path d Hm. apply match_template_inv in Hm.
  destruct Hm as [vals [s' [Hok [Hp [He Hd]]]]]. exists vals.
  pose proof (vals_ok_length items vals Hok) as Hlen.
  destruct Ht as [Hrt [Hnd Htf]].
  split; [exact Hd|]. split; [exact Hlen|]. split.
  - destruct (at_eol_cases s' He) as [-> | ->];
      [left; now rewrite append_nil_r in Hp | right; exact Hp].
  - unfold template_rule. rewrite make_path_template by exact Hrt.
    destruct (kw_value_combine (item_names items) vals Hnd Hlen) as [Hv Hall].
    unfold gives_all, kw_values. rewrite Hall, Hv, extra_kwargs_combine.
    cbn [query_string]. now rewrite append_nil_r.
Qed.

Lemma match_make_path_roundtrip_witness :
  exists rule,
    UrlRule.init "/item/<id>/<variant>/" = Ok rule
    /\ forall path d,
        UrlRule.match_ rule path = Some d ->
        exists vals,
          d = combine (item_names item_items) (map Some vals)
          /\ List.length vals = List.length (item_names item_items)
          /\ (path = filled item_items vals
              \/ path = filled item_items vals ++ String newline "")
          /\ UrlRule.make_path rule [] (combine (item_names item_items) vals)
             = Ok (Some (filled item_items vals)).
Proof.
  apply (match_make_path_roundtrip "/item/<id>/<variant>/" item_items).
  - reflexivity.
  - repeat split; try reflexivity.
    cbn. repeat constructor; cbn; intuition discriminate.
Defined.

(** ** From [url_for] to [route_for] and [redirect] *)

Lemma vals_fit_length (items : list item) :
  forall vals, vals_fit items vals ->
               List.length vals = List.length (item_names items).
Proof.
  induction items as [|it items IH]; intros vals Hfit.
  - cbn [vals_fit] in Hfit. now subst vals.
  - destruct it as [t|n|n|n]; cbn [vals_fit item_names List.length] in *;
      [now apply IH | | |];
      (destruct vals as [|v vals]; [destruct Hfit|];
       cbn [List.length]; f_equal; apply IH; apply Hfit).
Qed.

(** The rule matches the path that fitting values make. *)
Lemma match_filled (items : list item) (vals : list string) :
  rt_shape items = true -> vals_fit items vals ->
  UrlRule.match_ (template_rule items) (filled items vals)
  = Some (combine (item_names items) (map Some vals)).
Proof.
  intros Hsh Hfit. unfold UrlRule.match_, PyRe.search.
  cbn [template_rule UrlRule._regex items_compiled re_ast].
  rewrite items_regex_cat, search_from_bol.
  change (fold_right Cat (Cat Eol Eps) (nodes 0 items)) with (tail_regex 0 items).
  rewrite mt_items_fwd by assumption.
  unfold PyRe.groupdict. cbn [re_names]. f_equal.
  apply groupdict_captured. now apply vals_fit_length.
Qed.

Lemma route_for_url (p : Plugin.t) (path : string) :
  Plugin.base_url p <> "" ->
  Plugin.route_for p (Plugin.base_url p ++ path)
  = Ok (Plugin.route_items (Plugin._rules p) path).
Proof.
  intros Hbase. unfold Plugin.route_for, Py.split1. rewrite startswith_app.
  destruct (Plugin.base_url p) as [|b base] eqn:E; [congruence|].
  rewrite partition_prefix by apply startswith_app.
  rewrite drop_app. reflexivity.
Qed.

Lemma filled_startswith (items : list item) (vals : list string) :
  Py.startswith "/" (render source_text items) = true ->
  Py.startswith "/" (filled items vals) = true.
Proof.
  induction items as [|it items IH]; [discriminate|].
  destruct it as [t|n|n|n]; cbn [render source_text filled];
    try discriminate.
  destruct t as [|c t]; [exact IH|]. cbn [append Py.startswith]. trivial.
Qed.

Lemma rooted_startswith (path : string) :
  Py.startswith "/" path = true -> rooted path = path.
Proof. intros Hs. unfold rooted. now rewrite Hs. Qed.

(** The plugin after its first registration. *)
Lemma add_first_route (p0 : Plugin.t) (func : Plugin.view_func)
      (pattern : string) (rule : UrlRule.t) :
  Plugin._rules p0 = [] -> UrlRule.init pattern = Ok rule ->
  Plugin.add_route p0 func pattern
  = Ok (Plugin.mk [(func, [rule])] (Plugin.base_url p0)).
Proof.
  intros Hrules Hinit. unfold Plugin.add_route. rewrite Hinit, Hrules.
  reflexivity.
Qed.

Lemma rules_of_single (func : Plugin.view_func) (rules : list UrlRule.t) :
  Plugin.rules_of func [(func, rules)] = Some rules.
Proof.
  cbn [Plugin.rules_of]. unfold Plugin.same_func. now rewrite Nat.eqb_refl.
Qed.

(** X9: a URL built by [url_for] leads back to its view function.  In a
    plugin with a non-empty base URL and one route, whose pattern starts
    with a slash and is a pattern of the round trip, [url_for] with a
    fitting value for every placeholder returns the base URL followed by
    a path; [route_for] on that URL returns the view function, and
    [redirect] to the path calls the view function, once, with the values
    given. *)
Theorem url_for_route_for_roundtrip
        (p0 : Plugin.t) (func : Plugin.view_func) (pattern : string)
        (items : list item) (kwargs : Py.kwargs) :
  Plugin._rules p0 = [] ->
  Plugin.base_url p0 <> "" ->
  UrlRule.stripped pattern = render source_text items ->
  Py.startswith "/" (UrlRule.stripped pattern) = true ->
  roundtrip_pattern items ->
  (forall k v, In (k, v) kwargs -> In k (item_names items)) ->
  (forall it n, In it items -> item_name it = Some n ->
                exists v, Py.lookup n kwargs = Some v /\ value_ok it v = true) ->
  exists p path,
    Plugin.add_route p0 func pattern = Ok p
    /\ Plugin.url_for p func [] kwargs = Ok (Plugin.base_url p ++ path)
    /\ Plugin.route_for p (Plugin.base_url p ++ path) = Ok (Some func)
    /\ Plugin.redirect p path
       = (let d := map (fun n => (n, Py.lookup n kwargs)) (item_names items) in
          ([Plugin.Log (Plugin.dispatching_to func d); Plugin.Call func d],
           Plugin.v_call func d)).
Proof.
  intros Hrules Hbase Hs Hslash [Hok [Hnd [Htf Hsh]]] Hkeys Hvals.
  assert (Ht : template_pattern items) by (repeat split; assumption).
  pose proof (init_template pattern items Hs Ht) as Hinit.
  fold (template_rule items) in Hinit.
  assert (Hlook : forall n, In n (item_names items) ->
                            Py.lookup n kwargs <> None).
  { intros n Hn. destruct (item_names_in items n Hn) as [it [Hin Hname]].
    destruct (Hvals it n Hin Hname) as [v [Hl _]]. congruence. }
  assert (Hall : gives_all kwargs items = true).
  { unfold gives_all. apply forallb_forall. intros n Hn. unfold has_key.
    destruct (Py.lookup n kwargs) eqn:E; [reflexivity|].
    now apply Hlook in Hn. }
  assert (Hextra : extra_kwargs items kwargs = []).
  { unfold extra_kwargs.
    apply (filter_all (fun e : string * string => is_name items (fst e))).
    intros [k v] Hin. cbn [fst]. apply is_name_in. now apply (Hkeys k v). }
  set (path := filled items (kw_values kwargs items)).
  assert (Hmake : UrlRule.make_path (template_rule items) [] kwargs
                  = Ok (Some path)).
  { unfold template_rule. rewrite make_path_template by exact Hok.
    rewrite Hall, Hextra. cbn [query_string]. now rewrite append_nil_r. }
  assert (Hmatch : UrlRule.match_ (template_rule items) path
                   = Some (map (fun n => (n, Py.lookup n kwargs))
                               (item_names items))).
  { unfold path. rewrite match_filled;
      [|exact Hsh | now apply vals_fit_kwargs].
    f_equal. now apply combine_map_lookup. }
  exists (Plugin.mk [(func, [template_rule items])] (Plugin.base_url p0)), path.
  split; [now apply add_first_route|].
  cbn [Plugin.base_url]. split; [|split].
  - unfold Plugin.url_for. cbn [Plugin._rules].
    rewrite rules_of_single. cbn [Plugin.first_path]. rewrite Hmake.
    cbn [bind]. unfold Plugin.url_for_path. cbn [Plugin.base_url].
    fold (rooted path). rewrite rooted_startswith; [reflexivity|].
    apply filled_startswith. now rewrite <- Hs.
  - pose proof (route_for_url
                  (Plugin.mk [(func, [template_rule items])] (Plugin.base_url p0))
                  path Hbase) as Hr.
    cbn [Plugin.base_url Plugin._rules] in Hr. rewrite Hr.
    cbn [Plugin.route_items Plugin.route_rules]. now rewrite Hmatch.
  - unfold Plugin.redirect, Plugin._dispatch.
    cbn [Plugin._rules Plugin.dispatch_items Plugin.dispatch_rules].
    now rewrite Hmatch.
Qed.

Lemma url_for_route_for_roundtrip_witness :
  exists p path,
    Plugin.add_route (Plugin.init "plugin.foo.bar" None) H
                     "/item/<id>/<variant>/" = Ok p
    /\ Plugin.url_for p H [] [("variant", "b"); ("id", "7")]
       = Ok (Plugin.base_url p ++ path)
    /\ Plugin.route_for p (Plugin.base_url p ++ path) = Ok (Some H)
    /\ Plugin.redirect p path
       = (let d := map (fun n => (n, Py.lookup n [("variant", "b"); ("id", "7")]))
                       (item_names item_items) in
          ([Plugin.Log (Plugin.dispatching_to H d); Plugin.Call H d],
           Plugin.v_call H d)).
Proof.
  apply (url_for_route_for_roundtrip (Plugin.init "plugin.foo.bar" None) H
           "/item/<id>/<variant>/" item_items [("variant", "b"); ("id", "7")]).
  - reflexivity.
  - discriminate.
  - reflexivity.
  - reflexivity.
  - repeat split; try reflexivity.
    cbn. repeat constructor; cbn; intuition discriminate.
  - intros k v [[= <- <-]|[[= <- <-]|[]]]; cbn; auto.
  - intros it n [<-|[<-|[<-|[<-|[]]]]]; cbn; intros [= <-];
      eexists; split; reflexivity.
Defined.

(** ** The root route *)

Lemma root_rule_init (pattern : string) :
  UrlRule.stripped pattern = "" -> UrlRule.init pattern = Ok root_rule.
Proof. intros Hs. unfold UrlRule.init. rewrite Hs. reflexivity. Qed.

(** X10: the root route.  In a plugin with a non-empty base URL whose
    only route has a pattern of slashes only, which is stored as the empty
    pattern, [url_for] returns the base URL followed by a slash;
    [route_for] on that URL finds no view function and [_dispatch] on the
    path [/] raises [RoutingError], while [route_for] on the base URL
    alone returns the view function and [_dispatch] on the empty path
    calls it. *)
Theorem root_url_not_routed
        (p0 : Plugin.t) (func : Plugin.view_func) (pattern : string) :
  Plugin._rules p0 = [] ->
  Plugin.base_url p0 <> "" ->
  UrlRule.stripped pattern = "" ->
  exists p,
    Plugin.add_route p0 func pattern = Ok p
    /\ Plugin.url_for p func [] [] = Ok (Plugin.base_url p ++ "/")
    /\ Plugin.route_for p (Plugin.base_url p ++ "/") = Ok None
    /\ Plugin.route_for p (Plugin.base_url p) = Ok (Some func)
    /\ Plugin._dispatch p "/"
       = ([], Raise (RoutingError (Plugin.no_route_to "/")))
    /\ Plugin._dispatch p ""
       = ([Plugin.Log (Plugin.dispatching_to func []); Plugin.Call func []],
          Plugin.v_call func []).
Proof.
  intros Hrules Hbase Hs.
  exists (Plugin.mk [(func, [root_rule])] (Plugin.base_url p0)).
  split; [apply add_first_route; [exact Hrules | now apply root_rule_init]|].
  cbn [Plugin.base_url]. repeat apply conj.
  - unfold Plugin.url_for. cbn [Plugin._rules]. rewrite rules_of_single.
    reflexivity.
  - exact (route_for_url
             (Plugin.mk [(func, [root_rule])] (Plugin.base_url p0)) "/" Hbase).
  - rewrite <- (append_nil_r (Plugin.base_url p0)) at 2.
    exact (route_for_url
             (Plugin.mk [(func, [root_rule])] (Plugin.base_url p0)) "" Hbase).
  - reflexivity.
  - reflexivity.
Qed.

Lemma root_url_not_routed_witness :
  exists p,
    Plugin.add_route (Plugin.init "plugin.foo.bar" None) H "/" = Ok p
    /\ Plugin.url_for p H [] [] = Ok (Plugin.base_url p ++ "/")
    /\ Plugin.route_for p (Plugin.base_url p ++ "/") = Ok None
    /\ Plugin.route_for p (Plugin.base_url p) = Ok (Some H)
    /\ Plugin._dispatch p "/"
       = ([], Raise (RoutingError (Plugin.no_route_to "/")))
    /\ Plugin._dispatch p ""
       = ([Plugin.Log (Plugin.dispatching_to H []); Plugin.Call H []],
          Plugin.v_call H []).
Proof.
  apply (root_url_not_routed (Plugin.init "plugin.foo.bar" None) H "/").
  - reflexivity.
  - discriminate.
  - reflexivity.
Defined.

(** ** A placeholder name used twice *)

Lemma name_defined_true (n : string) (nm : list (string * nat)) :
  In n (map fst nm) -> name_defined n nm = true.
Proof.
  unfold name_defined. intros Hin. apply existsb_exists.
  apply in_map_iff in Hin. destruct Hin as [e [He Hin]].
  exists e. split; [exact Hin|]. rewrite He. apply String.eqb_refl.
Qed.

Lemma close_name_defined (n : string) (st : pst) :
  valid_name n = true -> name_defined n (p_names st) = true ->
  close_name (str_rev_app n "") st = inl FError.
Proof.
  intros Hn Hdef. unfold close_name. rewrite str_rev_rev.
  destruct (valid_name_identifier n Hn) as [Hascii Hid].
  destruct n as [|c n]; [discriminate|].
  now rewrite Hascii, Hid, Hdef.
Qed.

(** The parser stops with an error at a group whose name is taken. *)
Lemma parse_group_defined (n rest : string) (cur : list (regex * qstate))
      (g : nat) (nm : list (string * nat)) :
  valid_name n = true -> name_defined n nm = true ->
  parse_loop ("(?P<" ++ n ++ String ">" rest) (top_state cur g nm)
  = inl FError.
Proof.
  intros Hn Hdef.
  change ("(?P<" ++ n ++ String ">" rest)
    with (String "(" (String "?" (String "P" (String "<" (n ++ String ">" rest))))).
  cbn [parse_loop]. unfold top_state.
  change (step "(" (mkPst MNormal (mkFrame [] cur None) [] g nm))
    with (@inr fail pst (mkPst MParen (mkFrame [] cur None) [] g nm)).
  cbv iota beta.
  change (step "?" (mkPst MParen (mkFrame [] cur None) [] g nm))
    with (@inr fail pst (mkPst MParenQ (mkFrame [] cur None) [] g nm)).
  cbv iota beta.
  change (step "P" (mkPst MParenQ (mkFrame [] cur None) [] g nm))
    with (@inr fail pst (mkPst MParenQP (mkFrame [] cur None) [] g nm)).
  cbv iota beta.
  change (step "<" (mkPst MParenQP (mkFrame [] cur None) [] g nm))
    with (@inr fail pst (mkPst (MName "") (mkFrame [] cur None) [] g nm)).
  cbv iota beta.
  rewrite parse_name by now apply name_no_gt.
  cbn [parse_loop]. unfold step. cbn [p_mode]. rewrite Ascii.eqb_refl.
  rewrite close_name_defined by assumption. reflexivity.
Qed.

Lemma parse_items_defined (items : list item) :
  forall (rest : string) (cur : list (regex * qstate)) (g : nat)
         (nm : list (string * nat)),
    forallb item_ok items = true ->
    ~ NoDup (map fst nm ++ item_names items) ->
    NoDup (map fst nm) ->
    parse_loop (render regex_text items ++ rest) (top_state cur g nm)
    = inl FError.
Proof.
  induction items as [|it items IH]; intros rest cur g nm Hok Hdup Hnd.
  - exfalso. apply Hdup. cbn [item_names]. now rewrite app_nil_r.
  - cbn [forallb] in Hok. apply andb_prop in Hok. destruct Hok as [Hit Hok].
    assert (Hgroup : forall n tail,
               valid_name n = true ->
               item_names (it :: items) = n :: item_names items ->
               (name_defined n nm = false ->
                parse_loop (("(?P<" ++ n ++ tail) ++ render regex_text items ++ rest)
                           (top_state cur g nm)
                = parse_loop (render regex_text items ++ rest)
                    (top_state (push_items g [it] cur) (S g)
                               (nm ++ [(n, S g)])%list)) ->
               (exists tail', tail = String ">" tail') ->
               parse_loop (("(?P<" ++ n ++ tail) ++ render regex_text items ++ rest)
                          (top_state cur g nm)
               = inl FError).
    { intros n tail Hn Hnames Hstep [tail' ->]. rewrite Hnames in Hdup.
      destruct (name_defined n nm) eqn:Hdef.
      - replace (("(?P<" ++ n ++ String ">" tail') ++ render regex_text items ++ rest)
          with ("(?P<" ++ n ++ String ">" (tail' ++ render regex_text items ++ rest))
          by (cbn [append]; rewrite !append_assoc; reflexivity).
        now apply parse_group_defined.
      - rewrite (Hstep eq_refl). apply IH; [exact Hok | |].
        + rewrite map_app. cbn [map fst]. rewrite <- app_assoc. exact Hdup.
        + rewrite map_app. cbn [map fst]. apply NoDup_app; [exact Hnd | |].
          * repeat constructor. intros [].
          * intros x Hx [Heq|[]]. subst x.
            rewrite (name_defined_true n nm Hx) in Hdef. discriminate. }
    destruct it as [t|n|n|n]; cbn [item_ok render regex_text item_names] in *.
    + rewrite append_assoc, parse_lit by exact Hit. now apply IH.
    + rewrite append_assoc.
      apply (Hgroup n ">[^/]+?)" Hit eq_refl); [|now eexists].
      intros Hdef. now apply parse_seg.
    + rewrite append_assoc.
      apply (Hgroup n ">[^/]+?)" Hit eq_refl); [|now eexists].
      intros Hdef. now apply parse_seg.
    + rewrite append_assoc.
      apply (Hgroup n ">.*)" Hit eq_refl); [|now eexists].
      intros Hdef. now apply parse_path.
Qed.

Lemma compile_items_defined (items : list item) :
  forallb item_ok items = true ->
  ~ NoDup (item_names items) ->
  compile ("^" ++ render regex_text items ++ "$") = Raise ReError.
Proof.
  intros Hok Hdup. unfold compile.
  change ("^" ++ render regex_text items ++ "$")
    with (String "^" (render regex_text items ++ "$")).
  cbn [parse_loop].
  change (step "^" parse_init)
    with (@inr fail pst (top_state [(Bol, QAnchor)] 0 [])).
  cbv iota beta.
  rewrite parse_items_defined; [reflexivity | exact Hok | exact Hdup |].
  constructor.
Qed.

(** X11: a pattern of literal text without the characters that are
    special in a regular expression and of placeholders with valid names,
    in which two placeholders have the same name, cannot be registered:
    compiling its expression raises [re.error], from [UrlRule] and so
    from [add_route] and [route]. *)
Theorem duplicate_placeholder_name
        (p : Plugin.t) (func : Plugin.view_func) (pattern : string)
        (items : list item) :
  UrlRule.stripped pattern = render source_text items ->
  forallb item_ok items = true ->
  ~ NoDup (item_names items) ->
  UrlRule.init pattern = Raise ReError
  /\ Plugin.add_route p func pattern = Raise ReError
  /\ Plugin.route p pattern func = Raise ReError.
Proof.
  intros Hs Hok Hdup.
  assert (Hinit : UrlRule.init pattern = Raise ReError).
  { unfold UrlRule.init. rewrite Hs.
    rewrite sub_kw, findall_kw, sub_plain. cbn [bind].
    rewrite (stage_items r1 t1 source_text typed_text items stage1_item Hok).
    rewrite sub_string. cbn [bind].
    rewrite (stage_items r2 t2 typed_text seg_text items stage2_item Hok).
    rewrite sub_path. cbn [bind].
    rewrite (stage_items r3 t3 seg_text regex_text items stage3_item Hok).
    now rewrite compile_items_defined. }
  split; [exact Hinit|].
  unfold Plugin.route, Plugin.add_route. rewrite Hinit. now split.
Qed.

Lemma duplicate_placeholder_name_witness :
  UrlRule.init "/<a>/<path:a>" = Raise ReError
  /\ Plugin.add_route item_routes H "/<a>/<path:a>" = Raise ReError
  /\ Plugin.route item_routes "/<a>/<path:a>" H = Raise ReError.
Proof.
  apply (duplicate_placeholder_name item_routes H "/<a>/<path:a>"
           [Lit "/"; Seg "a"; Lit "/"; PathP "a"]).
  - reflexivity.
  - reflexivity.
  - cbn [item_names]. intros Hnd. inversion Hnd as [|? ? Hnot _]; subst.
    apply Hnot. now left.
Defined.

(** ** The first match *)

(** X3: the first match wins, in the order of registration.  When no rule
    of the view functions registered before [view] matches the path and
    [rule] is the first rule of [view] that matches, [_dispatch] calls
    [view] with what [rule] extracts, whatever comes later.  [route_for]
    returns [view] for the path itself when the path does not start with
    the base URL, and for the base URL followed by the path when the base
    URL is not empty. *)
Theorem first_match_wins
        (p : Plugin.t) (path : string)
        (before : list (Plugin.view_func * list UrlRule.t))
        (view : Plugin.view_func) (earlier : list UrlRule.t) (rule : UrlRule.t)
        (later : list UrlRule.t)
        (after : list (Plugin.view_func * list UrlRule.t))
        (kwargs : list (string * option string)) :
  Plugin._rules p
  = (before ++ (view, earlier ++ rule :: later) :: after)%list ->
  (forall v rules r, In (v, rules) before -> In r rules ->
                     UrlRule.match_ r path = None) ->
  (forall r, In r earlier -> UrlRule.match_ r path = None) ->
  UrlRule.match_ rule path = Some kwargs ->
  Plugin._dispatch p path
  = ([Plugin.Log (Plugin.dispatching_to view kwargs);
      Plugin.Call view kwargs], Plugin.v_call view kwargs)
  /\ (Py.startswith (Plugin.base_url p) path = false ->
      Plugin.route_for p path = Ok (Some view))
  /\ (Plugin.base_url p <> "" ->
      Plugin.route_for p (Plugin.base_url p ++ path) = Ok (Some view)).
Proof.
  intros Hrules Hbefore Hearlier Hm.
  destruct (first_match_items p path before view earlier rule later after
                              kwargs Hrules Hbefore Hearlier Hm) as [Hr Hd].
  split; [exact Hd|]. split.
  - intros Hbase. unfold Plugin.route_for. rewrite Hbase. cbn [bind].
    now rewrite Hr.
  - intros Hbase. rewrite route_for_url by exact Hbase. now rewrite Hr.
Qed.

Lemma first_match_wins_witness :
  Plugin._dispatch videos_plugin "/videos/a/b"
  = ([Plugin.Log (Plugin.dispatching_to videos [("rest", Some "a/b")]);
      Plugin.Call videos [("rest", Some "a/b")]],
     Plugin.v_call videos [("rest", Some "a/b")])
  /\ (Py.startswith (Plugin.base_url videos_plugin) "/videos/a/b" = false ->
      Plugin.route_for videos_plugin "/videos/a/b" = Ok (Some videos))
  /\ (Plugin.base_url videos_plugin <> "" ->
      Plugin.route_for videos_plugin
                       (Plugin.base_url videos_plugin ++ "/videos/a/b")
      = Ok (Some videos)).
Proof.
  apply (first_match_wins videos_plugin "/videos/a/b"
           [(H, [rule_of "/item/<id>"])] videos []
           (rule_of "/videos/<path:rest>") [] []).
  - reflexivity.
  - intros v rules r [[= <- <-]|[]] [<-|[]]. vm_compute. reflexivity.
  - intros r [].
  - vm_compute. reflexivity.
Defined.
